(** * PLCrashReporter: ARM thread state and Objective-C metadata lookup

    A shallow embedding of

    - [Source/PLCrashAsyncThread_arm.c]: the ARM register file, its validity
      bitset, the callee-preserved table and the DWARF register table;
    - [Source/PLCrashAsyncObjCSection.c]: the class cache, the ObjC2 class
      list parser, the ObjC1/ObjC2 dispatch and the two-pass method search.

    Unsigned machine integers are [N]; bit operations are [N.land],
    [N.lor], [N.ldiff], [N.shiftl], [N.shiftr] and [N.testbit].  C arrays are
    lists read with [!!!] and written with [<[ i := x ]>]. *)

From stdpp Require Import base numbers list strings.

Local Open Scope N_scope.

(** ** Part I: the ARM thread state (PLCrashAsyncThread_arm.c) *)

Module ARM.

(** The register identifiers of [plcrash_arm_regnum_t], in the order of the
    [switch] of [plcrash_async_thread_state_get_reg]. *)
Inductive plcrash_arm_regnum : Set :=
| PLCRASH_ARM_R0 | PLCRASH_ARM_R1 | PLCRASH_ARM_R2 | PLCRASH_ARM_R3
| PLCRASH_ARM_R4 | PLCRASH_ARM_R5 | PLCRASH_ARM_R6 | PLCRASH_ARM_R7
| PLCRASH_ARM_R8 | PLCRASH_ARM_R9 | PLCRASH_ARM_R10 | PLCRASH_ARM_R11
| PLCRASH_ARM_R12 | PLCRASH_ARM_SP | PLCRASH_ARM_LR | PLCRASH_ARM_PC
| PLCRASH_ARM_CPSR.

Definition plcrash_arm_regnum_eqb (a b : plcrash_arm_regnum) : bool :=
  match a, b with
  | PLCRASH_ARM_R0, PLCRASH_ARM_R0 | PLCRASH_ARM_R1, PLCRASH_ARM_R1
  | PLCRASH_ARM_R2, PLCRASH_ARM_R2 | PLCRASH_ARM_R3, PLCRASH_ARM_R3
  | PLCRASH_ARM_R4, PLCRASH_ARM_R4 | PLCRASH_ARM_R5, PLCRASH_ARM_R5
  | PLCRASH_ARM_R6, PLCRASH_ARM_R6 | PLCRASH_ARM_R7, PLCRASH_ARM_R7
  | PLCRASH_ARM_R8, PLCRASH_ARM_R8 | PLCRASH_ARM_R9, PLCRASH_ARM_R9
  | PLCRASH_ARM_R10, PLCRASH_ARM_R10 | PLCRASH_ARM_R11, PLCRASH_ARM_R11
  | PLCRASH_ARM_R12, PLCRASH_ARM_R12 | PLCRASH_ARM_SP, PLCRASH_ARM_SP
  | PLCRASH_ARM_LR, PLCRASH_ARM_LR | PLCRASH_ARM_PC, PLCRASH_ARM_PC
  | PLCRASH_ARM_CPSR, PLCRASH_ARM_CPSR => true
  | _, _ => false
  end.

(** [ts->arm_state.thread]: the Mach [arm_thread_state_t]. *)
Record arm_thread_state_t : Type := {
  thread_r : list N;      (* __r[13] *)
  thread_sp : N;          (* __sp *)
  thread_lr : N;          (* __lr *)
  thread_pc : N;          (* __pc *)
  thread_cpsr : N         (* __cpsr *)
}.

(** [plcrash_async_thread_state_t], restricted to the fields the ARM file
    touches: the register file and the [valid_regs] bitset. *)
Record plcrash_async_thread_state_t : Type := {
  arm_state : arm_thread_state_t;
  valid_regs : N
}.

(** What a register read yields: the [RETGEN] value, or the
    [__builtin_trap()] of the [default:] label. *)
Inductive reg_read : Type :=
| RegValue (v : N)
| RegTrap.

(** The registers with a [case] label, in source order. *)
Definition arm_case_labels : list plcrash_arm_regnum :=
  [ PLCRASH_ARM_R0; PLCRASH_ARM_R1; PLCRASH_ARM_R2; PLCRASH_ARM_R3;
    PLCRASH_ARM_R4; PLCRASH_ARM_R5; PLCRASH_ARM_R6; PLCRASH_ARM_R7;
    PLCRASH_ARM_R8; PLCRASH_ARM_R9; PLCRASH_ARM_R10; PLCRASH_ARM_R11;
    PLCRASH_ARM_R12; PLCRASH_ARM_SP; PLCRASH_ARM_LR; PLCRASH_ARM_PC;
    PLCRASH_ARM_CPSR ].

(** The lvalue each [RETGEN]/[SETGEN] names. *)
Definition reg_field (st : arm_thread_state_t) (r : plcrash_arm_regnum) : N :=
  match r with
  | PLCRASH_ARM_R0 => thread_r st !!! 0%nat
  | PLCRASH_ARM_R1 => thread_r st !!! 1%nat
  | PLCRASH_ARM_R2 => thread_r st !!! 2%nat
  | PLCRASH_ARM_R3 => thread_r st !!! 3%nat
  | PLCRASH_ARM_R4 => thread_r st !!! 4%nat
  | PLCRASH_ARM_R5 => thread_r st !!! 5%nat
  | PLCRASH_ARM_R6 => thread_r st !!! 6%nat
  | PLCRASH_ARM_R7 => thread_r st !!! 7%nat
  | PLCRASH_ARM_R8 => thread_r st !!! 8%nat
  | PLCRASH_ARM_R9 => thread_r st !!! 9%nat
  | PLCRASH_ARM_R10 => thread_r st !!! 10%nat
  | PLCRASH_ARM_R11 => thread_r st !!! 11%nat
  | PLCRASH_ARM_R12 => thread_r st !!! 12%nat
  | PLCRASH_ARM_SP => thread_sp st
  | PLCRASH_ARM_LR => thread_lr st
  | PLCRASH_ARM_PC => thread_pc st
  | PLCRASH_ARM_CPSR => thread_cpsr st
  end.

(** The assignment of [SETGEN]: the fields of [arm_thread_state_t] are 32
    bits wide, so of the [plcrash_greg_t] assigned the low 32 bits are
    kept. *)
Definition set_reg_field (st : arm_thread_state_t) (r : plcrash_arm_regnum)
    (value : N) : arm_thread_state_t :=
  let value := value mod 2 ^ 32 in
  let upd (i : nat) :=
    {| thread_r := <[ i := value ]> (thread_r st); thread_sp := thread_sp st;
       thread_lr := thread_lr st; thread_pc := thread_pc st;
       thread_cpsr := thread_cpsr st |} in
  match r with
  | PLCRASH_ARM_R0 => upd 0%nat | PLCRASH_ARM_R1 => upd 1%nat
  | PLCRASH_ARM_R2 => upd 2%nat | PLCRASH_ARM_R3 => upd 3%nat
  | PLCRASH_ARM_R4 => upd 4%nat | PLCRASH_ARM_R5 => upd 5%nat
  | PLCRASH_ARM_R6 => upd 6%nat | PLCRASH_ARM_R7 => upd 7%nat
  | PLCRASH_ARM_R8 => upd 8%nat | PLCRASH_ARM_R9 => upd 9%nat
  | PLCRASH_ARM_R10 => upd 10%nat | PLCRASH_ARM_R11 => upd 11%nat
  | PLCRASH_ARM_R12 => upd 12%nat
  | PLCRASH_ARM_SP =>
      {| thread_r := thread_r st; thread_sp := value; thread_lr := thread_lr st;
         thread_pc := thread_pc st; thread_cpsr := thread_cpsr st |}
  | PLCRASH_ARM_LR =>
      {| thread_r := thread_r st; thread_sp := thread_sp st; thread_lr := value;
         thread_pc := thread_pc st; thread_cpsr := thread_cpsr st |}
  | PLCRASH_ARM_PC =>
      {| thread_r := thread_r st; thread_sp := thread_sp st;
         thread_lr := thread_lr st; thread_pc := value;
         thread_cpsr := thread_cpsr st |}
  | PLCRASH_ARM_CPSR =>
      {| thread_r := thread_r st; thread_sp := thread_sp st;
         thread_lr := thread_lr st; thread_pc := thread_pc st;
         thread_cpsr := value |}
  end.

(** [struct dwarf_register_table] rows pair a register with its DWARF number. *)
Definition arm_dwarf_rows : list (plcrash_arm_regnum * N) :=
  [ (PLCRASH_ARM_R0, 0); (PLCRASH_ARM_R1, 1); (PLCRASH_ARM_R2, 2);
    (PLCRASH_ARM_R3, 3); (PLCRASH_ARM_R4, 4); (PLCRASH_ARM_R5, 5);
    (PLCRASH_ARM_R6, 6); (PLCRASH_ARM_R7, 7); (PLCRASH_ARM_R8, 8);
    (PLCRASH_ARM_R9, 9); (PLCRASH_ARM_R10, 10); (PLCRASH_ARM_R11, 11);
    (PLCRASH_ARM_R12, 12); (PLCRASH_ARM_SP, 13); (PLCRASH_ARM_LR, 14);
    (PLCRASH_ARM_PC, 15) ].

(** The rows of [arm_nonvolatile_registers]. *)
Definition arm_nonvolatile_rows : list plcrash_arm_regnum :=
  [ PLCRASH_ARM_R4; PLCRASH_ARM_R5; PLCRASH_ARM_R6; PLCRASH_ARM_R7;
    PLCRASH_ARM_R8; PLCRASH_ARM_R10; PLCRASH_ARM_R11 ].

(** The callee-saved set as the specification words it: the table above
    plus SP and the return-address register. *)
Definition spec_callee_saved : list plcrash_arm_regnum :=
  arm_nonvolatile_rows ++ [ PLCRASH_ARM_SP; PLCRASH_ARM_LR ].

Section Regnums.

(** The integer value of each enumerator and of [PLCRASH_ARM_LAST_REG] are
    declared in PLCrashAsyncThread_arm.h, which is not part of the sources
    at hand; they are parameters here.  The enumerators are the [case]
    labels of one [switch], so they are pairwise distinct, and
    [PLCRASH_ARM_LAST_REG] is "an index value" bounding all of them. *)
Variable regnum : plcrash_arm_regnum -> N.
Variable PLCRASH_ARM_LAST_REG : N.

(** Modelled from the spec: [plcrash_async_thread_state_has_reg] lives in
    PLCrashAsyncThread.c (absent); "bit i set iff register i holds a
    meaningful value", with the bit position [SETGEN] uses. *)
Definition plcrash_async_thread_state_has_reg
    (ts : plcrash_async_thread_state_t) (reg : N) : bool :=
  negb (N.land (valid_regs ts) (N.shiftl 1 reg) =? 0).

(** Modelled from the spec: [plcrash_async_thread_state_clear_reg] lives in
    PLCrashAsyncThread.c (absent); it clears the validity bit of [reg]. *)
Definition plcrash_async_thread_state_clear_reg
    (ts : plcrash_async_thread_state_t) (reg : N)
    : plcrash_async_thread_state_t :=
  {| arm_state := arm_state ts;
     valid_regs := N.ldiff (valid_regs ts) (N.shiftl 1 reg) |}.

(** The [switch (regnum)]: the first label equal to the scrutinee. *)
Definition switch_case (n : N) : option plcrash_arm_regnum :=
  List.find (fun r => regnum r =? n) arm_case_labels.

Definition plcrash_async_thread_state_get_reg
    (ts : plcrash_async_thread_state_t) (n : N) : reg_read :=
  match switch_case n with
  | Some r => RegValue (reg_field (arm_state ts) r)
  | None => RegTrap
  end.

(** [SETGEN]: mark valid, store, [break]; [None] is the trap. *)
Definition plcrash_async_thread_state_set_reg
    (ts : plcrash_async_thread_state_t) (n : N) (reg : N)
    : option plcrash_async_thread_state_t :=
  match switch_case n with
  | Some r =>
      Some {| arm_state := set_reg_field (arm_state ts) r reg;
              valid_regs := N.lor (valid_regs ts) (N.shiftl 1 n) |}
  | None => None
  end.

Definition plcrash_async_thread_state_get_reg_count
    (ts : plcrash_async_thread_state_t) : N :=
  PLCRASH_ARM_LAST_REG + 1.

Definition arm_nonvolatile_registers : list N :=
  List.map regnum arm_nonvolatile_rows.

(** The inner [for] with its [break]: is [reg] in the preservation table? *)
Fixpoint preserved_in (table : list N) (reg : N) : bool :=
  match table with
  | [] => false
  | x :: rest => if x =? reg then true else preserved_in rest reg
  end.

(** One turn of the outer loop body. *)
Definition clear_volatile_step (ts : plcrash_async_thread_state_t) (reg : N)
    : plcrash_async_thread_state_t :=
  if negb (plcrash_async_thread_state_has_reg ts reg) then ts
  else if negb (preserved_in arm_nonvolatile_registers reg)
       then plcrash_async_thread_state_clear_reg ts reg
       else ts.

(** The outer [for (reg = 0; reg < reg_count; reg++)], with [todo]
    iterations left. *)
Fixpoint clear_volatile_loop (todo : nat) (reg : N)
    (ts : plcrash_async_thread_state_t) : plcrash_async_thread_state_t :=
  match todo with
  | O => ts
  | S todo' => clear_volatile_loop todo' (reg + 1) (clear_volatile_step ts reg)
  end.

Definition plcrash_async_thread_state_clear_volatile_regs
    (ts : plcrash_async_thread_state_t) : plcrash_async_thread_state_t :=
  let reg_count := plcrash_async_thread_state_get_reg_count ts in
  clear_volatile_loop (N.to_nat reg_count) 0 ts.

Definition arm_dwarf_table : list (N * N) :=
  List.map (fun row => (regnum (fst row), snd row)) arm_dwarf_rows.

Fixpoint dwarf_scan_regnum (table : list (N * N)) (n : N) : option N :=
  match table with
  | [] => None
  | (rn, dv) :: rest => if rn =? n then Some dv else dwarf_scan_regnum rest n
  end.

Fixpoint dwarf_scan_value (table : list (N * N)) (d : N) : option N :=
  match table with
  | [] => None
  | (rn, dv) :: rest => if dv =? d then Some rn else dwarf_scan_value rest d
  end.

(** [Some d]: returned [true] with [*dwarf_reg = d]; [None]: [false]. *)
Definition plcrash_async_thread_state_map_reg_to_dwarf (n : N) : option N :=
  dwarf_scan_regnum arm_dwarf_table n.

(** [Some n]: returned [true] with [*regnum = n]; [None]: [false]. *)
Definition plcrash_async_thread_state_map_dwarf_to_reg (d : N) : option N :=
  dwarf_scan_value arm_dwarf_table d.

End Regnums.

End ARM.

(** ** Part II: Objective-C metadata (PLCrashAsyncObjCSection.c) *)

Module ObjC.

(** [plcrash_error_t] (PLCrashAsync.h): the codes this file and the
    specification name. *)
Inductive plcrash_error_t : Set :=
| PLCRASH_ESUCCESS | PLCRASH_EUNKNOWN | PLCRASH_ENOTFOUND
| PLCRASH_EINVAL | PLCRASH_EACCESS | PLCRASH_EINTERNAL.

Definition is_success (err : plcrash_error_t) : bool :=
  match err with PLCRASH_ESUCCESS => true | _ => false end.

(** [pl_vm_address_t] arithmetic wraps at the width of the type, taken as 64
    bits as on the hosts with [mach_vm_address_t]. *)
Definition pl_vm_address_bits : N := 64.

Definition vm_add (a b : N) : N := (a + b) mod 2 ^ pl_vm_address_bits.

Definition sizeof_pl_vm_address_t : N := 8.

Definition kDataSegmentName : string := "__DATA".
Definition kClassListSectionName : string := "__objc_classlist".
Definition kObjCConstSectionName : string := "__objc_const".
Definition kObjCDataSectionName : string := "__objc_data".

Definition RW_REALIZED : N := N.shiftl 1 31.
Definition RW_COPIED_RO : N := N.shiftl 1 27.

(** The two layouts of each ObjC2 structure differ in field width only; one
    record holds the raw field values of either, and [m64] picks the swap. *)
Record pl_objc2_class : Type := {
  class_isa : N; class_superclass : N; class_cache : N; class_vtable : N;
  class_data_rw : N
}.

Record pl_objc2_class_data_rw : Type := {
  rw_flags : N; rw_version : N; rw_data_ro : N
}.

Record pl_objc2_class_data_ro : Type := {
  ro_flags : N; ro_instanceStart : N; ro_instanceSize : N; ro_ivarLayout : N;
  ro_name : N; ro_baseMethods : N; ro_baseProtocols : N; ro_ivars : N;
  ro_weakIvarLayout : N; ro_baseProperties : N
}.

Record pl_objc2_method : Type := {
  method_name : N; method_types : N; method_imp : N
}.

Record pl_objc2_list_header : Type := {
  header_entsize : N; header_count : N
}.

(** Modelled from the spec: [plcrash_async_mobject_t] (PLCrashAsyncMObject,
    absent), the task range of a "validated (task_address, length,
    local_address) triple"; the local address plays no part here. *)
Record plcrash_async_mobject_t : Type := {
  task_address : N;
  mobject_length : N
}.

(** Modelled from the spec: [plcrash_async_mobject_remap_address] (absent)
    "returns null if the requested window is not entirely inside memobj";
    [true] stands for a non-NULL pointer. *)
Definition plcrash_async_mobject_remap_address
    (mobj : plcrash_async_mobject_t) (address offset len : N) : bool :=
  (task_address mobj <=? address + offset)
  && (address + offset + len <=? task_address mobj + mobject_length mobj).

(** One invocation of a [plcrash_async_objc_found_method_cb]: a class or
    meta-class method, the class and method name strings (by the address the
    [plcrash_async_macho_string_t] was initialised with) and the IMP. *)
Record found_method : Type := {
  isClassMethod : bool;
  className : N;
  methodName : N;
  imp : N
}.

(** [plcrash_async_objc_found_method_cb]: the callback acts on the state
    behind its [void *ctx]. *)
Definition plcrash_async_objc_found_method_cb (Ctx : Type) : Type :=
  bool -> N -> N -> N -> Ctx -> Ctx.

(** Modelled from the spec: [plcrash_async_macho_t] and the readers of
    PLCrashAsync.c and PLCrashAsyncMachOImage.c (absent) that the parser
    hands it to.  [plcrash_async_read_addr] and
    [plcrash_async_macho_string_init] give the error code of the call on the
    image's task; [plcrash_async_macho_map_section] gives the code and the
    memory object; the [..._at] fields are the typed views of the task's
    bytes at an address, raw (before the byte-order swap).  [macho_self] is
    the address of the structure, for the pointer comparison with
    [lastImage].  [module_info_walk] summarises
    [pl_async_objc_parse_from_module_info] on this image by what its caller
    can observe: the methods handed to the callback, in order, and the code
    returned. *)
Record plcrash_async_macho_t : Type := {
  macho_self : N;
  m64 : bool;
  swap32 : N -> N;
  swap64 : N -> N;
  plcrash_async_read_addr : N -> N -> plcrash_error_t;
  plcrash_async_macho_string_init : N -> plcrash_error_t;
  plcrash_async_macho_map_section :
    string -> string -> plcrash_error_t * plcrash_async_mobject_t;
  pointer_at : N -> N;
  class_at : N -> pl_objc2_class;
  data_rw_at : N -> pl_objc2_class_data_rw;
  data_ro_at : N -> pl_objc2_class_data_ro;
  list_header_at : N -> pl_objc2_list_header;
  method_at : N -> pl_objc2_method;
  module_info_walk : list found_method * plcrash_error_t
}.

(** [image->m64 ? image->byteorder->swap64(v) : image->byteorder->swap32(v)] *)
Definition swap_pointer (image : plcrash_async_macho_t) (v : N) : N :=
  if m64 image then swap64 image v else swap32 image v.

Definition sizeof_class (image : plcrash_async_macho_t) : N :=
  if m64 image then 40 else 20.
Definition sizeof_class_data_rw (image : plcrash_async_macho_t) : N :=
  if m64 image then 16 else 12.
Definition sizeof_class_data_ro (image : plcrash_async_macho_t) : N :=
  if m64 image then 72 else 40.
Definition sizeof_class_pointer (image : plcrash_async_macho_t) : N :=
  if m64 image then 8 else 4.
Definition sizeof_list_header : N := 8.
Definition sizeof_method (image : plcrash_async_macho_t) : N :=
  if m64 image then 24 else 12.

(** [plcrash_async_objc_cache_t] (PLCrashAsyncObjCSection.h), with the fields
    this file reads and writes.  A [NULL] array pointer is [None]. *)
Record plcrash_async_objc_cache_t : Type := {
  gotObjC2Info : bool;
  lastImage : option N;
  objcConstMobj : plcrash_async_mobject_t;
  objcConstMobjInitialized : bool;
  classMobj : plcrash_async_mobject_t;
  classMobjInitialized : bool;
  objcDataMobj : plcrash_async_mobject_t;
  objcDataMobjInitialized : bool;
  classCacheSize : N;
  classCacheKeys : option (list N);
  classCacheValues : option (list N)
}.

Definition set_gotObjC2Info (c : plcrash_async_objc_cache_t) (b : bool)
    : plcrash_async_objc_cache_t :=
  {| gotObjC2Info := b; lastImage := lastImage c;
     objcConstMobj := objcConstMobj c;
     objcConstMobjInitialized := objcConstMobjInitialized c;
     classMobj := classMobj c;
     classMobjInitialized := classMobjInitialized c;
     objcDataMobj := objcDataMobj c;
     objcDataMobjInitialized := objcDataMobjInitialized c;
     classCacheSize := classCacheSize c; classCacheKeys := classCacheKeys c;
     classCacheValues := classCacheValues c |}.

Definition set_lastImage (c : plcrash_async_objc_cache_t) (image : option N)
    : plcrash_async_objc_cache_t :=
  {| gotObjC2Info := gotObjC2Info c; lastImage := image;
     objcConstMobj := objcConstMobj c;
     objcConstMobjInitialized := objcConstMobjInitialized c;
     classMobj := classMobj c;
     classMobjInitialized := classMobjInitialized c;
     objcDataMobj := objcDataMobj c;
     objcDataMobjInitialized := objcDataMobjInitialized c;
     classCacheSize := classCacheSize c; classCacheKeys := classCacheKeys c;
     classCacheValues := classCacheValues c |}.

Definition set_objcConstMobj (c : plcrash_async_objc_cache_t) (mobj : plcrash_async_mobject_t)
    : plcrash_async_objc_cache_t :=
  {| gotObjC2Info := gotObjC2Info c; lastImage := lastImage c;
     objcConstMobj := mobj; objcConstMobjInitialized := true;
     classMobj := classMobj c;
     classMobjInitialized := classMobjInitialized c;
     objcDataMobj := objcDataMobj c;
     objcDataMobjInitialized := objcDataMobjInitialized c;
     classCacheSize := classCacheSize c; classCacheKeys := classCacheKeys c;
     classCacheValues := classCacheValues c |}.

Definition set_classMobj (c : plcrash_async_objc_cache_t) (mobj : plcrash_async_mobject_t)
    : plcrash_async_objc_cache_t :=
  {| gotObjC2Info := gotObjC2Info c; lastImage := lastImage c;
     objcConstMobj := objcConstMobj c;
     objcConstMobjInitialized := objcConstMobjInitialized c;
     classMobj := mobj; classMobjInitialized := true;
     objcDataMobj := objcDataMobj c;
     objcDataMobjInitialized := objcDataMobjInitialized c;
     classCacheSize := classCacheSize c; classCacheKeys := classCacheKeys c;
     classCacheValues := classCacheValues c |}.

Definition set_objcDataMobj (c : plcrash_async_objc_cache_t) (mobj : plcrash_async_mobject_t)
    : plcrash_async_objc_cache_t :=
  {| gotObjC2Info := gotObjC2Info c; lastImage := lastImage c;
     objcConstMobj := objcConstMobj c;
     objcConstMobjInitialized := objcConstMobjInitialized c;
     classMobj := classMobj c;
     classMobjInitialized := classMobjInitialized c; objcDataMobj := mobj;
     objcDataMobjInitialized := true; classCacheSize := classCacheSize c;
     classCacheKeys := classCacheKeys c;
     classCacheValues := classCacheValues c |}.

Definition set_classCacheSize (c : plcrash_async_objc_cache_t) (size : N)
    : plcrash_async_objc_cache_t :=
  {| gotObjC2Info := gotObjC2Info c; lastImage := lastImage c;
     objcConstMobj := objcConstMobj c;
     objcConstMobjInitialized := objcConstMobjInitialized c;
     classMobj := classMobj c;
     classMobjInitialized := classMobjInitialized c;
     objcDataMobj := objcDataMobj c;
     objcDataMobjInitialized := objcDataMobjInitialized c;
     classCacheSize := size; classCacheKeys := classCacheKeys c;
     classCacheValues := classCacheValues c |}.

Definition set_classCacheArrays (c : plcrash_async_objc_cache_t) (keys values : option (list N))
    : plcrash_async_objc_cache_t :=
  {| gotObjC2Info := gotObjC2Info c; lastImage := lastImage c;
     objcConstMobj := objcConstMobj c;
     objcConstMobjInitialized := objcConstMobjInitialized c;
     classMobj := classMobj c;
     classMobjInitialized := classMobjInitialized c;
     objcDataMobj := objcDataMobj c;
     objcDataMobjInitialized := objcDataMobjInitialized c;
     classCacheSize := classCacheSize c; classCacheKeys := keys;
     classCacheValues := values |}.

Definition free_mapped_sections (c : plcrash_async_objc_cache_t) 
    : plcrash_async_objc_cache_t :=
  {| gotObjC2Info := gotObjC2Info c; lastImage := lastImage c;
     objcConstMobj := objcConstMobj c; objcConstMobjInitialized := false;
     classMobj := classMobj c; classMobjInitialized := false;
     objcDataMobj := objcDataMobj c; objcDataMobjInitialized := false;
     classCacheSize := classCacheSize c; classCacheKeys := classCacheKeys c;
     classCacheValues := classCacheValues c |}.

(** What a call either returns or dies of.  The parser can leave defined
    behaviour in two ways: by the dereference of a [NULL] class_ro pointer,
    and by the read of a method structure that reaches outside the mapped
    [__objc_const], of which only [entsize * count] bytes were validated. *)
Inductive outcome (A : Type) : Type :=
| Returned (a : A)
| NullDeref
| OutOfBounds.

Arguments Returned {A} a.
Arguments NullDeref {A}.
Arguments OutOfBounds {A}.

(** Which of the two parsers [plcrash_async_objc_parse] entered. *)
Inductive parser_kind : Set := ObjC1 | ObjC2.

(** Where [classDataRO_32]/[classDataRO_64] point: at [cls_copied_ro], filled
    by [plcrash_async_read_addr], or into the [__objc_const] mapping. *)
Inductive class_ro_pointer : Type :=
| CopiedRO (ro : pl_objc2_class_data_ro)
| MappedRO (address : N).

(** How the first half of [pl_async_objc_parse_objc2_class] ends: with a
    [goto cleanup] carrying [err], or by falling through to the class name
    with the RO pointer ([None] is [NULL]) and the context as updated. *)
Inductive ro_lookup : Type :=
| RoCleanup (err : plcrash_error_t)
| RoPointer (ro : option class_ro_pointer) (objcContext : plcrash_async_objc_cache_t).

Definition array_get (a : option (list N)) (index : N) : N :=
  match a with
  | Some l => l !!! N.to_nat index
  | None => 0
  end.

Definition array_set (a : option (list N)) (index : N) (x : N) : option (list N) :=
  match a with
  | Some l => Some (<[ N.to_nat index := x ]> l)
  | None => None
  end.

Definition cache_index (context : plcrash_async_objc_cache_t) (key : N) : N :=
  N.shiftr key 2 mod classCacheSize context.

Definition cache_allocation_size (context : plcrash_async_objc_cache_t) : N :=
  let size := classCacheSize context in
  size * sizeof_pl_vm_address_t + size * sizeof_pl_vm_address_t.

Definition cache_lookup (context : plcrash_async_objc_cache_t) (key : N) : N :=
  if 0 <? classCacheSize context then
    let index := cache_index context key in
    if array_get (classCacheKeys context) index =? key
    then array_get (classCacheValues context) index
    else 0
  else 0.

(** The tail of [cache_set]: the bucket is written only when its key is 0. *)
Definition cache_store (context : plcrash_async_objc_cache_t) (key value : N)
    : plcrash_async_objc_cache_t :=
  let index := cache_index context key in
  if array_get (classCacheKeys context) index =? 0 then
    set_classCacheArrays context
      (array_set (classCacheKeys context) index key)
      (array_set (classCacheValues context) index value)
  else context.

Definition plcrash_async_objc_cache_init : plcrash_async_objc_cache_t :=
  {| gotObjC2Info := false; lastImage := None;
     objcConstMobj := {| task_address := 0; mobject_length := 0 |};
     objcConstMobjInitialized := false;
     classMobj := {| task_address := 0; mobject_length := 0 |};
     classMobjInitialized := false;
     objcDataMobj := {| task_address := 0; mobject_length := 0 |};
     objcDataMobjInitialized := false;
     classCacheSize := 0; classCacheKeys := None; classCacheValues := None |}.

(** The states of the class cache the code can produce: no array and size
    0, or both arrays of 1024 entries and size 1024. *)
Definition class_cache_wf (c : plcrash_async_objc_cache_t) : Prop :=
  match classCacheKeys c, classCacheValues c with
  | None, None => classCacheSize c = 0
  | Some keys, Some values =>
      classCacheSize c = 1024
      /\ length keys = 1024%nat /\ length values = 1024%nat
  | _, _ => False
  end.

(** The bucket of [key] in an allocated cache. *)
Definition bucket_index (key : N) : N := N.shiftr key 2 mod 1024.

Definition bucket_key (c : plcrash_async_objc_cache_t) (key : N) : N :=
  array_get (classCacheKeys c) (bucket_index key).

Definition bucket_value (c : plcrash_async_objc_cache_t) (key : N) : N :=
  array_get (classCacheValues c) (bucket_index key).

Section Host.

(** [vm_allocate(mach_task_self_, &addr, size, VM_FLAGS_ANYWHERE)]: whether
    the kernel grants [size] zero-filled bytes. *)
Variable vm_allocate : N -> bool.

Definition cache_set (context : plcrash_async_objc_cache_t) (key value : N)
    : plcrash_async_objc_cache_t :=
  match classCacheKeys context with
  | None =>
      let size := 1024 in
      let context := set_classCacheSize context size in
      let allocationSize := cache_allocation_size context in
      if vm_allocate allocationSize then
        let zeroed := replicate (N.to_nat size) 0 in
        cache_store (set_classCacheArrays context (Some zeroed) (Some zeroed))
          key value
      else set_classCacheSize context 0
  | Some _ => cache_store context key value
  end.

Definition map_sections (image : plcrash_async_macho_t)
    (context : plcrash_async_objc_cache_t)
    : plcrash_error_t * plcrash_async_objc_cache_t :=
  if decide (lastImage context = Some (macho_self image)) then
    (PLCRASH_ESUCCESS, context)
  else
    let context := free_mapped_sections context in
    let context := set_lastImage context None in
    match plcrash_async_macho_map_section image
            kDataSegmentName kObjCConstSectionName with
    | (PLCRASH_ESUCCESS, mobj) =>
        let context := set_objcConstMobj context mobj in
        match plcrash_async_macho_map_section image
                kDataSegmentName kClassListSectionName with
        | (PLCRASH_ESUCCESS, mobj) =>
            let context := set_classMobj context mobj in
            match plcrash_async_macho_map_section image
                    kDataSegmentName kObjCDataSectionName with
            | (PLCRASH_ESUCCESS, mobj) =>
                let context := set_objcDataMobj context mobj in
                (PLCRASH_ESUCCESS,
                 set_lastImage context (Some (macho_self image)))
            | (err, _) => (err, context)
            end
        | (err, _) => (err, context)
        end
    | (err, _) => (err, context)
    end.

(** [pl_async_objc_parse_objc2_class], up to and including the cache
    update: the resolution of [dataPtr] to the class_ro pointer. *)
Definition objc2_class_data_ro (image : plcrash_async_macho_t)
    (objcContext : plcrash_async_objc_cache_t) (dataPtr : N) : ro_lookup :=
  let class_ro_length := sizeof_class_data_ro image in
  let cached_data_ro_addr := cache_lookup objcContext dataPtr in
  if cached_data_ro_addr =? 0 then
    match plcrash_async_read_addr image dataPtr (sizeof_class_data_rw image) with
    | PLCRASH_ESUCCESS =>
        let classDataRW := data_rw_at image dataPtr in
        let flags := rw_flags classDataRW in
        if N.land flags RW_REALIZED =? 0 then RoCleanup PLCRASH_ESUCCESS
        else
          let cached_data_ro_addr := swap_pointer image (rw_data_ro classDataRW) in
          if negb (N.land flags RW_COPIED_RO =? 0) then
            match plcrash_async_read_addr image cached_data_ro_addr class_ro_length with
            | PLCRASH_ESUCCESS =>
                RoPointer (Some (CopiedRO (data_ro_at image cached_data_ro_addr)))
                  (cache_set objcContext dataPtr cached_data_ro_addr)
            | _ => RoCleanup PLCRASH_ESUCCESS
            end
          else if plcrash_async_mobject_remap_address (objcConstMobj objcContext)
                    cached_data_ro_addr 0 class_ro_length
          then RoPointer (Some (MappedRO cached_data_ro_addr))
                 (cache_set objcContext dataPtr cached_data_ro_addr)
          else RoCleanup PLCRASH_ESUCCESS
    | err => RoCleanup err
    end
  else if plcrash_async_mobject_remap_address (objcConstMobj objcContext)
            cached_data_ro_addr 0 class_ro_length
  then RoPointer (Some (MappedRO cached_data_ro_addr)) objcContext
  else
    match plcrash_async_read_addr image cached_data_ro_addr class_ro_length with
    | PLCRASH_ESUCCESS =>
        RoPointer (Some (CopiedRO (data_ro_at image cached_data_ro_addr)))
          objcContext
    | _ => RoPointer None objcContext
    end.

Definition class_ro_deref (image : plcrash_async_macho_t)
    (p : class_ro_pointer) : pl_objc2_class_data_ro :=
  match p with
  | CopiedRO ro => ro
  | MappedRO address => data_ro_at image address
  end.

Section Callback.

Context {Ctx : Type}.
Variable callback : plcrash_async_objc_found_method_cb Ctx.

(** The [for (i = 0; i < count; i++)] over the method list, with [todo]
    iterations left and [cursor] at the current entry, as a task address.
    The source reads [name] and [imp] of a whole method structure through
    the pointer into the mapping of [objcConstMobj], whatever [entsize] is:
    the read is defined while the structure lies inside the memory object,
    and is [OutOfBounds] once it reaches outside. *)
Fixpoint objc2_method_loop (image : plcrash_async_macho_t)
    (objcConstMobj : plcrash_async_mobject_t)
    (isMetaClass : bool) (classNamePtr : N) (entsize : N)
    (todo : nat) (cursor : N) (err : plcrash_error_t) (ctx : Ctx)
    : outcome (plcrash_error_t * Ctx) :=
  match todo with
  | O => Returned (err, ctx)
  | S todo' =>
      if negb (plcrash_async_mobject_remap_address objcConstMobj cursor 0
                 (sizeof_method image))
      then OutOfBounds
      else
        let method := method_at image cursor in
        let methodNamePtr := swap_pointer image (method_name method) in
        match plcrash_async_macho_string_init image methodNamePtr with
        | PLCRASH_ESUCCESS =>
            let imp := swap_pointer image (method_imp method) in
            let ctx := callback isMetaClass classNamePtr methodNamePtr imp ctx in
            objc2_method_loop image objcConstMobj isMetaClass classNamePtr
              entsize todo' (vm_add cursor entsize) PLCRASH_ESUCCESS ctx
        | err => Returned (err, ctx)
        end
  end.

(** [pl_async_objc_parse_objc2_class] from the class name on. *)
Definition objc2_class_methods (image : plcrash_async_macho_t)
    (objcContext : plcrash_async_objc_cache_t)
    (classDataRO : option class_ro_pointer) (isMetaClass : bool) (ctx : Ctx)
    : outcome (plcrash_error_t * plcrash_async_objc_cache_t * Ctx) :=
  match classDataRO with
  | None => NullDeref
  | Some p =>
      let ro := class_ro_deref image p in
      let classNamePtr := swap_pointer image (ro_name ro) in
      match plcrash_async_macho_string_init image classNamePtr with
      | PLCRASH_ESUCCESS =>
          let methodsPtr := swap_pointer image (ro_baseMethods ro) in
          if methodsPtr =? 0 then Returned (PLCRASH_ESUCCESS, objcContext, ctx)
          else if negb (plcrash_async_mobject_remap_address
                          (objcConstMobj objcContext) methodsPtr 0
                          sizeof_list_header)
          then Returned (PLCRASH_ESUCCESS, objcContext, ctx)
          else
            let header := list_header_at image methodsPtr in
            let entsize := N.ldiff (swap32 image (header_entsize header)) 3 in
            let count := swap32 image (header_count header) in
            let methodListStart := vm_add methodsPtr sizeof_list_header in
            let methodListLength := entsize * count in
            if negb (plcrash_async_mobject_remap_address
                       (objcConstMobj objcContext) methodListStart 0
                       methodListLength)
            then Returned (PLCRASH_ESUCCESS, objcContext, ctx)
            else
              match objc2_method_loop image (objcConstMobj objcContext)
                      isMetaClass classNamePtr entsize (N.to_nat count)
                      methodListStart PLCRASH_ESUCCESS ctx with
              | Returned (err, ctx) => Returned (err, objcContext, ctx)
              | NullDeref => NullDeref
              | OutOfBounds => OutOfBounds
              end
      | err => Returned (err, objcContext, ctx)
      end
  end.

Definition pl_async_objc_parse_objc2_class (image : plcrash_async_macho_t)
    (objcContext : plcrash_async_objc_cache_t) (class : pl_objc2_class)
    (isMetaClass : bool) (ctx : Ctx)
    : outcome (plcrash_error_t * plcrash_async_objc_cache_t * Ctx) :=
  let dataPtr := N.ldiff (swap_pointer image (class_data_rw class)) 3 in
  match objc2_class_data_ro image objcContext dataPtr with
  | RoCleanup err => Returned (err, objcContext, ctx)
  | RoPointer classDataRO objcContext =>
      objc2_class_methods image objcContext classDataRO isMetaClass ctx
  end.

(** The [for (i = 0; i < classCount; i++)] of
    [pl_async_objc_parse_from_data_section], with [todo] iterations left. *)
Fixpoint objc2_class_loop (image : plcrash_async_macho_t)
    (todo : nat) (i : N) (err : plcrash_error_t)
    (objcContext : plcrash_async_objc_cache_t) (ctx : Ctx)
    : outcome (plcrash_error_t * plcrash_async_objc_cache_t * Ctx) :=
  match todo with
  | O => Returned (err, objcContext, ctx)
  | S todo' =>
      let ptr :=
        swap_pointer image
          (pointer_at image
             (task_address (classMobj objcContext)
              + i * sizeof_class_pointer image)) in
      if negb (plcrash_async_mobject_remap_address
                 (objcDataMobj objcContext) ptr 0 (sizeof_class image))
      then Returned (err, objcContext, ctx)
      else
        let class := class_at image ptr in
        match pl_async_objc_parse_objc2_class image objcContext class false ctx with
        | Returned (PLCRASH_ESUCCESS, objcContext, ctx) =>
            let isa := swap_pointer image (class_isa class) in
            if negb (plcrash_async_mobject_remap_address
                       (objcDataMobj objcContext) isa 0 (sizeof_class image))
            then Returned (PLCRASH_ESUCCESS, objcContext, ctx)
            else
              match pl_async_objc_parse_objc2_class image objcContext
                      (class_at image isa) true ctx with
              | Returned (PLCRASH_ESUCCESS, objcContext, ctx) =>
                  objc2_class_loop image todo' (i + 1) PLCRASH_ESUCCESS
                    objcContext ctx
              | stopped => stopped
              end
        | stopped => stopped
        end
  end.

Definition pl_async_objc_parse_from_data_section
    (image : plcrash_async_macho_t)
    (objcContext : plcrash_async_objc_cache_t) (ctx : Ctx)
    : outcome (plcrash_error_t * plcrash_async_objc_cache_t * Ctx) :=
  match map_sections image objcContext with
  | (PLCRASH_ESUCCESS, objcContext) =>
      let classMobj := classMobj objcContext in
      if negb (plcrash_async_mobject_remap_address classMobj
                 (task_address classMobj) 0 (mobject_length classMobj))
      then Returned (PLCRASH_ESUCCESS, objcContext, ctx)
      else
        let classCount :=
          (mobject_length classMobj / sizeof_class_pointer image) mod 2 ^ 32 in
        objc2_class_loop image (N.to_nat classCount) 0 PLCRASH_ESUCCESS
          objcContext ctx
  | (err, objcContext) => Returned (err, objcContext, ctx)
  end.

(** The ObjC1 walk as its caller sees it: the callback applied to each
    method of [module_info_walk], then the code. *)
Definition pl_async_objc_parse_from_module_info
    (image : plcrash_async_macho_t) (ctx : Ctx) : plcrash_error_t * Ctx :=
  let '(methods, err) := module_info_walk image in
  (err,
   fold_left
     (fun ctx m =>
        callback (isClassMethod m) (className m) (methodName m) (imp m) ctx)
     methods ctx).

(** [plcrash_async_objc_parse]; a [NULL] cache is [None].  The first
    component lists the parsers entered, in order. *)
Definition plcrash_async_objc_parse (image : plcrash_async_macho_t)
    (cache : option plcrash_async_objc_cache_t) (ctx : Ctx)
    : list parser_kind
      * outcome (plcrash_error_t * option plcrash_async_objc_cache_t * Ctx) :=
  match cache with
  | None => ([], Returned (PLCRASH_EACCESS, None, ctx))
  | Some c =>
      let '(entered, err, ctx) :=
        if negb (gotObjC2Info c) then
          let '(err, ctx) := pl_async_objc_parse_from_module_info image ctx in
          ([ObjC1], err, ctx)
        else ([], PLCRASH_ENOTFOUND, ctx) in
      match err with
      | PLCRASH_ENOTFOUND =>
          (entered ++ [ObjC2],
           match pl_async_objc_parse_from_data_section image c ctx with
           | Returned (PLCRASH_ESUCCESS, c, ctx) =>
               Returned (PLCRASH_ESUCCESS, Some (set_gotObjC2Info c true), ctx)
           | Returned (err, c, ctx) => Returned (err, Some c, ctx)
           | NullDeref => NullDeref
           | OutOfBounds => OutOfBounds
           end)
      | _ => (entered, Returned (err, Some c, ctx))
      end
  end.

End Callback.

Record pl_async_objc_find_method_search_context : Type := {
  searchIMP : N;
  bestIMP : N
}.

Definition pl_async_objc_find_method_search_callback
    : plcrash_async_objc_found_method_cb pl_async_objc_find_method_search_context :=
  fun isClassMethod className methodName imp ctxStruct =>
    if (bestIMP ctxStruct <=? imp) && (imp <=? searchIMP ctxStruct)
    then {| searchIMP := searchIMP ctxStruct; bestIMP := imp |}
    else ctxStruct.

Record pl_async_objc_find_method_call_context (U : Type) : Type := {
  call_searchIMP : N;
  outerCallback : option (plcrash_async_objc_found_method_cb U);
  outerCallbackCtx : U
}.

Arguments call_searchIMP {U} _.
Arguments outerCallback {U} _.
Arguments outerCallbackCtx {U} _.

Definition pl_async_objc_find_method_call_callback {U : Type}
    : plcrash_async_objc_found_method_cb (pl_async_objc_find_method_call_context U) :=
  fun isClassMethod className methodName imp ctxStruct =>
    match outerCallback ctxStruct with
    | Some outer =>
        if imp =? call_searchIMP ctxStruct then
          {| call_searchIMP := call_searchIMP ctxStruct;
             outerCallback := None;
             outerCallbackCtx :=
               outer isClassMethod className methodName imp
                 (outerCallbackCtx ctxStruct) |}
        else ctxStruct
    | None => ctxStruct
    end.

(** [plcrash_async_objc_find_method]; [callback] may be [NULL] ([None]),
    [ctx] is the state behind the user's context pointer. *)
Definition plcrash_async_objc_find_method {U : Type}
    (image : plcrash_async_macho_t)
    (objcContext : option plcrash_async_objc_cache_t) (imp : N)
    (callback : option (plcrash_async_objc_found_method_cb U)) (ctx : U)
    : outcome (plcrash_error_t * option plcrash_async_objc_cache_t * U) :=
  let searchCtx := {| searchIMP := imp; bestIMP := 0 |} in
  match snd (plcrash_async_objc_parse
               pl_async_objc_find_method_search_callback
               image objcContext searchCtx) with
  | Returned (PLCRASH_ESUCCESS, objcContext, searchCtx) =>
      if bestIMP searchCtx =? 0 then
        Returned (PLCRASH_ENOTFOUND, objcContext, ctx)
      else
        let callCtx :=
          {| call_searchIMP := bestIMP searchCtx;
             outerCallback := callback;
             outerCallbackCtx := ctx |} in
        match snd (plcrash_async_objc_parse
                     pl_async_objc_find_method_call_callback
                     image objcContext callCtx) with
        | Returned (err, objcContext, callCtx) =>
            Returned (err, objcContext, outerCallbackCtx callCtx)
        | NullDeref => NullDeref
        | OutOfBounds => OutOfBounds
        end
  | Returned (err, objcContext, _) => Returned (err, objcContext, ctx)
  | NullDeref => NullDeref
  | OutOfBounds => OutOfBounds
  end.

End Host.

Arguments call_searchIMP {U} _.
Arguments outerCallback {U} _.
Arguments outerCallbackCtx {U} _.

(** The callback that only records its invocations, in order. *)
Definition record_method : plcrash_async_objc_found_method_cb (list found_method) :=
  fun isClassMethod className methodName imp seen =>
    seen ++ [ {| isClassMethod := isClassMethod; className := className;
                 methodName := methodName; imp := imp |} ].

(** Applying a callback to a recorded invocation. *)
Definition apply_callback {Ctx : Type}
    (callback : plcrash_async_objc_found_method_cb Ctx)
    (ctx : Ctx) (m : found_method) : Ctx :=
  callback (isClassMethod m) (className m) (methodName m) (imp m) ctx.

End ObjC.

Import ObjC.

(** *** Notions used to state the properties of the parser *)

(** Two runs of the parser under two callbacks agree: same fault, or same
    code and cache with related callback states. *)
Definition outcome_rel {C Ctx1 Ctx2 : Type} (R : Ctx1 -> Ctx2 -> Prop)
    (o1 : outcome (plcrash_error_t * C * Ctx1))
    (o2 : outcome (plcrash_error_t * C * Ctx2)) : Prop :=
  match o1, o2 with
  | Returned (e1, c1, x1), Returned (e2, c2, x2) => e1 = e2 /\ c1 = c2 /\ R x1 x2
  | NullDeref, NullDeref => True
  | OutOfBounds, OutOfBounds => True
  | _, _ => False
  end.

(** The same for a run that returns a code and a callback state only. *)
Definition loop_rel {Ctx1 Ctx2 : Type} (R : Ctx1 -> Ctx2 -> Prop)
    (o1 : outcome (plcrash_error_t * Ctx1))
    (o2 : outcome (plcrash_error_t * Ctx2)) : Prop :=
  match o1, o2 with
  | Returned (e1, x1), Returned (e2, x2) => e1 = e2 /\ R x1 x2
  | NullDeref, NullDeref => True
  | OutOfBounds, OutOfBounds => True
  | _, _ => False
  end.

(** The greatest IMP not above [ip] among the methods [ms], 0 if none. *)
Definition best_match (ip : N) (ms : list found_method) : N :=
  fold_right N.max 0 (List.filter (fun a => a <=? ip) (List.map imp ms)).

(** The first method of [ms] whose IMP is [target]. *)
Definition first_match (target : N) (ms : list found_method) : option found_method :=
  List.find (fun m => imp m =? target) ms.

(** A call of [plcrash_async_objc_parse] to be made: the image, and the
    callback with the state behind its context pointer. *)
Record parse_request : Type := {
  req_image : plcrash_async_macho_t;
  req_Ctx : Type;
  req_callback : plcrash_async_objc_found_method_cb req_Ctx;
  req_ctx : req_Ctx
}.

(** A call of [plcrash_async_objc_parse] as made in a capture: the flag it
    found, the parsers it entered, and the code and cache it returned. *)
Record parse_call : Type := {
  call_image : plcrash_async_macho_t;
  got_before : bool;                       (* gotObjC2Info on entry *)
  call_entered : list parser_kind;
  call_returned : outcome (plcrash_error_t * option plcrash_async_objc_cache_t)
}.

Definition entered_objc1 (entered : list parser_kind) : bool :=
  existsb (fun k => match k with ObjC1 => true | ObjC2 => false end) entered.

Definition entered_objc2 (entered : list parser_kind) : bool :=
  existsb (fun k => match k with ObjC2 => true | ObjC1 => false end) entered.

(** The call entered the ObjC2 parser and came back with success. *)
Definition objc2_succeeded (call : parse_call) : bool :=
  match call_returned call with
  | Returned (PLCRASH_ESUCCESS, _) => entered_objc2 (call_entered call)
  | _ => false
  end.

Definition forget_ctx {Ctx : Type}
    (o : outcome (plcrash_error_t * option plcrash_async_objc_cache_t * Ctx))
    : outcome (plcrash_error_t * option plcrash_async_objc_cache_t) :=
  match o with
  | Returned (err, cache, _) => Returned (err, cache)
  | NullDeref => NullDeref
  | OutOfBounds => OutOfBounds
  end.

(** Successive calls of [plcrash_async_objc_parse] on one cache, each
    starting from the cache the previous one left; a fault ends the
    capture. *)
Fixpoint parse_calls (vm_allocate : N -> bool) (requests : list parse_request)
    (cache : plcrash_async_objc_cache_t) : list parse_call :=
  match requests with
  | [] => []
  | request :: rest =>
      let '(entered, returned) :=
        plcrash_async_objc_parse vm_allocate (req_callback request)
          (req_image request) (Some cache) (req_ctx request) in
      {| call_image := req_image request; got_before := gotObjC2Info cache;
         call_entered := entered; call_returned := forget_ctx returned |}
      :: match returned with
         | Returned (_, Some cache, _) => parse_calls vm_allocate rest cache
         | _ => []
         end
  end.

(** *** Notions used to state further properties of the cache and parser *)

(** A run of [cache_set] calls, in order. *)
Definition cache_set_all (vm_allocate : N -> bool) (pairs : list (N * N))
    (c : plcrash_async_objc_cache_t) : plcrash_async_objc_cache_t :=
  fold_left (fun c kv => cache_set vm_allocate c (fst kv) (snd kv)) pairs c.

(** No key is found in the cache. *)
Definition cache_empty (c : plcrash_async_objc_cache_t) : Prop :=
  forall key, cache_lookup c key = 0.

(** The two caches agree on everything [map_sections] maintains. *)
Definition same_sections (a b : plcrash_async_objc_cache_t) : Prop :=
  lastImage a = lastImage b
  /\ objcConstMobj a = objcConstMobj b
  /\ objcConstMobjInitialized a = objcConstMobjInitialized b
  /\ classMobj a = classMobj b
  /\ classMobjInitialized a = classMobjInitialized b
  /\ objcDataMobj a = objcDataMobj b
  /\ objcDataMobjInitialized a = objcDataMobjInitialized b.

(** The memory objects are in step with [lastImage]: while an image is
    recorded, its three sections are mapped. *)
Definition sections_mapped (c : plcrash_async_objc_cache_t) : Prop :=
  lastImage c <> None ->
  objcConstMobjInitialized c = true
  /\ classMobjInitialized c = true
  /\ objcDataMobjInitialized c = true.

(** What the cache-miss path of [pl_async_objc_parse_objc2_class] makes of
    the [data_rw] at [dataPtr], leaving the cache aside: the code of the
    [goto cleanup], or the class_ro contents it goes on with. *)
Definition resolve_uncached (image : plcrash_async_macho_t)
    (objcConstMobj : plcrash_async_mobject_t) (dataPtr : N)
    : plcrash_error_t + pl_objc2_class_data_ro :=
  match plcrash_async_read_addr image dataPtr (sizeof_class_data_rw image) with
  | PLCRASH_ESUCCESS =>
      let rw := data_rw_at image dataPtr in
      let ro_addr := swap_pointer image (rw_data_ro rw) in
      if negb (N.testbit (rw_flags rw) 31) then inl PLCRASH_ESUCCESS
      else if N.testbit (rw_flags rw) 27 then
        match plcrash_async_read_addr image ro_addr (sizeof_class_data_ro image) with
        | PLCRASH_ESUCCESS => inr (data_ro_at image ro_addr)
        | _ => inl PLCRASH_ESUCCESS
        end
      else if plcrash_async_mobject_remap_address objcConstMobj ro_addr 0
                (sizeof_class_data_ro image)
      then inr (data_ro_at image ro_addr)
      else inl PLCRASH_ESUCCESS
  | err => inl err
  end.

(** A cached pair is one the cache-miss path would produce again: [value] is
    0 (nothing cached) or the [data_ro] address of a readable, realized
    [data_rw] at [key] whose class_ro can be copied or remapped as its
    flags ask. *)
Definition entry_ok (image : plcrash_async_macho_t)
    (objcConstMobj : plcrash_async_mobject_t) (key value : N) : Prop :=
  value = 0
  \/ (plcrash_async_read_addr image key (sizeof_class_data_rw image)
      = PLCRASH_ESUCCESS
      /\ N.testbit (rw_flags (data_rw_at image key)) 31 = true
      /\ value = swap_pointer image (rw_data_ro (data_rw_at image key))
      /\ (if N.testbit (rw_flags (data_rw_at image key)) 27
          then plcrash_async_read_addr image value (sizeof_class_data_ro image)
               = PLCRASH_ESUCCESS
          else plcrash_async_mobject_remap_address objcConstMobj value 0
                 (sizeof_class_data_ro image) = true)).

Definition entries_valid (image : plcrash_async_macho_t)
    (c : plcrash_async_objc_cache_t) : Prop :=
  forall key, entry_ok image (objcConstMobj c) key (cache_lookup c key).

(** [pl_async_objc_parse_objc2_class] from the class name on, as a function
    of the class_ro contents and the [__objc_const] memory object alone. *)
Definition objc2_methods_of {Ctx : Type}
    (callback : plcrash_async_objc_found_method_cb Ctx)
    (image : plcrash_async_macho_t) (objcConstMobj : plcrash_async_mobject_t)
    (ro : pl_objc2_class_data_ro) (isMetaClass : bool) (ctx : Ctx)
    : outcome (plcrash_error_t * Ctx) :=
  let classNamePtr := swap_pointer image (ro_name ro) in
  match plcrash_async_macho_string_init image classNamePtr with
  | PLCRASH_ESUCCESS =>
      let methodsPtr := swap_pointer image (ro_baseMethods ro) in
      if methodsPtr =? 0 then Returned (PLCRASH_ESUCCESS, ctx)
      else if negb (plcrash_async_mobject_remap_address objcConstMobj
                      methodsPtr 0 sizeof_list_header)
      then Returned (PLCRASH_ESUCCESS, ctx)
      else
        let header := list_header_at image methodsPtr in
        let entsize := N.ldiff (swap32 image (header_entsize header)) 3 in
        let count := swap32 image (header_count header) in
        let methodListStart := vm_add methodsPtr sizeof_list_header in
        let methodListLength := entsize * count in
        if negb (plcrash_async_mobject_remap_address objcConstMobj
                   methodListStart 0 methodListLength)
        then Returned (PLCRASH_ESUCCESS, ctx)
        else
          objc2_method_loop callback image objcConstMobj isMetaClass
            classNamePtr entsize (N.to_nat count) methodListStart
            PLCRASH_ESUCCESS ctx
  | err => Returned (err, ctx)
  end.

(** One class as [pl_async_objc_parse_objc2_class] treats it when the cache
    is left aside: the code returned and the callback state. *)
Definition objc2_class_uncached {Ctx : Type}
    (callback : plcrash_async_objc_found_method_cb Ctx)
    (image : plcrash_async_macho_t) (objcConstMobj : plcrash_async_mobject_t)
    (class : pl_objc2_class) (isMetaClass : bool) (ctx : Ctx)
    : outcome (plcrash_error_t * Ctx) :=
  match resolve_uncached image objcConstMobj
          (N.ldiff (swap_pointer image (class_data_rw class)) 3) with
  | inl err => Returned (err, ctx)
  | inr ro => objc2_methods_of callback image objcConstMobj ro isMetaClass ctx
  end.

(** The class loop of [pl_async_objc_parse_from_data_section] with the cache
    left aside, over the three mapped sections. *)
Fixpoint objc2_class_loop_uncached {Ctx : Type}
    (callback : plcrash_async_objc_found_method_cb Ctx)
    (image : plcrash_async_macho_t)
    (classMobj objcDataMobj objcConstMobj : plcrash_async_mobject_t)
    (todo : nat) (i : N) (err : plcrash_error_t) (ctx : Ctx)
    : outcome (plcrash_error_t * Ctx) :=
  match todo with
  | O => Returned (err, ctx)
  | S todo' =>
      let ptr :=
        swap_pointer image
          (pointer_at image
             (task_address classMobj + i * sizeof_class_pointer image)) in
      if negb (plcrash_async_mobject_remap_address objcDataMobj ptr 0
                 (sizeof_class image))
      then Returned (err, ctx)
      else
        let class := class_at image ptr in
        match objc2_class_uncached callback image objcConstMobj class false ctx with
        | Returned (PLCRASH_ESUCCESS, ctx) =>
            let isa := swap_pointer image (class_isa class) in
            if negb (plcrash_async_mobject_remap_address objcDataMobj isa 0
                       (sizeof_class image))
            then Returned (PLCRASH_ESUCCESS, ctx)
            else
              match objc2_class_uncached callback image objcConstMobj
                      (class_at image isa) true ctx with
              | Returned (PLCRASH_ESUCCESS, ctx) =>
                  objc2_class_loop_uncached callback image classMobj
                    objcDataMobj objcConstMobj todo' (i + 1)
                    PLCRASH_ESUCCESS ctx
              | stopped => stopped
              end
        | stopped => stopped
        end
  end.

(** [pl_async_objc_parse_from_data_section] with the cache left aside, given
    what [map_sections] returned. *)
Definition data_section_uncached {Ctx : Type}
    (callback : plcrash_async_objc_found_method_cb Ctx)
    (image : plcrash_async_macho_t)
    (mapped : plcrash_error_t * plcrash_async_objc_cache_t) (ctx : Ctx)
    : outcome (plcrash_error_t * Ctx) :=
  match mapped with
  | (PLCRASH_ESUCCESS, sections) =>
      if negb (plcrash_async_mobject_remap_address (classMobj sections)
                 (task_address (classMobj sections)) 0
                 (mobject_length (classMobj sections)))
      then Returned (PLCRASH_ESUCCESS, ctx)
      else
        objc2_class_loop_uncached callback image (classMobj sections)
          (objcDataMobj sections) (objcConstMobj sections)
          (N.to_nat ((mobject_length (classMobj sections)
                      / sizeof_class_pointer image) mod 2 ^ 32))
          0 PLCRASH_ESUCCESS ctx
  | (err, _) => Returned (err, ctx)
  end.

(** The outcome of a run that leaves the cache aside, with the cache [c]
    put beside what it returns. *)
Definition with_cache {Ctx : Type} (c : plcrash_async_objc_cache_t)
    (o : outcome (plcrash_error_t * Ctx))
    : outcome (plcrash_error_t * plcrash_async_objc_cache_t * Ctx) :=
  match o with
  | Returned (err, ctx) => Returned (err, c, ctx)
  | NullDeref => NullDeref
  | OutOfBounds => OutOfBounds
  end.

(** Two runs end the same way, their caches apart: both return, with the
    same code and the same callback state, or both read a method structure
    outside [__objc_const]; neither dereferences [NULL]. *)
Definition same_result {Ctx : Type}
    (o1 o2 : outcome (plcrash_error_t * plcrash_async_objc_cache_t * Ctx))
    : Prop :=
  match o1, o2 with
  | Returned (e1, _, x1), Returned (e2, _, x2) => e1 = e2 /\ x1 = x2
  | OutOfBounds, OutOfBounds => True
  | _, _ => False
  end.

(** The cache fits the image: its arrays have one of their two shapes, and
    once the image's sections are mapped every pair a lookup finds is one the
    cache-miss path would produce for this image. *)
Definition cache_fits (image : plcrash_async_macho_t)
    (c : plcrash_async_objc_cache_t) : Prop :=
  class_cache_wf c /\ entries_valid image (snd (map_sections image c)).

(** ** Part III: the ObjC1 walk of PLCrashAsyncObjCSection.c, loop by loop *)

Module ModuleInfo.

Definition kObjCSegmentName : string := "__OBJC".
Definition kObjCModuleInfoSectionName : string := "__module_info".

Definition CLS_NO_METHOD_ARRAY : N := 0x4000.

(** [static uint32_t END_OF_METHODS_LIST = -1] *)
Definition END_OF_METHODS_LIST : N := 0xFFFFFFFF.

Record pl_objc1_module : Type := {
  module_version : N; module_size : N; module_name : N; module_symtab : N
}.

Record pl_objc1_symtab : Type := {
  symtab_sel_ref_cnt : N; symtab_refs : N; symtab_cls_def_count : N;
  symtab_cat_def_count : N
}.

Record pl_objc1_class : Type := {
  cls_isa : N; cls_super : N; cls_name : N; cls_version : N; cls_info : N;
  cls_instance_size : N; cls_ivars : N; cls_methods : N; cls_cache : N;
  cls_protocols : N
}.

Record pl_objc1_method_list : Type := {
  list_obsolete : N; list_count : N
}.

Record pl_objc1_method : Type := {
  method1_name : N; method1_types : N; method1_imp : N
}.

Definition sizeof_module : N := 16.
Definition sizeof_symtab : N := 12.
Definition sizeof_class1 : N := 40.
Definition sizeof_method_list : N := 8.
Definition sizeof_method1 : N := 12.
Definition sizeof_uint32 : N := 4.

(** Modelled from the spec: what the readers of PLCrashAsync.c (absent) put
    in the buffer of a [plcrash_async_read_addr] that succeeds, and what the
    mapped [__module_info] section holds: the typed views of the task's
    bytes at an address, raw (before the byte-order swap).  [swap16] is
    [image->byteorder->swap16], which the record of the image above does
    not carry. *)
Record objc1_memory : Type := {
  swap16 : N -> N;
  module_at : N -> pl_objc1_module;
  symtab_at : N -> pl_objc1_symtab;
  uint32_at : N -> N;
  class1_at : N -> pl_objc1_class;
  method_list_at : N -> pl_objc1_method_list;
  method1_at : N -> pl_objc1_method
}.

Section Callback.

Context {Ctx : Type}.
Variable callback : plcrash_async_objc_found_method_cb Ctx.

(** The [for (uint32_t i = 0; i < count; i++)] over one method list, with
    [todo] iterations left.  [size_t] is taken as 64 bits wide, like
    [pl_vm_address_t], so that [i * sizeof(method)] does not wrap. *)
Fixpoint obj1_method_loop (image : plcrash_async_macho_t)
    (memory : objc1_memory) (isMetaClass : bool) (namePtr : N)
    (thisListPtr : N) (todo : nat) (i : N) (err : plcrash_error_t)
    (ctx : Ctx) : plcrash_error_t * Ctx :=
  match todo with
  | O => (err, ctx)
  | S todo' =>
      let methodPtr :=
        vm_add thisListPtr (sizeof_method_list + i * sizeof_method1) in
      match plcrash_async_read_addr image methodPtr sizeof_method1 with
      | PLCRASH_ESUCCESS =>
          let method := method1_at memory methodPtr in
          let methodNamePtr := swap32 image (method1_name method) in
          match plcrash_async_macho_string_init image methodNamePtr with
          | PLCRASH_ESUCCESS =>
              let imp := swap32 image (method1_imp method) in
              let ctx := callback isMetaClass namePtr methodNamePtr imp ctx in
              obj1_method_loop image memory isMetaClass namePtr thisListPtr
                todo' (i + 1) PLCRASH_ESUCCESS ctx
          | err => (err, ctx)
          end
      | err => (err, ctx)
      end
  end.

(** The body of the [while (true)] from the read of the method_list
    structure at [thisListPtr] on. *)
Definition obj1_method_list (image : plcrash_async_macho_t)
    (memory : objc1_memory) (isMetaClass : bool) (namePtr : N)
    (thisListPtr : N) (ctx : Ctx) : plcrash_error_t * Ctx :=
  match plcrash_async_read_addr image thisListPtr sizeof_method_list with
  | PLCRASH_ESUCCESS =>
      let count :=
        swap32 image (list_count (method_list_at memory thisListPtr)) in
      obj1_method_loop image memory isMetaClass namePtr thisListPtr
        (N.to_nat count) 0 PLCRASH_ESUCCESS ctx
  | err => (err, ctx)
  end.

(** The [while (true)] when [hasMultipleMethodLists] holds.  Nothing in the
    source bounds the number of turns, so the model counts them down from
    [fuel]; [None] is a walk that has not ended within [fuel] turns. *)
Fixpoint obj1_method_lists (fuel : nat) (image : plcrash_async_macho_t)
    (memory : objc1_memory) (isMetaClass : bool) (namePtr : N)
    (methodListCursor : N) (ctx : Ctx) : option (plcrash_error_t * Ctx) :=
  match fuel with
  | O => None
  | S fuel' =>
      match plcrash_async_read_addr image methodListCursor sizeof_uint32 with
      | PLCRASH_ESUCCESS =>
          let thisListPtr := swap32 image (uint32_at memory methodListCursor) in
          if (thisListPtr =? 0) || (thisListPtr =? END_OF_METHODS_LIST)
          then Some (PLCRASH_ESUCCESS, ctx)
          else
            let methodListCursor := vm_add methodListCursor sizeof_uint32 in
            match obj1_method_list image memory isMetaClass namePtr
                    thisListPtr ctx with
            | (PLCRASH_ESUCCESS, ctx) =>
                obj1_method_lists fuel' image memory isMetaClass namePtr
                  methodListCursor ctx
            | stopped => Some stopped
            end
      | err => Some (err, ctx)
      end
  end.

Definition pl_async_parse_obj1_class (fuel : nat)
    (image : plcrash_async_macho_t) (memory : objc1_memory)
    (class : pl_objc1_class) (isMetaClass : bool) (ctx : Ctx)
    : option (plcrash_error_t * Ctx) :=
  let namePtr := swap32 image (cls_name class) in
  match plcrash_async_macho_string_init image namePtr with
  | PLCRASH_ESUCCESS =>
      let methodListPtr := swap32 image (cls_methods class) in
      let hasMultipleMethodLists :=
        N.land (swap32 image (cls_info class)) CLS_NO_METHOD_ARRAY =? 0 in
      if hasMultipleMethodLists then
        obj1_method_lists fuel image memory isMetaClass namePtr
          methodListPtr ctx
      else if methodListPtr =? 0 then Some (PLCRASH_ESUCCESS, ctx)
      else
        Some (obj1_method_list image memory isMetaClass namePtr
                methodListPtr ctx)
  | err => Some (err, ctx)
  end.

(** The [for (unsigned i = 0; i < classCount; i++)] over the classes of one
    symtab, with [todo] iterations left. *)
Fixpoint obj1_class_loop (fuel : nat) (image : plcrash_async_macho_t)
    (memory : objc1_memory) (symtabPtr : N) (todo : nat) (i : N)
    (err : plcrash_error_t) (ctx : Ctx) : option (plcrash_error_t * Ctx) :=
  match todo with
  | O => Some (err, ctx)
  | S todo' =>
      let cursor := vm_add symtabPtr (sizeof_symtab + i * sizeof_uint32) in
      match plcrash_async_read_addr image cursor sizeof_uint32 with
      | PLCRASH_ESUCCESS =>
          let classPtr := swap32 image (uint32_at memory cursor) in
          match plcrash_async_read_addr image classPtr sizeof_class1 with
          | PLCRASH_ESUCCESS =>
              let class := class1_at memory classPtr in
              match pl_async_parse_obj1_class fuel image memory class false
                      ctx with
              | Some (PLCRASH_ESUCCESS, ctx) =>
                  let isa := swap32 image (cls_isa class) in
                  match plcrash_async_read_addr image isa sizeof_class1 with
                  | PLCRASH_ESUCCESS =>
                      let metaclass := class1_at memory isa in
                      match pl_async_parse_obj1_class fuel image memory
                              metaclass true ctx with
                      | Some (PLCRASH_ESUCCESS, ctx) =>
                          obj1_class_loop fuel image memory symtabPtr todo'
                            (i + 1) PLCRASH_ESUCCESS ctx
                      | stopped => stopped
                      end
                  | err => Some (err, ctx)
                  end
              | stopped => stopped
              end
          | err => Some (err, ctx)
          end
      | err => Some (err, ctx)
      end
  end.

(** The [for] over the module structures of the section, up to
    [moduleMobj.length / sizeof(struct pl_objc1_module)].  The index is an [unsigned] and
    wraps at 32 bits while the bound is a [size_t], so the turns are counted
    down from [fuel] as well; the method-list walks of a turn get the fuel
    that is left. *)
Fixpoint obj1_module_loop (fuel : nat) (image : plcrash_async_macho_t)
    (memory : objc1_memory) (moduleMobj : plcrash_async_mobject_t)
    (moduleIndex : N) (err : plcrash_error_t) (ctx : Ctx)
    : option (plcrash_error_t * Ctx) :=
  match fuel with
  | O => None
  | S fuel' =>
      if moduleIndex <? mobject_length moduleMobj / sizeof_module then
        let next := (moduleIndex + 1) mod 2 ^ 32 in
        let symtabPtr :=
          swap32 image
            (module_symtab
               (module_at memory
                  (task_address moduleMobj + moduleIndex * sizeof_module))) in
        if symtabPtr =? 0 then
          obj1_module_loop fuel' image memory moduleMobj next err ctx
        else
          match plcrash_async_read_addr image symtabPtr sizeof_symtab with
          | PLCRASH_ESUCCESS =>
              let classCount :=
                swap16 memory
                  (symtab_cls_def_count (symtab_at memory symtabPtr))
                mod 2 ^ 16 in
              match obj1_class_loop fuel' image memory symtabPtr
                      (N.to_nat classCount) 0 PLCRASH_ESUCCESS ctx with
              | Some (PLCRASH_ESUCCESS, ctx) =>
                  obj1_module_loop fuel' image memory moduleMobj next
                    PLCRASH_ESUCCESS ctx
              | stopped => stopped
              end
          | err => Some (err, ctx)
          end
      else Some (err, ctx)
  end.

Definition pl_async_objc_parse_from_module_info (fuel : nat)
    (image : plcrash_async_macho_t) (memory : objc1_memory) (ctx : Ctx)
    : option (plcrash_error_t * Ctx) :=
  match plcrash_async_macho_map_section image
          kObjCSegmentName kObjCModuleInfoSectionName with
  | (PLCRASH_ESUCCESS, moduleMobj) =>
      if negb (plcrash_async_mobject_remap_address moduleMobj
                 (task_address moduleMobj) 0 sizeof_module)
      then Some (PLCRASH_ENOTFOUND, ctx)
      else
        obj1_module_loop fuel image memory moduleMobj 0 PLCRASH_ESUCCESS ctx
  | (err, _) => Some (err, ctx)
  end.

End Callback.

End ModuleInfo.

(** *** Notions used to state the properties of the ObjC1 walk *)

(** Two walks of one image under two callbacks agree: both have not ended
    within the fuel, or both return the same code with related callback
    states. *)
Definition walk_rel {Ctx1 Ctx2 : Type} (R : Ctx1 -> Ctx2 -> Prop)
    (o1 : option (plcrash_error_t * Ctx1))
    (o2 : option (plcrash_error_t * Ctx2)) : Prop :=
  match o1, o2 with
  | Some (e1, x1), Some (e2, x2) => e1 = e2 /\ R x1 x2
  | None, None => True
  | _, _ => False
  end.

(** The number of method structures the method_list at [thisListPtr]
    declares. *)
Definition obj1_list_count (image : plcrash_async_macho_t)
    (memory : ModuleInfo.objc1_memory) (thisListPtr : N) : nat :=
  N.to_nat
    (swap32 image
       (ModuleInfo.list_count (ModuleInfo.method_list_at memory thisListPtr))).

(** The address of the [i]-th method structure of that list. *)
Definition obj1_method_address (thisListPtr : N) (i : nat) : N :=
  vm_add thisListPtr
    (ModuleInfo.sizeof_method_list + N.of_nat i * ModuleInfo.sizeof_method1).

(** The [i]-th method structure of the list, as a callback invocation for a
    class named at [namePtr]. *)
Definition obj1_method_entry (image : plcrash_async_macho_t)
    (memory : ModuleInfo.objc1_memory) (isMetaClass : bool) (namePtr : N)
    (thisListPtr : N) (i : nat) : found_method :=
  let method := ModuleInfo.method1_at memory (obj1_method_address thisListPtr i) in
  {| isClassMethod := isMetaClass; className := namePtr;
     methodName := swap32 image (ModuleInfo.method1_name method);
     imp := swap32 image (ModuleInfo.method1_imp method) |}.

(** The methods the list at [thisListPtr] declares, in order. *)
Definition obj1_list_methods (image : plcrash_async_macho_t)
    (memory : ModuleInfo.objc1_memory) (isMetaClass : bool) (namePtr : N)
    (thisListPtr : N) : list found_method :=
  List.map (obj1_method_entry image memory isMetaClass namePtr thisListPtr)
    (seq 0 (obj1_list_count image memory thisListPtr)).

(** The method_list structure at [thisListPtr], each method structure it
    declares and each of their names can be read. *)
Definition obj1_list_readable (image : plcrash_async_macho_t)
    (memory : ModuleInfo.objc1_memory) (thisListPtr : N) : bool :=
  is_success
    (plcrash_async_read_addr image thisListPtr ModuleInfo.sizeof_method_list)
  && forallb
       (fun i =>
          let methodPtr := obj1_method_address thisListPtr i in
          is_success
            (plcrash_async_read_addr image methodPtr ModuleInfo.sizeof_method1)
          && is_success
               (plcrash_async_macho_string_init image
                  (swap32 image
                     (ModuleInfo.method1_name
                        (ModuleInfo.method1_at memory methodPtr)))))
       (seq 0 (obj1_list_count image memory thisListPtr)).

(** A list pointer that ends an array of list pointers. *)
Definition obj1_end_of_lists (thisListPtr : N) : bool :=
  (thisListPtr =? 0) || (thisListPtr =? ModuleInfo.END_OF_METHODS_LIST).

(** The first [k] list pointers of the array at [cursor]. *)
Fixpoint obj1_array_entries (image : plcrash_async_macho_t)
    (memory : ModuleInfo.objc1_memory) (cursor : N) (k : nat) : list N :=
  match k with
  | O => []
  | S k' =>
      swap32 image (ModuleInfo.uint32_at memory cursor)
      :: obj1_array_entries image memory
           (vm_add cursor ModuleInfo.sizeof_uint32) k'
  end.

(** The array at [cursor] can be read up to its entry [k], which ends it,
    and the [k] entries before point to lists that can be read. *)
Fixpoint obj1_array_terminated (image : plcrash_async_macho_t)
    (memory : ModuleInfo.objc1_memory) (cursor : N) (k : nat) : bool :=
  let thisListPtr := swap32 image (ModuleInfo.uint32_at memory cursor) in
  is_success (plcrash_async_read_addr image cursor ModuleInfo.sizeof_uint32)
  && match k with
     | O => obj1_end_of_lists thisListPtr
     | S k' =>
         negb (obj1_end_of_lists thisListPtr)
         && obj1_list_readable image memory thisListPtr
         && obj1_array_terminated image memory
              (vm_add cursor ModuleInfo.sizeof_uint32) k'
     end.

(** The number of module structures in the mapped section. *)
Definition obj1_module_count (moduleMobj : plcrash_async_mobject_t) : N :=
  mobject_length moduleMobj / ModuleInfo.sizeof_module.

(** The symtab pointer of the module structure [moduleIndex]. *)
Definition obj1_module_symtab (image : plcrash_async_macho_t)
    (memory : ModuleInfo.objc1_memory) (moduleMobj : plcrash_async_mobject_t)
    (moduleIndex : N) : N :=
  swap32 image
    (ModuleInfo.module_symtab
       (ModuleInfo.module_at memory
          (task_address moduleMobj + moduleIndex * ModuleInfo.sizeof_module))).

(** *** A concrete ObjC1 image *)

Definition method_M1 : found_method :=
  {| isClassMethod := false; className := 0x7400; methodName := 0x7410;
     imp := 0x20000 |}.
Definition method_M2 : found_method :=
  {| isClassMethod := false; className := 0x7400; methodName := 0x7420;
     imp := 0x20040 |}.
Definition method_M3 : found_method :=
  {| isClassMethod := false; className := 0x7400; methodName := 0x7430;
     imp := 0x20080 |}.
Definition method_M4 : found_method :=
  {| isClassMethod := true; className := 0x7400; methodName := 0x7440;
     imp := 0x200C0 |}.

(** A 32-bit, host-order image whose only section is a [__module_info] of
    [length] bytes at 0x7000, every address readable, with the summary of
    the walk given by [walk]. *)
Definition sample_objc1_image (length : N)
    (walk : list found_method * plcrash_error_t) : plcrash_async_macho_t :=
  {| macho_self := 0x200;
     m64 := false;
     swap32 := fun v => v;
     swap64 := fun v => v;
     plcrash_async_read_addr := fun _ _ => PLCRASH_ESUCCESS;
     plcrash_async_macho_string_init := fun _ => PLCRASH_ESUCCESS;
     plcrash_async_macho_map_section := fun seg sect =>
       if String.eqb seg ModuleInfo.kObjCSegmentName
          && String.eqb sect ModuleInfo.kObjCModuleInfoSectionName
       then (PLCRASH_ESUCCESS, {| task_address := 0x7000; mobject_length := length |})
       else (PLCRASH_ENOTFOUND, {| task_address := 0; mobject_length := 0 |});
     pointer_at := fun _ => 0;
     class_at := fun _ =>
       {| class_isa := 0; class_superclass := 0; class_cache := 0;
          class_vtable := 0; class_data_rw := 0 |};
     data_rw_at := fun _ =>
       {| rw_flags := 0; rw_version := 0; rw_data_ro := 0 |};
     data_ro_at := fun _ =>
       {| ro_flags := 0; ro_instanceStart := 0; ro_instanceSize := 0;
          ro_ivarLayout := 0; ro_name := 0; ro_baseMethods := 0;
          ro_baseProtocols := 0; ro_ivars := 0; ro_weakIvarLayout := 0;
          ro_baseProperties := 0 |};
     list_header_at := fun _ => {| header_entsize := 0; header_count := 0 |};
     method_at := fun _ =>
       {| method_name := 0; method_types := 0; method_imp := 0 |};
     module_info_walk := walk |}.

(** The task's memory for that image.  Module 0 has no symtab; module 1 has
    its symtab at 0x7100 with one class, at 0x7200.  With [arrays] the class
    has an array of list pointers at 0x7500, to the lists at 0x7600 (two
    methods) and 0x7700 (one method), ended by [END_OF_METHODS_LIST];
    without, it has [CLS_NO_METHOD_ARRAY] set and the one list at 0x7600.
    Its metaclass, at 0x7300, has [CLS_NO_METHOD_ARRAY] set and one list of
    one method at 0x7800. *)
Definition sample_objc1_memory (arrays : bool) : ModuleInfo.objc1_memory :=
  {| ModuleInfo.swap16 := fun v => v;
     ModuleInfo.module_at := fun address =>
       {| ModuleInfo.module_version := 7; ModuleInfo.module_size := 16;
          ModuleInfo.module_name := 0;
          ModuleInfo.module_symtab :=
            if address =? 0x7010 then 0x7100 else 0 |};
     ModuleInfo.symtab_at := fun _ =>
       {| ModuleInfo.symtab_sel_ref_cnt := 0; ModuleInfo.symtab_refs := 0;
          ModuleInfo.symtab_cls_def_count := 1;
          ModuleInfo.symtab_cat_def_count := 0 |};
     ModuleInfo.uint32_at := fun address =>
       if address =? 0x710C then 0x7200
       else if address =? 0x7500 then 0x7600
       else if address =? 0x7504 then 0x7700
       else if address =? 0x7508 then 0xFFFFFFFF else 0;
     ModuleInfo.class1_at := fun address =>
       {| ModuleInfo.cls_isa := 0x7300; ModuleInfo.cls_super := 0;
          ModuleInfo.cls_name := 0x7400; ModuleInfo.cls_version := 0;
          ModuleInfo.cls_info :=
            if (address =? 0x7200) && arrays then 0x1 else 0x4001;
          ModuleInfo.cls_instance_size := 0; ModuleInfo.cls_ivars := 0;
          ModuleInfo.cls_methods :=
            if address =? 0x7200 then (if arrays then 0x7500 else 0x7600)
            else 0x7800;
          ModuleInfo.cls_cache := 0; ModuleInfo.cls_protocols := 0 |};
     ModuleInfo.method_list_at := fun address =>
       {| ModuleInfo.list_obsolete := 0;
          ModuleInfo.list_count := if address =? 0x7600 then 2 else 1 |};
     ModuleInfo.method1_at := fun address =>
       {| ModuleInfo.method1_name :=
            if address =? 0x7608 then 0x7410
            else if address =? 0x7614 then 0x7420
            else if address =? 0x7708 then 0x7430 else 0x7440;
          ModuleInfo.method1_types := 0;
          ModuleInfo.method1_imp :=
            if address =? 0x7608 then 0x20000
            else if address =? 0x7614 then 0x20040
            else if address =? 0x7708 then 0x20080 else 0x200C0 |} |}.

(** The class structure at 0x7200 of [sample_objc1_memory]. *)
Definition sample_objc1_class (arrays : bool) : ModuleInfo.pl_objc1_class :=
  ModuleInfo.class1_at (sample_objc1_memory arrays) 0x7200.

Import ARM.

(** One admissible numbering: the generic aliases first (pc, r7 as frame
    pointer, sp), then the remaining registers in declaration order. *)
Definition regnum_decl (r : plcrash_arm_regnum) : N :=
  match r with
  | PLCRASH_ARM_PC => 0 | PLCRASH_ARM_R7 => 1 | PLCRASH_ARM_SP => 2
  | PLCRASH_ARM_R0 => 3 | PLCRASH_ARM_R1 => 4 | PLCRASH_ARM_R2 => 5
  | PLCRASH_ARM_R3 => 6 | PLCRASH_ARM_R4 => 7 | PLCRASH_ARM_R5 => 8
  | PLCRASH_ARM_R6 => 9 | PLCRASH_ARM_R8 => 10 | PLCRASH_ARM_R9 => 11
  | PLCRASH_ARM_R10 => 12 | PLCRASH_ARM_R11 => 13 | PLCRASH_ARM_R12 => 14
  | PLCRASH_ARM_LR => 15 | PLCRASH_ARM_CPSR => 16
  end.

Definition last_reg_decl : N := 16.

Definition sample_arm_state : arm_thread_state_t :=
  {| thread_r := [100; 101; 102; 103; 104; 105; 106; 107; 108; 109; 110; 111; 112];
     thread_sp := 113; thread_lr := 114; thread_pc := 115; thread_cpsr := 116 |}.

(** Every register valid. *)
Definition sample_ts_all_valid : plcrash_async_thread_state_t :=
  {| arm_state := sample_arm_state; valid_regs := 0x1ffff |}.

(** No register valid. *)
Definition sample_ts_none_valid : plcrash_async_thread_state_t :=
  {| arm_state := sample_arm_state; valid_regs := 0 |}.

(** C1 as the specification words it, for one numbering and one thread
    state: every register of [spec_callee_saved] that was valid stays valid
    with its value, every other register ends up invalid. *)
Definition clear_volatiles_keeps_spec_set
    (regnum : plcrash_arm_regnum -> N) (last : N)
    (ts : plcrash_async_thread_state_t) : Prop :=
  let ts' := plcrash_async_thread_state_clear_volatile_regs regnum last ts in
  forall r,
    (In r spec_callee_saved ->
     plcrash_async_thread_state_has_reg ts (regnum r) = true ->
     plcrash_async_thread_state_has_reg ts' (regnum r) = true
     /\ plcrash_async_thread_state_get_reg regnum ts' (regnum r)
        = plcrash_async_thread_state_get_reg regnum ts (regnum r))
    /\ (~ In r spec_callee_saved ->
        plcrash_async_thread_state_has_reg ts' (regnum r) = false).

(** C2 as the specification words it: a read of a register whose validity
    bit is clear yields an error, not a value. *)
Definition invalid_read_is_error
    (regnum : plcrash_arm_regnum -> N)
    (ts : plcrash_async_thread_state_t) (r : plcrash_arm_regnum) : Prop :=
  plcrash_async_thread_state_has_reg ts (regnum r) = false ->
  forall v, plcrash_async_thread_state_get_reg regnum ts (regnum r) <> RegValue v.


(** *** Register names *)

(** The string each [case] of [plcrash_async_thread_state_get_reg_name]
    returns. *)
Definition arm_reg_name (r : plcrash_arm_regnum) : string :=
  match r with
  | PLCRASH_ARM_R0 => "r0" | PLCRASH_ARM_R1 => "r1" | PLCRASH_ARM_R2 => "r2"
  | PLCRASH_ARM_R3 => "r3" | PLCRASH_ARM_R4 => "r4" | PLCRASH_ARM_R5 => "r5"
  | PLCRASH_ARM_R6 => "r6" | PLCRASH_ARM_R7 => "r7" | PLCRASH_ARM_R8 => "r8"
  | PLCRASH_ARM_R9 => "r9" | PLCRASH_ARM_R10 => "r10"
  | PLCRASH_ARM_R11 => "r11" | PLCRASH_ARM_R12 => "r12"
  | PLCRASH_ARM_SP => "sp" | PLCRASH_ARM_LR => "lr" | PLCRASH_ARM_PC => "pc"
  | PLCRASH_ARM_CPSR => "cpsr"
  end.

(** [plcrash_async_thread_state_get_reg_name]: the same [switch] as the
    register read; [None] is the [abort()] after the [default:] label. *)
Definition plcrash_async_thread_state_get_reg_name
    (regnum : plcrash_arm_regnum -> N) (n : N) : option string :=
  match switch_case regnum n with
  | Some r => Some (arm_reg_name r)
  | None => None
  end.

(** The thread state's register array has the 13 entries of [__r]. *)
Definition arm_state_wf (ts : plcrash_async_thread_state_t) : Prop :=
  length (thread_r (arm_state ts)) = 13%nat.

(** *** Concrete images and caches *)

(** A 32-bit, host-order image with two classes in [__objc_classlist]:
    class A (at 0x2000) is realized with its class_ro inside [__objc_const]
    and two methods; class B (at 0x2100) is realized with [RW_COPIED_RO] set,
    its class_ro on the heap at 0x9000, and one method with IMP 0xDEADBEEF;
    the metaclass of A has no methods and the metaclass of B is not
    realized.  There is no [__module_info] section.  [unreadable] marks the
    addresses at which [plcrash_async_read_addr] fails; [classlist] is the
    range of the class list. *)
Definition sample_image (unreadable : N -> bool)
    (classlist : plcrash_async_mobject_t) : plcrash_async_macho_t :=
  {| macho_self := 0x100;
     m64 := false;
     swap32 := fun v => v;
     swap64 := fun v => v;
     plcrash_async_read_addr := fun address _ =>
       if unreadable address then PLCRASH_ENOTFOUND else PLCRASH_ESUCCESS;
     plcrash_async_macho_string_init := fun _ => PLCRASH_ESUCCESS;
     plcrash_async_macho_map_section := fun _ sect =>
       if String.eqb sect kObjCConstSectionName then
         (PLCRASH_ESUCCESS, {| task_address := 0x3000; mobject_length := 0x1000 |})
       else if String.eqb sect kClassListSectionName then
         (PLCRASH_ESUCCESS, classlist)
       else if String.eqb sect kObjCDataSectionName then
         (PLCRASH_ESUCCESS, {| task_address := 0x2000; mobject_length := 0x1000 |})
       else (PLCRASH_ENOTFOUND, {| task_address := 0; mobject_length := 0 |});
     pointer_at := fun address =>
       if address =? 0x1000 then 0x2000
       else if address =? 0x1004 then 0x2100 else 0;
     class_at := fun address =>
       {| class_isa :=
            if address =? 0x2000 then 0x2040
            else if address =? 0x2100 then 0x2140 else 0;
          class_superclass := 0; class_cache := 0; class_vtable := 0;
          class_data_rw :=
            if address =? 0x2000 then 0x5000
            else if address =? 0x2040 then 0x5040
            else if address =? 0x2100 then 0x5100
            else if address =? 0x2140 then 0x5140 else 0 |};
     data_rw_at := fun address =>
       {| rw_flags :=
            if address =? 0x5000 then 0x80000000
            else if address =? 0x5040 then 0x80000000
            else if address =? 0x5100 then 0x88000000 else 0;
          rw_version := 0;
          rw_data_ro :=
            if address =? 0x5000 then 0x3000
            else if address =? 0x5040 then 0x3040
            else if address =? 0x5100 then 0x9000 else 0 |};
     data_ro_at := fun address =>
       {| ro_flags := 0; ro_instanceStart := 0; ro_instanceSize := 0;
          ro_ivarLayout := 0;
          ro_name := if address =? 0x9000 then 0x6100 else 0x6000;
          ro_baseMethods :=
            if address =? 0x3000 then 0x3100
            else if address =? 0x9000 then 0x3200 else 0;
          ro_baseProtocols := 0; ro_ivars := 0; ro_weakIvarLayout := 0;
          ro_baseProperties := 0 |};
     list_header_at := fun address =>
       {| header_entsize := 12;
          header_count := if address =? 0x3100 then 2 else 1 |};
     method_at := fun address =>
       {| method_name :=
            if address =? 0x3108 then 0x6010
            else if address =? 0x3114 then 0x6020 else 0x6110;
          method_types := 0;
          method_imp :=
            if address =? 0x3108 then 0x10000
            else if address =? 0x3114 then 0x10040 else 0xDEADBEEF |};
     module_info_walk := ([], PLCRASH_ENOTFOUND) |}.

Definition classlist_both : plcrash_async_mobject_t :=
  {| task_address := 0x1000; mobject_length := 8 |}.

Definition all_readable : N -> bool := fun _ => false.

(** The kernel grants every allocation. *)
Definition vm_grant : N -> bool := fun _ => true.

Definition sample_image_ok : plcrash_async_macho_t :=
  sample_image all_readable classlist_both.

(** The same image with the [data_rw] of class A unreadable. *)
Definition sample_image_rw_unreadable : plcrash_async_macho_t :=
  sample_image (fun address => address =? 0x5000) classlist_both.

(** The same image with the heap class_ro of class B unreadable. *)
Definition sample_image_ro_unreadable : plcrash_async_macho_t :=
  sample_image (fun address => address =? 0x9000) classlist_both.

Definition method_A1 : found_method :=
  {| isClassMethod := false; className := 0x6000; methodName := 0x6010;
     imp := 0x10000 |}.
Definition method_A2 : found_method :=
  {| isClassMethod := false; className := 0x6000; methodName := 0x6020;
     imp := 0x10040 |}.
Definition method_B1 : found_method :=
  {| isClassMethod := false; className := 0x6100; methodName := 0x6110;
     imp := 0xDEADBEEF |}.

(** A fresh cache with the sections of [image] mapped. *)
Definition mapped_cache (image : plcrash_async_macho_t) : plcrash_async_objc_cache_t :=
  snd (map_sections image plcrash_async_objc_cache_init).

(** The cache [plcrash_async_objc_parse] leaves after one run over
    [sample_image_ok] from a fresh cache. *)
Definition cache_after_sample_run : option plcrash_async_objc_cache_t :=
  match snd (plcrash_async_objc_parse vm_grant record_method sample_image_ok
               (Some plcrash_async_objc_cache_init) []) with
  | Returned (_, cache, _) => cache
  | _ => None
  end.

(** A cache whose bucket 0 already holds the pair (0x5000, 0x3000). *)
Definition cache_with_A : plcrash_async_objc_cache_t :=
  cache_set vm_grant plcrash_async_objc_cache_init 0x5000 0x3000.

(** A cache with the sections mapped and bucket 0 held by another key, 0x6000,
    which falls in the bucket of 0x5000. *)
Definition cache_bucket_taken : plcrash_async_objc_cache_t :=
  snd (map_sections sample_image_ok
         (cache_set vm_grant plcrash_async_objc_cache_init 0x6000 0x7777)).

(** C3 as the specification words it, at one turn of the class loop: a class
    whose parse fails is skipped and the loop goes on with the next class. *)
Definition failed_class_is_skipped {Ctx : Type} (vm_allocate : N -> bool)
    (cb : plcrash_async_objc_found_method_cb Ctx)
    (image : plcrash_async_macho_t) (todo : nat) (i : N)
    (c : plcrash_async_objc_cache_t) (x : Ctx) : Prop :=
  let ptr :=
    swap_pointer image
      (pointer_at image
         (task_address (classMobj c) + i * sizeof_class_pointer image)) in
  forall e c1 x1,
    pl_async_objc_parse_objc2_class vm_allocate cb image c (class_at image ptr) false x
    = Returned (e, c1, x1) ->
    e <> PLCRASH_ESUCCESS ->
    objc2_class_loop vm_allocate cb image (S todo) i PLCRASH_ESUCCESS c x
    = objc2_class_loop vm_allocate cb image todo (i + 1) PLCRASH_ESUCCESS c1 x1.

(** C4 as the specification words it, for its last clause: on a cache miss
    that resolves to a class_ro pointer, the [data_ro] address is then in
    the cache under the masked [data_rw] address. *)
Definition resolved_data_ro_is_cached (vm_allocate : N -> bool)
    (image : plcrash_async_macho_t) (c : plcrash_async_objc_cache_t)
    (dataPtr : N) : Prop :=
  cache_lookup c dataPtr = 0 ->
  forall p c',
    objc2_class_data_ro vm_allocate image c dataPtr = RoPointer (Some p) c' ->
    cache_lookup c' dataPtr
    = swap_pointer image (rw_data_ro (data_rw_at image dataPtr)).

(** C7 as the specification words it, for its first clause: [cache_set]
    then [cache_lookup] returns the value unless the bucket is held by a
    different key or the cache cannot be allocated. *)
Definition set_then_lookup_unless_other_key (vm_allocate : N -> bool)
    (c : plcrash_async_objc_cache_t) (key value : N) : Prop :=
  class_cache_wf c ->
  (classCacheKeys c <> None \/ vm_allocate 16384 = true) ->
  ~ (bucket_key c key <> 0 /\ bucket_key c key <> key) ->
  cache_lookup (cache_set vm_allocate c key value) key = value.

(** The kernel refuses every allocation. *)
Definition vm_refuse : N -> bool := fun _ => false.

(** The cache the class-list parse of [sample_image_ok] leaves when started
    from a fresh cache. *)
Definition cache_after_data_section : plcrash_async_objc_cache_t :=
  match pl_async_objc_parse_from_data_section vm_grant record_method
          sample_image_ok plcrash_async_objc_cache_init [] with
  | Returned (_, c, _) => c
  | _ => plcrash_async_objc_cache_init
  end.

(** The cache a method search in [sample_image_ok] leaves when started from
    a fresh cache. *)
Definition cache_after_find_method : option plcrash_async_objc_cache_t :=
  match plcrash_async_objc_find_method vm_grant sample_image_ok
          (Some plcrash_async_objc_cache_init) 0x10050
          (Some record_method) [] with
  | Returned (_, c, _) => c
  | _ => None
  end.

(** [sample_ts_none_valid] after [plcrash_async_thread_state_set_reg] has
    stored [value] in register [r], under the numbering [regnum_decl]. *)
Definition sample_ts_after_set (r : plcrash_arm_regnum) (value : N)
    : plcrash_async_thread_state_t :=
  match plcrash_async_thread_state_set_reg regnum_decl sample_ts_none_valid
          (regnum_decl r) value with
  | Some ts' => ts'
  | None => sample_ts_none_valid
  end.

(** What the walk of [sample_objc1_memory true] hands over and returns. *)
Definition sample_objc1_walk : list found_method * plcrash_error_t :=
  ([method_M1; method_M2; method_M3; method_M4], PLCRASH_ESUCCESS).

(** The ObjC1 image with both of its module structures, and with the first
    one only. *)
Definition sample_objc1_image_ok : plcrash_async_macho_t :=
  sample_objc1_image 32 sample_objc1_walk.

Definition sample_objc1_image_one_module : plcrash_async_macho_t :=
  sample_objc1_image 16 ([], PLCRASH_ESUCCESS).

(** The cache the parse of class A of [sample_image_ok] leaves when started
    with the sections mapped. *)
Definition cache_after_class_A : plcrash_async_objc_cache_t :=
  match pl_async_objc_parse_objc2_class vm_grant record_method sample_image_ok
          (mapped_cache sample_image_ok) (class_at sample_image_ok 0x2000)
          false [method_B1] with
  | Returned (_, c, _) => c
  | _ => plcrash_async_objc_cache_init
  end.

(** [sample_image_ro_unreadable] with the class list in the other order,
    class B (whose heap class_ro cannot be copied) before class A, and with
    every [isa] pointing outside [__objc_data]. *)
Definition sample_image_isa_outside : plcrash_async_macho_t :=
  let base := sample_image_ro_unreadable in
  {| macho_self := macho_self base;
     m64 := m64 base;
     swap32 := swap32 base;
     swap64 := swap64 base;
     plcrash_async_read_addr := plcrash_async_read_addr base;
     plcrash_async_macho_string_init := plcrash_async_macho_string_init base;
     plcrash_async_macho_map_section := plcrash_async_macho_map_section base;
     pointer_at := fun address =>
       if address =? 0x1000 then 0x2100
       else if address =? 0x1004 then 0x2000 else 0;
     class_at := fun address =>
       {| class_isa := 0x8000; class_superclass := 0; class_cache := 0;
          class_vtable := 0;
          class_data_rw := class_data_rw (class_at base address) |};
     data_rw_at := data_rw_at base;
     data_ro_at := data_ro_at base;
     list_header_at := list_header_at base;
     method_at := method_at base;
     module_info_walk := module_info_walk base |}.
(** ** Single-bit masks *)

(** [a & (1 << n)] is zero exactly when bit [n] of [a] is clear. *)
Lemma land_bit_is_zero a n :
  (N.land a (N.shiftl 1 n) =? 0) = negb (N.testbit a n).
Proof.
  rewrite N.shiftl_1_l.
  destruct (N.testbit a n) eqn:Hb; cbn [negb].
  - apply N.eqb_neq. intros H0.
    assert (Hbit : N.testbit (N.land a (2 ^ n)) n = true).
    { rewrite N.land_spec, Hb, N.pow2_bits_true. reflexivity. }
    rewrite H0, N.bits_0 in Hbit. discriminate.
  - apply N.eqb_eq, N.bits_inj. intros m.
    rewrite N.land_spec, N.bits_0, N.pow2_bits_eqb.
    destruct (N.eqb_spec n m) as [<-|_].
    + rewrite Hb. reflexivity.
    + apply andb_false_r.
Qed.

(** ** Facts about the ARM thread state *)

Lemma thread_state_eq (a b : plcrash_async_thread_state_t) :
  arm_state a = arm_state b -> valid_regs a = valid_regs b -> a = b.
Proof. destruct a, b; simpl; intros -> ->; reflexivity. Qed.

Section ARMValidBits.

Variable regnum : plcrash_arm_regnum -> N.
Variable PLCRASH_ARM_LAST_REG : N.

Abbreviation has_reg := plcrash_async_thread_state_has_reg.
Abbreviation clear_reg := plcrash_async_thread_state_clear_reg.
Abbreviation clear_volatile_regs :=
  (plcrash_async_thread_state_clear_volatile_regs regnum PLCRASH_ARM_LAST_REG).
Abbreviation nonvolatile := (arm_nonvolatile_registers regnum).

Lemma has_reg_testbit ts reg : has_reg ts reg = N.testbit (valid_regs ts) reg.
Proof.
  unfold plcrash_async_thread_state_has_reg.
  rewrite land_bit_is_zero. apply negb_involutive.
Qed.

Lemma clear_reg_testbit ts reg m :
  N.testbit (valid_regs (clear_reg ts reg)) m
  = N.testbit (valid_regs ts) m && negb (reg =? m).
Proof. exact (N.clearbit_eqb (valid_regs ts) reg m). Qed.

Lemma clear_volatile_step_state ts reg :
  arm_state (clear_volatile_step regnum ts reg) = arm_state ts.
Proof.
  unfold clear_volatile_step.
  destruct (negb (has_reg ts reg)); [reflexivity|].
  destruct (negb (preserved_in nonvolatile reg)); reflexivity.
Qed.

Lemma clear_volatile_step_testbit ts reg m :
  N.testbit (valid_regs (clear_volatile_step regnum ts reg)) m
  = N.testbit (valid_regs ts) m
    && (negb (reg =? m) || preserved_in nonvolatile m).
Proof.
  unfold clear_volatile_step. rewrite has_reg_testbit.
  destruct (N.testbit (valid_regs ts) reg) eqn:Hb;
    destruct (preserved_in nonvolatile reg) eqn:Hp; cbn [negb];
    rewrite ?clear_reg_testbit;
    destruct (N.eqb_spec reg m) as [<-|Hne]; cbn [negb orb];
    rewrite ?Hb, ?Hp, ?andb_true_r, ?andb_false_r; reflexivity.
Qed.

Lemma clear_volatile_loop_state todo : forall reg ts,
  arm_state (clear_volatile_loop regnum todo reg ts) = arm_state ts.
Proof.
  induction todo as [|todo IH]; intros reg ts; simpl; [reflexivity|].
  rewrite IH. apply clear_volatile_step_state.
Qed.

(** The loop visits the register numbers [reg .. reg + todo - 1]; a bit
    survives iff it was set and is either outside that window or names a
    row of the preservation table. *)
Lemma clear_volatile_loop_testbit todo : forall reg ts m,
  N.testbit (valid_regs (clear_volatile_loop regnum todo reg ts)) m
  = N.testbit (valid_regs ts) m
    && (negb ((reg <=? m) && (m <? reg + N.of_nat todo))
        || preserved_in nonvolatile m).
Proof.
  induction todo as [|todo IH]; intros reg ts m.
  - cbn [clear_volatile_loop]. change (N.of_nat 0) with 0. rewrite N.add_0_r.
    destruct (N.leb_spec reg m), (N.ltb_spec m reg); cbn [negb andb orb];
      rewrite ?andb_true_r; try reflexivity; lia.
  - cbn [clear_volatile_loop]. rewrite IH, clear_volatile_step_testbit.
    rewrite Nat2N.inj_succ.
    destruct (N.testbit (valid_regs ts) m); [|reflexivity].
    destruct (preserved_in nonvolatile m); [rewrite !orb_true_r; reflexivity|].
    rewrite !orb_false_r. cbn [andb].
    destruct (N.eqb_spec reg m) as [Heq|Hne];
      destruct (N.leb_spec (reg + 1) m), (N.leb_spec reg m),
               (N.ltb_spec m (reg + 1 + N.of_nat todo)),
               (N.ltb_spec m (reg + N.succ (N.of_nat todo)));
      cbn [negb andb orb]; try reflexivity; lia.
Qed.

Lemma clear_volatile_regs_state ts :
  arm_state (clear_volatile_regs ts) = arm_state ts.
Proof. apply clear_volatile_loop_state. Qed.

Lemma clear_volatile_regs_testbit ts m :
  N.testbit (valid_regs (clear_volatile_regs ts)) m
  = N.testbit (valid_regs ts) m
    && (negb (m <=? PLCRASH_ARM_LAST_REG) || preserved_in nonvolatile m).
Proof.
  unfold plcrash_async_thread_state_clear_volatile_regs,
    plcrash_async_thread_state_get_reg_count.
  rewrite clear_volatile_loop_testbit, N2Nat.id.
  destruct (N.leb_spec 0 m), (N.ltb_spec m (0 + (PLCRASH_ARM_LAST_REG + 1))),
    (N.leb_spec m PLCRASH_ARM_LAST_REG); cbn [negb andb orb];
    try reflexivity; lia.
Qed.

Lemma preserved_in_spec table reg :
  preserved_in table reg = true <-> In reg table.
Proof.
  induction table as [|x rest IH]; simpl.
  - split; [discriminate|tauto].
  - destruct (N.eqb_spec x reg) as [->|Hne].
    + tauto.
    + rewrite IH. split; [tauto|]. intros [H|H]; [contradiction|exact H].
Qed.

(** C9: applying [plcrash_async_thread_state_clear_volatile_regs] twice
    yields the same thread state (register values and [valid_regs]) as
    applying it once. *)
Theorem clear_volatile_regs_idempotent (ts : plcrash_async_thread_state_t) :
  clear_volatile_regs (clear_volatile_regs ts) = clear_volatile_regs ts.
Proof.
  apply thread_state_eq.
  - apply clear_volatile_regs_state.
  - apply N.bits_inj. intros m.
    rewrite (clear_volatile_regs_testbit (clear_volatile_regs ts)).
    rewrite (clear_volatile_regs_testbit ts).
    rewrite <- andb_assoc, andb_diag. reflexivity.
Qed.

End ARMValidBits.

Section ARMFacts.

Variable regnum : plcrash_arm_regnum -> N.
Variable PLCRASH_ARM_LAST_REG : N.

Hypothesis regnum_distinct : forall a b, regnum a = regnum b -> a = b.
Hypothesis regnum_le_last : forall a, regnum a <= PLCRASH_ARM_LAST_REG.

Abbreviation has_reg := plcrash_async_thread_state_has_reg.
Abbreviation get_reg := (plcrash_async_thread_state_get_reg regnum).
Abbreviation clear_volatile_regs :=
  (plcrash_async_thread_state_clear_volatile_regs regnum PLCRASH_ARM_LAST_REG).
Abbreviation nonvolatile := (arm_nonvolatile_registers regnum).
Abbreviation map_reg_to_dwarf :=
  (plcrash_async_thread_state_map_reg_to_dwarf regnum).
Abbreviation map_dwarf_to_reg :=
  (plcrash_async_thread_state_map_dwarf_to_reg regnum).

Lemma regnum_eqb a b : (regnum a =? regnum b) = plcrash_arm_regnum_eqb a b.
Proof.
  destruct (N.eqb_spec (regnum a) (regnum b)) as [Heq|Hne].
  - apply regnum_distinct in Heq. subst. destruct b; reflexivity.
  - destruct a, b; try reflexivity; contradiction Hne; reflexivity.
Qed.

Lemma switch_case_regnum r : switch_case regnum (regnum r) = Some r.
Proof.
  unfold switch_case, arm_case_labels. cbn [List.find].
  rewrite !regnum_eqb. destruct r; reflexivity.
Qed.

Lemma preserved_in_regnum r :
  preserved_in nonvolatile (regnum r) = true <-> In r arm_nonvolatile_rows.
Proof.
  rewrite preserved_in_spec. unfold arm_nonvolatile_registers.
  rewrite in_map_iff. split.
  - intros [r' [Heq Hin]]. apply regnum_distinct in Heq. subst. exact Hin.
  - intros Hin. exists r. split; [reflexivity|exact Hin].
Qed.

(** C1 (amended): the preservation table is R4-R8, R10 and R11 only.
    After [plcrash_async_thread_state_clear_volatile_regs] no register
    value has changed, a register of that table is valid exactly when it
    was valid before, and every register outside it, SP and LR included,
    is invalid. *)
Theorem clear_volatile_regs_keeps_table_only
    (ts : plcrash_async_thread_state_t) (r : plcrash_arm_regnum) :
  get_reg (clear_volatile_regs ts) (regnum r) = get_reg ts (regnum r)
  /\ (In r arm_nonvolatile_rows ->
      has_reg (clear_volatile_regs ts) (regnum r) = has_reg ts (regnum r))
  /\ (~ In r arm_nonvolatile_rows ->
      has_reg (clear_volatile_regs ts) (regnum r) = false)
  /\ has_reg (clear_volatile_regs ts) (regnum PLCRASH_ARM_SP) = false
  /\ has_reg (clear_volatile_regs ts) (regnum PLCRASH_ARM_LR) = false.
Proof.
  assert (Hout : forall q, ~ In q arm_nonvolatile_rows ->
            has_reg (clear_volatile_regs ts) (regnum q) = false).
  { intros q Hq. rewrite has_reg_testbit, clear_volatile_regs_testbit.
    destruct (preserved_in nonvolatile (regnum q)) eqn:Hp.
    - apply preserved_in_regnum in Hp. contradiction.
    - pose proof (regnum_le_last q) as Hle.
      apply N.leb_le in Hle. rewrite Hle. apply andb_false_r. }
  split; [|split; [|split; [|split]]].
  - unfold plcrash_async_thread_state_get_reg.
    rewrite clear_volatile_regs_state. reflexivity.
  - intros Hin. rewrite !has_reg_testbit, clear_volatile_regs_testbit.
    apply preserved_in_regnum in Hin. rewrite Hin, orb_true_r.
    apply andb_true_r.
  - apply Hout.
  - apply Hout. unfold arm_nonvolatile_rows. cbn [In].
    intros H; repeat destruct H as [H|H]; discriminate || exact H.
  - apply Hout. unfold arm_nonvolatile_rows. cbn [In].
    intros H; repeat destruct H as [H|H]; discriminate || exact H.
Qed.

(** C2 (amended): a read of a known register returns the stored field
    whatever [valid_regs] holds; the validity bit plays no part in
    [plcrash_async_thread_state_get_reg], whose only failure is the trap on
    an identifier that is no [case] label. *)
Theorem get_reg_ignores_valid_regs
    (ts : plcrash_async_thread_state_t) (r : plcrash_arm_regnum) :
  get_reg ts (regnum r) = RegValue (reg_field (arm_state ts) r)
  /\ (forall bits,
        get_reg {| arm_state := arm_state ts; valid_regs := bits |} (regnum r)
        = get_reg ts (regnum r))
  /\ (forall n, (forall q, regnum q <> n) -> get_reg ts n = RegTrap).
Proof.
  split; [|split].
  - unfold plcrash_async_thread_state_get_reg.
    rewrite switch_case_regnum. reflexivity.
  - intros bits. reflexivity.
  - intros n Hn. unfold plcrash_async_thread_state_get_reg.
    destruct (switch_case regnum n) as [q|] eqn:Hq; [|reflexivity].
    apply find_some in Hq. destruct Hq as [_ Hq].
    apply N.eqb_eq in Hq. contradiction (Hn q).
Qed.

Lemma dwarf_scan_regnum_none table n :
  ~ In n (List.map fst table) -> dwarf_scan_regnum table n = None.
Proof.
  induction table as [|[rn dv] rest IH]; intros Hn; simpl; [reflexivity|].
  destruct (N.eqb_spec rn n) as [->|Hne].
  - contradiction Hn. left. reflexivity.
  - apply IH. intros Hin. apply Hn. right. exact Hin.
Qed.

Lemma dwarf_scan_value_none table d :
  ~ In d (List.map snd table) -> dwarf_scan_value table d = None.
Proof.
  induction table as [|[rn dv] rest IH]; intros Hd; simpl; [reflexivity|].
  destruct (N.eqb_spec dv d) as [->|Hne].
  - contradiction Hd. left. reflexivity.
  - apply IH. intros Hin. apply Hd. right. exact Hin.
Qed.

Lemma dwarf_values_le_15 d :
  In d (List.map snd (arm_dwarf_table regnum)) -> d <= 15.
Proof.
  unfold arm_dwarf_table, arm_dwarf_rows. cbn [List.map fst snd In].
  intros H; repeat destruct H as [H|H]; try contradiction; subst; lia.
Qed.

(** C6: every register of [arm_dwarf_table] (R0-R12, SP, LR, PC) maps to a
    DWARF number that maps back to it; a register identifier without a row
    (CPSR for one) and a DWARF number without a row (any number above 15
    for one) make the mapping functions return false. *)
Theorem arm_dwarf_round_trip :
  (forall r, In r (List.map fst arm_dwarf_rows) ->
     exists d, map_reg_to_dwarf (regnum r) = Some d
               /\ map_dwarf_to_reg d = Some (regnum r))
  /\ (forall n, ~ In n (List.map fst (arm_dwarf_table regnum)) ->
        map_reg_to_dwarf n = None)
  /\ map_reg_to_dwarf (regnum PLCRASH_ARM_CPSR) = None
  /\ (forall d, ~ In d (List.map snd (arm_dwarf_table regnum)) ->
        map_dwarf_to_reg d = None)
  /\ (forall d, 15 < d -> map_dwarf_to_reg d = None).
Proof.
  split; [|split; [|split; [|split]]].
  - intros r Hr.
    unfold plcrash_async_thread_state_map_reg_to_dwarf,
      plcrash_async_thread_state_map_dwarf_to_reg, arm_dwarf_table,
      arm_dwarf_rows.
    cbn [List.map fst snd dwarf_scan_regnum]. rewrite !regnum_eqb.
    destruct r; cbn [plcrash_arm_regnum_eqb];
      try (eexists; split; [reflexivity|reflexivity]).
    exfalso. cbn in Hr.
    repeat destruct Hr as [Hr|Hr]; discriminate || exact Hr.
  - intros n Hn. apply dwarf_scan_regnum_none. exact Hn.
  - unfold plcrash_async_thread_state_map_reg_to_dwarf, arm_dwarf_table,
      arm_dwarf_rows.
    cbn [List.map fst snd dwarf_scan_regnum]. rewrite !regnum_eqb.
    reflexivity.
  - intros d Hd. apply dwarf_scan_value_none. exact Hd.
  - intros d Hd. apply dwarf_scan_value_none. intros Hin.
    apply dwarf_values_le_15 in Hin. lia.
Qed.

End ARMFacts.


(** *** Concrete instances for the ARM thread state *)

Ltac regnum_decl_hyps :=
  first
    [ intros a b; destruct a, b; cbn [regnum_decl]; intros Hab;
      solve [ reflexivity | discriminate Hab ]
    | intros a; destruct a; vm_compute; discriminate ].

(** With every register valid, SP (and LR) are in the set the specification
    names, yet [plcrash_async_thread_state_clear_volatile_regs] leaves them
    invalid: their numbers are not rows of [arm_nonvolatile_registers]. *)
Lemma clear_volatile_regs_drops_sp_lr :
  ~ clear_volatiles_keeps_spec_set regnum_decl last_reg_decl sample_ts_all_valid.
Proof.
  intros Hclaim.
  destruct (Hclaim PLCRASH_ARM_SP) as [Hkeep _].
  destruct Hkeep as [Hvalid _].
  - cbn. tauto.
  - vm_compute. reflexivity.
  - vm_compute in Hvalid. discriminate Hvalid.
Qed.

Lemma clear_volatile_regs_keeps_table_only_witness :
  let ts' := plcrash_async_thread_state_clear_volatile_regs
               regnum_decl last_reg_decl sample_ts_all_valid in
  plcrash_async_thread_state_get_reg regnum_decl ts' (regnum_decl PLCRASH_ARM_R4)
  = plcrash_async_thread_state_get_reg regnum_decl sample_ts_all_valid
      (regnum_decl PLCRASH_ARM_R4)
  /\ (In PLCRASH_ARM_R4 arm_nonvolatile_rows ->
      plcrash_async_thread_state_has_reg ts' (regnum_decl PLCRASH_ARM_R4)
      = plcrash_async_thread_state_has_reg sample_ts_all_valid
          (regnum_decl PLCRASH_ARM_R4))
  /\ (~ In PLCRASH_ARM_R4 arm_nonvolatile_rows ->
      plcrash_async_thread_state_has_reg ts' (regnum_decl PLCRASH_ARM_R4) = false)
  /\ plcrash_async_thread_state_has_reg ts' (regnum_decl PLCRASH_ARM_SP) = false
  /\ plcrash_async_thread_state_has_reg ts' (regnum_decl PLCRASH_ARM_LR) = false.
Proof.
  apply (clear_volatile_regs_keeps_table_only regnum_decl last_reg_decl);
    regnum_decl_hyps.
Defined.

(** With no register valid, reading R0 still returns its stored value. *)
Lemma get_reg_invalid_returns_value :
  ~ invalid_read_is_error regnum_decl sample_ts_none_valid PLCRASH_ARM_R0.
Proof.
  intros Hclaim.
  apply (Hclaim (eq_refl : plcrash_async_thread_state_has_reg
                             sample_ts_none_valid (regnum_decl PLCRASH_ARM_R0)
                           = false) 100).
  reflexivity.
Qed.

Lemma get_reg_ignores_valid_regs_witness :
  plcrash_async_thread_state_get_reg regnum_decl sample_ts_none_valid
    (regnum_decl PLCRASH_ARM_SP)
  = RegValue 113.
Proof.
  apply (get_reg_ignores_valid_regs regnum_decl); regnum_decl_hyps.
Defined.

Lemma arm_dwarf_round_trip_witness :
  exists d,
    plcrash_async_thread_state_map_reg_to_dwarf regnum_decl
      (regnum_decl PLCRASH_ARM_LR) = Some d
    /\ plcrash_async_thread_state_map_dwarf_to_reg regnum_decl d
       = Some (regnum_decl PLCRASH_ARM_LR).
Proof.
  apply (arm_dwarf_round_trip regnum_decl); [regnum_decl_hyps|].
  cbn. tauto.
Defined.

(** *** Setting registers, names, and the DWARF table read backwards *)

Section ARMSetFacts.

Variable regnum : plcrash_arm_regnum -> N.
Variable PLCRASH_ARM_LAST_REG : N.

Hypothesis regnum_distinct : forall a b, regnum a = regnum b -> a = b.
Hypothesis regnum_le_last : forall a, regnum a <= PLCRASH_ARM_LAST_REG.

Abbreviation has_reg := plcrash_async_thread_state_has_reg.
Abbreviation get_reg := (plcrash_async_thread_state_get_reg regnum).
Abbreviation set_reg := (plcrash_async_thread_state_set_reg regnum).
Abbreviation clear_volatile_regs :=
  (plcrash_async_thread_state_clear_volatile_regs regnum PLCRASH_ARM_LAST_REG).
Abbreviation map_reg_to_dwarf :=
  (plcrash_async_thread_state_map_reg_to_dwarf regnum).
Abbreviation map_dwarf_to_reg :=
  (plcrash_async_thread_state_map_dwarf_to_reg regnum).
Abbreviation get_reg_name := (plcrash_async_thread_state_get_reg_name regnum).

Lemma set_reg_known ts r value :
  set_reg ts (regnum r) value
  = Some {| arm_state := set_reg_field (arm_state ts) r value;
            valid_regs := N.lor (valid_regs ts) (N.shiftl 1 (regnum r)) |}.
Proof.
  unfold plcrash_async_thread_state_set_reg.
  rewrite (switch_case_regnum regnum regnum_distinct). reflexivity.
Qed.

Lemma get_reg_known ts r :
  get_reg ts (regnum r) = RegValue (reg_field (arm_state ts) r).
Proof.
  unfold plcrash_async_thread_state_get_reg.
  rewrite (switch_case_regnum regnum regnum_distinct). reflexivity.
Qed.

Lemma setbit_testbit bits n m :
  N.testbit (N.lor bits (N.shiftl 1 n)) m = N.testbit bits m || (n =? m).
Proof.
  rewrite N.lor_spec, N.shiftl_1_l, N.pow2_bits_eqb. reflexivity.
Qed.

Lemma reg_field_set_same st r value :
  length (thread_r st) = 13%nat ->
  reg_field (set_reg_field st r value) r = value mod 2 ^ 32.
Proof.
  intros Hlen.
  destruct r; cbv zeta beta delta [set_reg_field];
    cbn [reg_field thread_r thread_sp thread_lr thread_pc thread_cpsr];
    try reflexivity; apply list_lookup_total_insert_eq; lia.
Qed.

Lemma reg_field_set_other st r q value :
  q <> r -> reg_field (set_reg_field st r value) q = reg_field st q.
Proof.
  intros Hne.
  destruct r, q; try contradiction;
    cbv zeta beta delta [set_reg_field];
    cbn [reg_field thread_r thread_sp thread_lr thread_pc thread_cpsr];
    try reflexivity; apply list_lookup_total_insert_ne; discriminate.
Qed.

Lemma set_reg_field_length st r value :
  length (thread_r (set_reg_field st r value)) = length (thread_r st).
Proof.
  destruct r; cbv zeta beta delta [set_reg_field]; cbn [thread_r];
    try reflexivity; apply length_insert.
Qed.

(** X1: on a thread state with its 13-entry register array, setting a known
    register succeeds, keeps the array's size, marks the register valid, and
    a read then returns the low 32 bits of the value set, which is the
    value itself when it fits the 32-bit register. *)
Theorem set_reg_then_get_reg ts r value :
  arm_state_wf ts ->
  exists ts',
    plcrash_async_thread_state_set_reg regnum ts (regnum r) value = Some ts'
    /\ arm_state_wf ts'
    /\ plcrash_async_thread_state_has_reg ts' (regnum r) = true
    /\ plcrash_async_thread_state_get_reg regnum ts' (regnum r)
       = RegValue (value mod 2 ^ 32)
    /\ (value < 2 ^ 32 ->
        plcrash_async_thread_state_get_reg regnum ts' (regnum r)
        = RegValue value).
Proof.
  intros Hwf. eexists. split; [apply set_reg_known|].
  split; [|split].
  - unfold arm_state_wf. cbn [arm_state].
    rewrite set_reg_field_length. exact Hwf.
  - rewrite has_reg_testbit. cbn [valid_regs].
    rewrite setbit_testbit, N.eqb_refl. apply orb_true_r.
  - rewrite get_reg_known. cbn [arm_state].
    rewrite reg_field_set_same by exact Hwf.
    split; [reflexivity|]. intros Hfits. rewrite N.mod_small by exact Hfits.
    reflexivity.
Qed.

(** X2: setting a known register changes neither the value nor the validity
    bit of any other register. *)
Theorem set_reg_leaves_other_registers ts r q value ts' :
  plcrash_async_thread_state_set_reg regnum ts (regnum r) value = Some ts' ->
  q <> r ->
  plcrash_async_thread_state_get_reg regnum ts' (regnum q)
  = plcrash_async_thread_state_get_reg regnum ts (regnum q)
  /\ plcrash_async_thread_state_has_reg ts' (regnum q)
     = plcrash_async_thread_state_has_reg ts (regnum q).
Proof.
  rewrite set_reg_known. intros [= <-] Hne. split.
  - rewrite !get_reg_known. cbn [arm_state].
    rewrite reg_field_set_other by exact Hne. reflexivity.
  - rewrite !has_reg_testbit. cbn [valid_regs]. rewrite setbit_testbit.
    destruct (N.eqb_spec (regnum r) (regnum q)) as [Heq|_].
    + apply regnum_distinct in Heq. congruence.
    + apply orb_false_r.
Qed.

(** X3: a register that has just been set survives
    [plcrash_async_thread_state_clear_volatile_regs], valid and with the
    low 32 bits of the value set, exactly when it is a row of the
    preservation table; set outside the table it comes out invalid, though
    those 32 bits stay stored. *)
Theorem set_reg_then_clear_volatile_regs ts r value ts' :
  arm_state_wf ts ->
  plcrash_async_thread_state_set_reg regnum ts (regnum r) value = Some ts' ->
  let cleared :=
    plcrash_async_thread_state_clear_volatile_regs regnum PLCRASH_ARM_LAST_REG
      ts' in
  plcrash_async_thread_state_get_reg regnum cleared (regnum r)
  = RegValue (value mod 2 ^ 32)
  /\ plcrash_async_thread_state_has_reg cleared (regnum r)
     = preserved_in (arm_nonvolatile_registers regnum) (regnum r)
  /\ (plcrash_async_thread_state_has_reg cleared (regnum r) = true
      <-> In r arm_nonvolatile_rows).
Proof.
  intros Hwf. rewrite set_reg_known. intros [= <-].
  assert (Hbit :
    has_reg (clear_volatile_regs
               {| arm_state := set_reg_field (arm_state ts) r value;
                  valid_regs := N.lor (valid_regs ts) (N.shiftl 1 (regnum r)) |})
      (regnum r)
    = preserved_in (arm_nonvolatile_registers regnum) (regnum r)).
  { rewrite has_reg_testbit, clear_volatile_regs_testbit. cbn [valid_regs].
    rewrite setbit_testbit, N.eqb_refl, orb_true_r. cbn [andb].
    pose proof (regnum_le_last r) as Hle. apply N.leb_le in Hle.
    rewrite Hle. reflexivity. }
  split; [|split].
  - rewrite get_reg_known, clear_volatile_regs_state. cbn [arm_state].
    rewrite reg_field_set_same by exact Hwf. reflexivity.
  - exact Hbit.
  - rewrite Hbit. apply (preserved_in_regnum regnum regnum_distinct).
Qed.

(** X4: read backwards, the DWARF table is a round trip as well: every DWARF
    number from 0 to 15 maps to a register identifier that maps back to it,
    so no two DWARF numbers share a register. *)
Theorem arm_dwarf_round_trip_from_dwarf d :
  d <= 15 ->
  exists n,
    plcrash_async_thread_state_map_dwarf_to_reg regnum d = Some n
    /\ plcrash_async_thread_state_map_reg_to_dwarf regnum n = Some d.
Proof.
  intros Hd.
  assert (Hcases : d = 0 \/ d = 1 \/ d = 2 \/ d = 3 \/ d = 4 \/ d = 5 \/ d = 6
                   \/ d = 7 \/ d = 8 \/ d = 9 \/ d = 10 \/ d = 11 \/ d = 12
                   \/ d = 13 \/ d = 14 \/ d = 15) by lia.
  unfold plcrash_async_thread_state_map_reg_to_dwarf,
    plcrash_async_thread_state_map_dwarf_to_reg, arm_dwarf_table, arm_dwarf_rows.
  cbn [List.map fst snd].
  repeat destruct Hcases as [->|Hcases]; try subst d;
    (eexists; split; [cbn; reflexivity|]);
    cbn [dwarf_scan_regnum]; rewrite !(regnum_eqb regnum regnum_distinct);
    reflexivity.
Qed.

(** X5: every register with a [case] label has a name, registers with
    different identifiers have different names, and an identifier without a
    label ends in [abort()]. *)
Theorem get_reg_name_distinct :
  (forall r,
     plcrash_async_thread_state_get_reg_name regnum (regnum r)
     = Some (arm_reg_name r))
  /\ (forall a b,
        plcrash_async_thread_state_get_reg_name regnum (regnum a)
        = plcrash_async_thread_state_get_reg_name regnum (regnum b) ->
        a = b)
  /\ (forall n,
        (forall q, regnum q <> n) ->
        plcrash_async_thread_state_get_reg_name regnum n = None).
Proof.
  assert (Hname : forall r, get_reg_name (regnum r) = Some (arm_reg_name r)).
  { intros r. unfold plcrash_async_thread_state_get_reg_name.
    rewrite (switch_case_regnum regnum regnum_distinct). reflexivity. }
  split; [exact Hname|]. split.
  - intros a b. rewrite !Hname. intros [= Hab].
    destruct a, b; try reflexivity; discriminate Hab.
  - intros n Hn. unfold plcrash_async_thread_state_get_reg_name.
    destruct (switch_case regnum n) as [q|] eqn:Hq; [|reflexivity].
    apply find_some in Hq. destruct Hq as [_ Hq].
    apply N.eqb_eq in Hq. contradiction (Hn q).
Qed.

End ARMSetFacts.

Section ARMClearFacts.

Variable regnum : plcrash_arm_regnum -> N.
Variable PLCRASH_ARM_LAST_REG : N.

(** X6: [plcrash_async_thread_state_clear_volatile_regs] only ever clears
    bits of [valid_regs]: a register number valid afterwards was valid
    before, and the bits above [PLCRASH_ARM_LAST_REG] are not touched. *)
Theorem clear_volatile_regs_only_clears ts n :
  (plcrash_async_thread_state_has_reg
     (plcrash_async_thread_state_clear_volatile_regs regnum PLCRASH_ARM_LAST_REG ts) n
   = true ->
   plcrash_async_thread_state_has_reg ts n = true)
  /\ (PLCRASH_ARM_LAST_REG < n ->
      plcrash_async_thread_state_has_reg
        (plcrash_async_thread_state_clear_volatile_regs regnum PLCRASH_ARM_LAST_REG ts) n
      = plcrash_async_thread_state_has_reg ts n).
Proof.
  rewrite !has_reg_testbit, clear_volatile_regs_testbit. split.
  - intros H. apply andb_true_iff in H. apply H.
  - intros Hn. destruct (N.leb_spec n PLCRASH_ARM_LAST_REG); [lia|].
    cbn [negb orb]. apply andb_true_r.
Qed.

End ARMClearFacts.

(** ** Facts about the class cache *)



Lemma bucket_index_lt key : (N.to_nat (bucket_index key) < 1024)%nat.
Proof.
  unfold bucket_index.
  assert (N.shiftr key 2 mod 1024 < 1024) by (apply N.mod_upper_bound; lia).
  lia.
Qed.

Lemma class_cache_wf_inv c :
  class_cache_wf c ->
  (classCacheKeys c = None /\ classCacheValues c = None /\ classCacheSize c = 0)
  \/ (exists keys values,
        classCacheKeys c = Some keys /\ classCacheValues c = Some values
        /\ classCacheSize c = 1024
        /\ length keys = 1024%nat /\ length values = 1024%nat).
Proof.
  unfold class_cache_wf.
  destruct (classCacheKeys c) as [keys|], (classCacheValues c) as [values|];
    try contradiction.
  - intros (Hs & Hk & Hv). right. exists keys, values. auto.
  - intros Hs. left. auto.
Qed.

(** A bucket holding key 0 takes the pair, and the lookup then finds it. *)
Lemma cache_store_lookup c key value :
  class_cache_wf c -> classCacheKeys c <> None -> bucket_key c key = 0 ->
  cache_lookup (cache_store c key value) key = value.
Proof.
  intros Hwf Hsome Hfree.
  destruct (class_cache_wf_inv c Hwf)
    as [(Hk & _)|(keys & values & Hk & Hv & Hs & Hlk & Hlv)]; [contradiction|].
  unfold bucket_key in Hfree. rewrite Hk in Hfree.
  unfold cache_store, cache_lookup, cache_index.
  rewrite Hs, Hk, Hv. fold (bucket_index key).
  rewrite Hfree. cbn. rewrite Hs. fold (bucket_index key).
  change (0 <? 1024) with true. cbn iota.
  pose proof (bucket_index_lt key) as Hlt.
  rewrite list_lookup_total_insert_eq by lia.
  rewrite N.eqb_refl.
  apply list_lookup_total_insert_eq. lia.
Qed.

(** An occupied bucket is left alone, and with it the whole cache. *)
Lemma cache_store_occupied c key value :
  class_cache_wf c -> bucket_key c key <> 0 -> cache_store c key value = c.
Proof.
  intros Hwf Hocc.
  destruct (class_cache_wf_inv c Hwf)
    as [(Hk & _)|(keys & values & Hk & Hv & Hs & Hlk & Hlv)].
  - unfold bucket_key in Hocc. rewrite Hk in Hocc. contradiction Hocc. reflexivity.
  - unfold cache_store, cache_index. rewrite Hs. fold (bucket_index key).
    fold (bucket_key c key).
    destruct (N.eqb_spec (bucket_key c key) 0); [contradiction|reflexivity].
Qed.

Lemma cache_store_wf c key value :
  class_cache_wf c -> class_cache_wf (cache_store c key value).
Proof.
  intros Hwf. unfold cache_store. destruct (_ =? 0); [|exact Hwf].
  destruct (class_cache_wf_inv c Hwf)
    as [(Hk & Hv & Hs)|(keys & values & Hk & Hv & Hs & Hlk & Hlv)];
    unfold class_cache_wf; cbn; rewrite Hk, Hv; cbn.
  - exact Hs.
  - rewrite !length_insert. auto.
Qed.

Lemma plcrash_async_objc_cache_init_wf :
  class_cache_wf plcrash_async_objc_cache_init.
Proof. reflexivity. Qed.

Section HostFacts.

Variable vm_allocate : N -> bool.

(** [cache_set] keeps the cache in one of its two shapes. *)
Lemma cache_set_wf c key value :
  class_cache_wf c -> class_cache_wf (cache_set vm_allocate c key value).
Proof.
  intros Hwf. unfold cache_set.
  destruct (classCacheKeys c) as [keys|] eqn:Hk.
  - apply cache_store_wf, Hwf.
  - destruct (vm_allocate _).
    + apply cache_store_wf. unfold class_cache_wf. cbn.
      rewrite !length_replicate. repeat split; reflexivity.
    + destruct (class_cache_wf_inv c Hwf) as [(_ & Hv & _)|(? & ? & Hk' & _)];
        [|congruence].
      unfold class_cache_wf. cbn. rewrite Hk, Hv. reflexivity.
Qed.

Lemma cache_set_allocated c key value :
  classCacheKeys c <> None ->
  cache_set vm_allocate c key value = cache_store c key value.
Proof.
  unfold cache_set. destruct (classCacheKeys c); [reflexivity|contradiction].
Qed.

Lemma cache_set_fresh_bucket c key value :
  class_cache_wf c -> bucket_key c key = 0 ->
  (classCacheKeys c <> None \/ vm_allocate 16384 = true) ->
  cache_lookup (cache_set vm_allocate c key value) key = value.
Proof.
  intros Hwf Hfree Halloc.
  destruct (classCacheKeys c) as [keys|] eqn:Hk.
  - rewrite cache_set_allocated by congruence.
    apply cache_store_lookup; [exact Hwf|congruence|exact Hfree].
  - destruct Halloc as [Hne|Hgrant]; [contradiction Hne; reflexivity|].
    unfold cache_set. rewrite Hk.
    change (cache_allocation_size (set_classCacheSize c 1024)) with 16384.
    rewrite Hgrant.
    apply cache_store_lookup.
    + unfold class_cache_wf. cbn. rewrite !length_replicate.
      repeat split; reflexivity.
    + discriminate.
    + unfold bucket_key. cbn.
      apply lookup_total_replicate_2, (bucket_index_lt key).
Qed.

Lemma cache_set_occupied_bucket c key value :
  class_cache_wf c -> bucket_key c key <> 0 ->
  cache_set vm_allocate c key value = c.
Proof.
  intros Hwf Hocc.
  assert (Hk : classCacheKeys c <> None).
  { intros Hk. unfold bucket_key in Hocc. rewrite Hk in Hocc.
    contradiction Hocc. reflexivity. }
  rewrite cache_set_allocated by exact Hk.
  apply cache_store_occupied; assumption.
Qed.

(** C7 (amended): on a cache in one of its two shapes, [cache_set] of
    [(key, value)] followed by [cache_lookup] of [key] returns [value]
    when the bucket [(key >> 2) mod 1024] holds key 0 and the arrays exist
    or can be allocated; when the bucket is occupied, by another key or by
    [key] itself, [cache_set] changes nothing at all, so the lookup keeps
    answering what it answered before; when the allocation fails the
    lookup answers 0. *)
Theorem cache_set_first_writer_wins
    (c : plcrash_async_objc_cache_t) (key value : N) :
  class_cache_wf c ->
  (bucket_key c key = 0 ->
   (classCacheKeys c <> None \/ vm_allocate 16384 = true) ->
   cache_lookup (cache_set vm_allocate c key value) key = value)
  /\ (bucket_key c key <> 0 ->
      cache_set vm_allocate c key value = c
      /\ cache_lookup (cache_set vm_allocate c key value) key
         = cache_lookup c key)
  /\ (classCacheKeys c = None -> vm_allocate 16384 = false ->
      classCacheKeys (cache_set vm_allocate c key value) = None
      /\ cache_lookup (cache_set vm_allocate c key value) key = 0).
Proof.
  intros Hwf. split; [|split].
  - apply cache_set_fresh_bucket, Hwf.
  - intros Hocc. rewrite cache_set_occupied_bucket by assumption.
    split; reflexivity.
  - intros Hk Hdeny. unfold cache_set. rewrite Hk.
    change (cache_allocation_size (set_classCacheSize c 1024)) with 16384.
    rewrite Hdeny. split; [exact Hk|reflexivity].
Qed.

(** *** One class of the ObjC2 class list *)

Lemma flag_clear flags bit :
  N.testbit flags bit = false -> (N.land flags (N.shiftl 1 bit) =? 0) = true.
Proof. intros H. rewrite land_bit_is_zero, H. reflexivity. Qed.

Lemma flag_set flags bit :
  N.testbit flags bit = true -> (N.land flags (N.shiftl 1 bit) =? 0) = false.
Proof. intros H. rewrite land_bit_is_zero, H. reflexivity. Qed.

(** The cache-miss path of the class_ro resolution, branch by branch. *)
Lemma objc2_class_data_ro_miss image c dataPtr :
  cache_lookup c dataPtr = 0 ->
  objc2_class_data_ro vm_allocate image c dataPtr
  = match plcrash_async_read_addr image dataPtr (sizeof_class_data_rw image) with
    | PLCRASH_ESUCCESS =>
        let rw := data_rw_at image dataPtr in
        let ro_addr := swap_pointer image (rw_data_ro rw) in
        if negb (N.testbit (rw_flags rw) 31) then RoCleanup PLCRASH_ESUCCESS
        else if N.testbit (rw_flags rw) 27 then
          match plcrash_async_read_addr image ro_addr (sizeof_class_data_ro image) with
          | PLCRASH_ESUCCESS =>
              RoPointer (Some (CopiedRO (data_ro_at image ro_addr)))
                (cache_set vm_allocate c dataPtr ro_addr)
          | _ => RoCleanup PLCRASH_ESUCCESS
          end
        else if plcrash_async_mobject_remap_address (objcConstMobj c)
                  ro_addr 0 (sizeof_class_data_ro image)
        then RoPointer (Some (MappedRO ro_addr))
               (cache_set vm_allocate c dataPtr ro_addr)
        else RoCleanup PLCRASH_ESUCCESS
    | err => RoCleanup err
    end.
Proof.
  intros Hmiss. unfold objc2_class_data_ro. rewrite Hmiss.
  change (0 =? 0) with true. cbv iota.
  unfold RW_REALIZED, RW_COPIED_RO. rewrite !land_bit_is_zero.
  rewrite negb_involutive. reflexivity.
Qed.

(** C4 (amended): for a class whose [data_rw] is read on a cache miss: with
    bit 31 of the flags clear the class is skipped and no callback runs;
    otherwise with bit 27 set the class_ro is the copy made by
    [plcrash_async_read_addr], and with bit 27 clear it is the pointer
    remapped inside [__objc_const]; whenever a class_ro pointer results,
    [cache_set] has been applied to the masked [data_rw] address and the
    [data_ro] address, which records the pair when the bucket is free (and
    the arrays exist or can be allocated) and records nothing when the
    bucket is occupied. *)
Theorem objc2_class_data_ro_on_miss image c (class : pl_objc2_class) :
  let dataPtr := N.ldiff (swap_pointer image (class_data_rw class)) 3 in
  let rw := data_rw_at image dataPtr in
  let ro_addr := swap_pointer image (rw_data_ro rw) in
  let class_ro_length := sizeof_class_data_ro image in
  cache_lookup c dataPtr = 0 ->
  plcrash_async_read_addr image dataPtr (sizeof_class_data_rw image)
  = PLCRASH_ESUCCESS ->
  (N.testbit (rw_flags rw) 31 = false ->
   forall (Ctx : Type) (cb : plcrash_async_objc_found_method_cb Ctx) isMeta x,
     pl_async_objc_parse_objc2_class vm_allocate cb image c class isMeta x
     = Returned (PLCRASH_ESUCCESS, c, x))
  /\ (N.testbit (rw_flags rw) 31 = true -> N.testbit (rw_flags rw) 27 = true ->
      objc2_class_data_ro vm_allocate image c dataPtr
      = match plcrash_async_read_addr image ro_addr class_ro_length with
        | PLCRASH_ESUCCESS =>
            RoPointer (Some (CopiedRO (data_ro_at image ro_addr)))
              (cache_set vm_allocate c dataPtr ro_addr)
        | _ => RoCleanup PLCRASH_ESUCCESS
        end)
  /\ (N.testbit (rw_flags rw) 31 = true -> N.testbit (rw_flags rw) 27 = false ->
      objc2_class_data_ro vm_allocate image c dataPtr
      = if plcrash_async_mobject_remap_address (objcConstMobj c)
             ro_addr 0 class_ro_length
        then RoPointer (Some (MappedRO ro_addr))
               (cache_set vm_allocate c dataPtr ro_addr)
        else RoCleanup PLCRASH_ESUCCESS)
  /\ (forall p c',
        objc2_class_data_ro vm_allocate image c dataPtr = RoPointer p c' ->
        c' = cache_set vm_allocate c dataPtr ro_addr
        /\ (forall (Ctx : Type) (cb : plcrash_async_objc_found_method_cb Ctx)
                   isMeta x,
              pl_async_objc_parse_objc2_class vm_allocate cb image c class isMeta x
              = objc2_class_methods cb image c' p isMeta x)
        /\ (class_cache_wf c -> bucket_key c dataPtr = 0 ->
            (classCacheKeys c <> None \/ vm_allocate 16384 = true) ->
            cache_lookup c' dataPtr = ro_addr)
        /\ (class_cache_wf c -> bucket_key c dataPtr <> 0 -> c' = c)).
Proof.
  intros dataPtr rw ro_addr class_ro_length Hmiss Hread.
  pose proof (objc2_class_data_ro_miss image c dataPtr Hmiss) as Hro.
  rewrite Hread in Hro. cbv zeta in Hro.
  fold rw ro_addr class_ro_length in Hro.
  split; [|split; [|split]].
  - intros Hunrealized Ctx cb isMeta x.
    unfold pl_async_objc_parse_objc2_class. fold dataPtr.
    rewrite Hro, Hunrealized. reflexivity.
  - intros Hrealized Hcopied. rewrite Hro, Hrealized, Hcopied. reflexivity.
  - intros Hrealized Hmapped. rewrite Hro, Hrealized, Hmapped. reflexivity.
  - intros p c' Hptr.
    assert (Hc' : c' = cache_set vm_allocate c dataPtr ro_addr).
    { rewrite Hro in Hptr.
      destruct (negb (N.testbit (rw_flags rw) 31)); [discriminate|].
      destruct (N.testbit (rw_flags rw) 27).
      - destruct (plcrash_async_read_addr image ro_addr class_ro_length);
          try discriminate.
        injection Hptr as _ <-. reflexivity.
      - destruct (plcrash_async_mobject_remap_address _ _ _ _); [|discriminate].
        injection Hptr as _ <-. reflexivity. }
    split; [exact Hc'|]. split; [|split].
    + intros Ctx cb isMeta x.
      unfold pl_async_objc_parse_objc2_class. fold dataPtr.
      rewrite Hptr. reflexivity.
    + intros Hwf Hfree Halloc. subst c'.
      apply cache_set_fresh_bucket; assumption.
    + intros Hwf Hocc. subst c'.
      apply cache_set_occupied_bucket; assumption.
Qed.

(** C3 (amended): at one turn of the class loop.  A class pointer that
    does not remap inside [__objc_data] ends the whole parse with the code
    carried so far.  For a class that remaps: an error code returned for
    the class ends the whole parse with that code; after a class that
    returned success, skipped or not, an [isa] that does not remap inside
    [__objc_data] ends the whole parse with success, and otherwise the
    metaclass is parsed; an error code returned for the metaclass ends the
    whole parse with that code; and once the class and its metaclass have
    returned success the loop goes on with the next class.  A failed read
    of [data_rw] on a cache miss is such an error code; a realized class
    whose class_ro cannot be copied (bit 27 set) or remapped (bit 27
    clear) on a cache miss is skipped with success and no callback. *)
Theorem objc2_class_failure_policy {Ctx : Type}
    (cb : plcrash_async_objc_found_method_cb Ctx) image todo i err c (x : Ctx) :
  let ptr :=
    swap_pointer image
      (pointer_at image
         (task_address (classMobj c) + i * sizeof_class_pointer image)) in
  let class := class_at image ptr in
  let isa := swap_pointer image (class_isa class) in
  let dataPtrOf (cls : pl_objc2_class) :=
    N.ldiff (swap_pointer image (class_data_rw cls)) 3 in
  (plcrash_async_mobject_remap_address (objcDataMobj c) ptr 0
     (sizeof_class image) = false ->
   objc2_class_loop vm_allocate cb image (S todo) i err c x
   = Returned (err, c, x))
  /\ (plcrash_async_mobject_remap_address (objcDataMobj c) ptr 0
        (sizeof_class image) = true ->
      (forall e c1 x1,
         pl_async_objc_parse_objc2_class vm_allocate cb image c class false x
         = Returned (e, c1, x1) ->
         e <> PLCRASH_ESUCCESS ->
         objc2_class_loop vm_allocate cb image (S todo) i err c x
         = Returned (e, c1, x1))
      /\ (forall c1 x1,
            pl_async_objc_parse_objc2_class vm_allocate cb image c class false x
            = Returned (PLCRASH_ESUCCESS, c1, x1) ->
            plcrash_async_mobject_remap_address (objcDataMobj c1) isa 0
              (sizeof_class image) = false ->
            objc2_class_loop vm_allocate cb image (S todo) i err c x
            = Returned (PLCRASH_ESUCCESS, c1, x1))
      /\ (forall c1 x1 e c2 x2,
            pl_async_objc_parse_objc2_class vm_allocate cb image c class false x
            = Returned (PLCRASH_ESUCCESS, c1, x1) ->
            plcrash_async_mobject_remap_address (objcDataMobj c1) isa 0
              (sizeof_class image) = true ->
            pl_async_objc_parse_objc2_class vm_allocate cb image c1
              (class_at image isa) true x1
            = Returned (e, c2, x2) ->
            e <> PLCRASH_ESUCCESS ->
            objc2_class_loop vm_allocate cb image (S todo) i err c x
            = Returned (e, c2, x2))
      /\ (forall c1 x1 c2 x2,
            pl_async_objc_parse_objc2_class vm_allocate cb image c class false x
            = Returned (PLCRASH_ESUCCESS, c1, x1) ->
            plcrash_async_mobject_remap_address (objcDataMobj c1) isa 0
              (sizeof_class image) = true ->
            pl_async_objc_parse_objc2_class vm_allocate cb image c1
              (class_at image isa) true x1
            = Returned (PLCRASH_ESUCCESS, c2, x2) ->
            objc2_class_loop vm_allocate cb image (S todo) i err c x
            = objc2_class_loop vm_allocate cb image todo (i + 1)
                PLCRASH_ESUCCESS c2 x2))
  /\ (forall cls isMeta e,
        cache_lookup c (dataPtrOf cls) = 0 ->
        plcrash_async_read_addr image (dataPtrOf cls) (sizeof_class_data_rw image)
        = e ->
        e <> PLCRASH_ESUCCESS ->
        pl_async_objc_parse_objc2_class vm_allocate cb image c cls isMeta x
        = Returned (e, c, x))
  /\ (forall cls isMeta,
        let rw := data_rw_at image (dataPtrOf cls) in
        let ro_addr := swap_pointer image (rw_data_ro rw) in
        cache_lookup c (dataPtrOf cls) = 0 ->
        plcrash_async_read_addr image (dataPtrOf cls) (sizeof_class_data_rw image)
        = PLCRASH_ESUCCESS ->
        N.testbit (rw_flags rw) 31 = true ->
        (if N.testbit (rw_flags rw) 27
         then plcrash_async_read_addr image ro_addr (sizeof_class_data_ro image)
              <> PLCRASH_ESUCCESS
         else plcrash_async_mobject_remap_address (objcConstMobj c) ro_addr 0
                (sizeof_class_data_ro image) = false) ->
        pl_async_objc_parse_objc2_class vm_allocate cb image c cls isMeta x
        = Returned (PLCRASH_ESUCCESS, c, x)).
Proof.
  intros ptr class isa dataPtrOf.
  split; [|split; [|split]].
  - intros Hremap. cbn [objc2_class_loop]. fold ptr. rewrite Hremap.
    reflexivity.
  - intros Hremap.
    assert (Hstep : objc2_class_loop vm_allocate cb image (S todo) i err c x
      = match pl_async_objc_parse_objc2_class vm_allocate cb image c class false x with
        | Returned (PLCRASH_ESUCCESS, c1, x1) =>
            if negb (plcrash_async_mobject_remap_address (objcDataMobj c1) isa 0
                       (sizeof_class image))
            then Returned (PLCRASH_ESUCCESS, c1, x1)
            else
              match pl_async_objc_parse_objc2_class vm_allocate cb image c1
                      (class_at image isa) true x1 with
              | Returned (PLCRASH_ESUCCESS, c2, x2) =>
                  objc2_class_loop vm_allocate cb image todo (i + 1)
                    PLCRASH_ESUCCESS c2 x2
              | stopped => stopped
              end
        | stopped => stopped
        end).
    { cbn [objc2_class_loop]. fold ptr. rewrite Hremap. reflexivity. }
    split; [|split; [|split]].
    + intros e c1 x1 Hclass Hne. rewrite Hstep, Hclass.
      destruct e; [contradiction Hne|..]; reflexivity.
    + intros c1 x1 Hclass Hisa. rewrite Hstep, Hclass, Hisa. reflexivity.
    + intros c1 x1 e c2 x2 Hclass Hisa Hmeta Hne.
      rewrite Hstep, Hclass, Hisa. cbn [negb]. rewrite Hmeta.
      destruct e; [contradiction Hne|..]; reflexivity.
    + intros c1 x1 c2 x2 Hclass Hisa Hmeta.
      rewrite Hstep, Hclass, Hisa. cbn [negb]. rewrite Hmeta. reflexivity.
  - intros cls isMeta e Hmiss Hread Hne.
    unfold pl_async_objc_parse_objc2_class. fold (dataPtrOf cls).
    rewrite objc2_class_data_ro_miss by exact Hmiss. rewrite Hread.
    destruct e; [contradiction Hne|..]; reflexivity.
  - intros cls isMeta rw ro_addr Hmiss Hread Hrealized Hfail.
    unfold pl_async_objc_parse_objc2_class. fold (dataPtrOf cls).
    rewrite objc2_class_data_ro_miss by exact Hmiss. rewrite Hread.
    cbv zeta. fold rw ro_addr. rewrite Hrealized. cbn [negb].
    destruct (N.testbit (rw_flags rw) 27).
    + destruct (plcrash_async_read_addr image ro_addr (sizeof_class_data_ro image));
        [contradiction Hfail|..]; reflexivity.
    + rewrite Hfail. reflexivity.
Qed.

End HostFacts.

(** ** The parser is parametric in its callback *)

Section Simulation.

Variable vm_allocate : N -> bool.
Context {Ctx1 Ctx2 : Type}.
Variable cb1 : plcrash_async_objc_found_method_cb Ctx1.
Variable cb2 : plcrash_async_objc_found_method_cb Ctx2.
Variable R : Ctx1 -> Ctx2 -> Prop.

Hypothesis cb_related :
  forall isMeta cls sel a x y, R x y -> R (cb1 isMeta cls sel a x) (cb2 isMeta cls sel a y).

Lemma objc2_method_loop_rel image mobj isMeta cls entsize todo :
  forall cursor err x y, R x y ->
    loop_rel R
      (objc2_method_loop cb1 image mobj isMeta cls entsize todo cursor err x)
      (objc2_method_loop cb2 image mobj isMeta cls entsize todo cursor err y).
Proof.
  induction todo as [|todo IH]; intros cursor err x y Hxy; cbn [objc2_method_loop].
  - cbn. auto.
  - destruct (negb (plcrash_async_mobject_remap_address _ _ 0 _)); [exact I|].
    destruct (plcrash_async_macho_string_init image _);
      solve [ apply IH, cb_related, Hxy | cbn; auto ].
Qed.

Lemma objc2_class_methods_rel image c p isMeta x y :
  R x y ->
  outcome_rel R (objc2_class_methods cb1 image c p isMeta x)
                (objc2_class_methods cb2 image c p isMeta y).
Proof.
  intros Hxy. unfold objc2_class_methods.
  destruct p as [p|]; [|exact I].
  destruct (plcrash_async_macho_string_init image _);
    try (cbn; auto; fail).
  destruct (_ =? 0); [cbn; auto|].
  destruct (negb (plcrash_async_mobject_remap_address _ _ 0 sizeof_list_header));
    [cbn; auto|].
  destruct (negb (plcrash_async_mobject_remap_address _ _ 0 _)); [cbn; auto|].
  match goal with
  | |- context [objc2_method_loop cb1 ?i ?mo ?m ?n ?e ?t ?s ?r x] =>
      pose proof (objc2_method_loop_rel i mo m n e t s r x y Hxy) as Hloop;
      destruct (objc2_method_loop cb1 i mo m n e t s r x) as [[e1 x1]| |];
      destruct (objc2_method_loop cb2 i mo m n e t s r y) as [[e2 x2]| |]
  end; cbn in Hloop; try contradiction; try exact I.
  cbn. destruct Hloop. auto.
Qed.

Lemma pl_async_objc_parse_objc2_class_rel image c class isMeta x y :
  R x y ->
  outcome_rel R
    (pl_async_objc_parse_objc2_class vm_allocate cb1 image c class isMeta x)
    (pl_async_objc_parse_objc2_class vm_allocate cb2 image c class isMeta y).
Proof.
  intros Hxy. unfold pl_async_objc_parse_objc2_class.
  destruct (objc2_class_data_ro vm_allocate image c _) as [err|p c'].
  - cbn. auto.
  - apply objc2_class_methods_rel, Hxy.
Qed.

Lemma objc2_class_loop_rel image todo :
  forall i err c x y, R x y ->
    outcome_rel R (objc2_class_loop vm_allocate cb1 image todo i err c x)
                  (objc2_class_loop vm_allocate cb2 image todo i err c y).
Proof.
  induction todo as [|todo IH]; intros i err c x y Hxy; cbn [objc2_class_loop].
  - cbn. auto.
  - destruct (negb (plcrash_async_mobject_remap_address _ _ 0 _)); [cbn; auto|].
    match goal with
    | |- context [pl_async_objc_parse_objc2_class vm_allocate cb1 ?im ?cc ?cl ?m x] =>
        pose proof (pl_async_objc_parse_objc2_class_rel im cc cl m x y Hxy) as H1;
        destruct (pl_async_objc_parse_objc2_class vm_allocate cb1 im cc cl m x)
          as [[[e1 c1] x1]| |];
        destruct (pl_async_objc_parse_objc2_class vm_allocate cb2 im cc cl m y)
          as [[[e2 c2] x2]| |]
    end; cbn in H1; try contradiction; [|exact I|exact I].
    destruct H1 as (<- & <- & Hx1).
    destruct e1; try (cbn; auto; fail).
    destruct (negb (plcrash_async_mobject_remap_address _ _ 0 _)); [cbn; auto|].
    match goal with
    | |- context [pl_async_objc_parse_objc2_class vm_allocate cb1 ?im ?cc ?cl ?m x1] =>
        pose proof (pl_async_objc_parse_objc2_class_rel im cc cl m x1 x2 Hx1) as H2;
        destruct (pl_async_objc_parse_objc2_class vm_allocate cb1 im cc cl m x1)
          as [[[e3 c3] x3]| |];
        destruct (pl_async_objc_parse_objc2_class vm_allocate cb2 im cc cl m x2)
          as [[[e4 c4] x4]| |]
    end; cbn in H2; try contradiction; [|exact I|exact I].
    destruct H2 as (<- & <- & Hx3).
    destruct e3; cbn; auto.
Qed.

Lemma pl_async_objc_parse_from_data_section_rel image c x y :
  R x y ->
  outcome_rel R
    (pl_async_objc_parse_from_data_section vm_allocate cb1 image c x)
    (pl_async_objc_parse_from_data_section vm_allocate cb2 image c y).
Proof.
  intros Hxy. unfold pl_async_objc_parse_from_data_section.
  destruct (map_sections image c) as [[] c']; try (cbn; auto; fail).
  destruct (negb (plcrash_async_mobject_remap_address _ _ 0 _)); [cbn; auto|].
  apply objc2_class_loop_rel, Hxy.
Qed.

Lemma pl_async_objc_parse_from_module_info_rel image x y :
  R x y ->
  fst (pl_async_objc_parse_from_module_info cb1 image x)
  = fst (pl_async_objc_parse_from_module_info cb2 image y)
  /\ R (snd (pl_async_objc_parse_from_module_info cb1 image x))
       (snd (pl_async_objc_parse_from_module_info cb2 image y)).
Proof.
  unfold pl_async_objc_parse_from_module_info.
  destruct (module_info_walk image) as [methods err]. cbn.
  revert x y. induction methods as [|m methods IH]; intros x y Hxy; cbn.
  - auto.
  - apply IH, cb_related, Hxy.
Qed.

Lemma plcrash_async_objc_parse_rel image cache x y :
  R x y ->
  fst (plcrash_async_objc_parse vm_allocate cb1 image cache x)
  = fst (plcrash_async_objc_parse vm_allocate cb2 image cache y)
  /\ outcome_rel R
       (snd (plcrash_async_objc_parse vm_allocate cb1 image cache x))
       (snd (plcrash_async_objc_parse vm_allocate cb2 image cache y)).
Proof.
  intros Hxy. unfold plcrash_async_objc_parse.
  destruct cache as [c|]; [|cbn; auto].
  assert (Hds : forall x' y', R x' y' ->
    outcome_rel R
      match pl_async_objc_parse_from_data_section vm_allocate cb1 image c x' with
      | Returned (PLCRASH_ESUCCESS, c0, ctx0) =>
          Returned (PLCRASH_ESUCCESS, Some (set_gotObjC2Info c0 true), ctx0)
      | Returned (err, c0, ctx0) => Returned (err, Some c0, ctx0)
      | NullDeref => NullDeref
      | OutOfBounds => OutOfBounds
      end
      match pl_async_objc_parse_from_data_section vm_allocate cb2 image c y' with
      | Returned (PLCRASH_ESUCCESS, c0, ctx0) =>
          Returned (PLCRASH_ESUCCESS, Some (set_gotObjC2Info c0 true), ctx0)
      | Returned (err, c0, ctx0) => Returned (err, Some c0, ctx0)
      | NullDeref => NullDeref
      | OutOfBounds => OutOfBounds
      end).
  { intros x' y' Hxy'.
    pose proof (pl_async_objc_parse_from_data_section_rel image c x' y' Hxy') as H.
    destruct (pl_async_objc_parse_from_data_section vm_allocate cb1 image c x')
      as [[[e1 c1] x1]| |];
    destruct (pl_async_objc_parse_from_data_section vm_allocate cb2 image c y')
      as [[[e2 c2] x2]| |]; cbn in H; try contradiction; [|exact I|exact I].
    destruct H as (<- & <- & Hx). destruct e1; cbn; auto. }
  destruct (negb (gotObjC2Info c)).
  - pose proof (pl_async_objc_parse_from_module_info_rel image x y Hxy) as [He Hr].
    destruct (pl_async_objc_parse_from_module_info cb1 image x) as [e1 x1].
    destruct (pl_async_objc_parse_from_module_info cb2 image y) as [e2 x2].
    cbn in He, Hr. subst e2.
    destruct e1; cbn [fst snd]; (split; [reflexivity|]);
      solve [ apply Hds, Hr | cbn; auto ].
  - cbn [fst snd]. split; [reflexivity|]. apply Hds, Hxy.
Qed.

End Simulation.

(** ** The two passes of [plcrash_async_objc_find_method] *)

Lemma best_match_cons ip m ms :
  best_match ip (m :: ms)
  = if imp m <=? ip then N.max (imp m) (best_match ip ms) else best_match ip ms.
Proof.
  unfold best_match. cbn [List.map List.filter].
  destruct (imp m <=? ip); reflexivity.
Qed.

Lemma best_match_le ip ms : best_match ip ms <= ip.
Proof.
  induction ms as [|m ms IH]; [cbn; lia|].
  rewrite best_match_cons.
  destruct (N.leb_spec (imp m) ip); lia.
Qed.

Lemma best_match_upper ip ms m :
  In m ms -> imp m <= ip -> imp m <= best_match ip ms.
Proof.
  induction ms as [|m' ms IH]; intros Hin Hle; [contradiction|].
  rewrite best_match_cons. destruct Hin as [->|Hin].
  - destruct (N.leb_spec (imp m) ip); lia.
  - specialize (IH Hin Hle). destruct (N.leb_spec (imp m') ip); lia.
Qed.

Lemma best_match_attained ip ms :
  best_match ip ms <> 0 ->
  exists m, In m ms /\ imp m = best_match ip ms /\ imp m <= ip.
Proof.
  induction ms as [|m ms IH]; intros Hnz; [contradiction Hnz; reflexivity|].
  rewrite best_match_cons in *.
  destruct (N.leb_spec (imp m) ip) as [Hle|Hgt].
  - destruct (N.max_spec (imp m) (best_match ip ms)) as [[Hlt Hmax]|[Hge Hmax]];
      rewrite Hmax in *.
    + destruct (IH Hnz) as (m' & Hin & Heq & Hle').
      exists m'. repeat split; [right; exact Hin|exact Heq|exact Hle'].
    + exists m. repeat split; [left; reflexivity|exact Hle].
  - destruct (IH Hnz) as (m' & Hin & Heq & Hle').
    exists m'. repeat split; [right; exact Hin|exact Heq|exact Hle'].
Qed.

Lemma search_callback_step s m :
  apply_callback pl_async_objc_find_method_search_callback s m
  = if (bestIMP s <=? imp m) && (imp m <=? searchIMP s)
    then {| searchIMP := searchIMP s; bestIMP := imp m |}
    else s.
Proof. reflexivity. Qed.

(** The search callback keeps [searchIMP] and moves [bestIMP] to the greatest
    admissible IMP seen so far. *)
Lemma search_callback_fold ip ms : forall s,
  searchIMP s = ip -> bestIMP s <= ip ->
  searchIMP (fold_left (apply_callback pl_async_objc_find_method_search_callback) ms s) = ip
  /\ bestIMP (fold_left (apply_callback pl_async_objc_find_method_search_callback) ms s)
     = N.max (bestIMP s) (best_match ip ms).
Proof.
  induction ms as [|m ms IH]; intros s Hs Hb; cbn [fold_left].
  - split; [exact Hs|]. cbn. lia.
  - rewrite best_match_cons, search_callback_step, Hs.
    destruct (N.leb_spec (bestIMP s) (imp m)) as [Hlo|Hlo];
      destruct (N.leb_spec (imp m) ip) as [Hhi|Hhi]; cbn [andb].
    + destruct (IH {| searchIMP := ip; bestIMP := imp m |} eq_refl Hhi) as [H1 H2].
      split; [exact H1|]. rewrite H2. cbn [bestIMP]. lia.
    + destruct (IH s Hs Hb) as [H1 H2]. split; [exact H1|exact H2].
    + destruct (IH s Hs Hb) as [H1 H2]. split; [exact H1|]. rewrite H2. lia.
    + destruct (IH s Hs Hb) as [H1 H2]. split; [exact H1|exact H2].
Qed.

Lemma call_callback_step {U : Type} target
    (outer : plcrash_async_objc_found_method_cb U) (u : U) m :
  apply_callback pl_async_objc_find_method_call_callback
    {| call_searchIMP := target; outerCallback := Some outer; outerCallbackCtx := u |}
    m
  = if imp m =? target
    then {| call_searchIMP := target; outerCallback := None;
            outerCallbackCtx := apply_callback outer u m |}
    else {| call_searchIMP := target; outerCallback := Some outer;
            outerCallbackCtx := u |}.
Proof. reflexivity. Qed.

(** Once the outer callback pointer is [NULL] the call callback is inert. *)
Lemma call_callback_fold_null {U : Type} target (u : U) ms :
  fold_left (apply_callback pl_async_objc_find_method_call_callback) ms
    {| call_searchIMP := target; outerCallback := None; outerCallbackCtx := u |}
  = {| call_searchIMP := target; outerCallback := None; outerCallbackCtx := u |}.
Proof. induction ms as [|m ms IH]; cbn; [reflexivity|exact IH]. Qed.

Lemma call_callback_fold {U : Type} target
    (outer : plcrash_async_objc_found_method_cb U) ms : forall u,
  fold_left (apply_callback pl_async_objc_find_method_call_callback) ms
    {| call_searchIMP := target; outerCallback := Some outer; outerCallbackCtx := u |}
  = match first_match target ms with
    | Some m =>
        {| call_searchIMP := target; outerCallback := None;
           outerCallbackCtx := apply_callback outer u m |}
    | None =>
        {| call_searchIMP := target; outerCallback := Some outer;
           outerCallbackCtx := u |}
    end.
Proof.
  induction ms as [|m ms IH]; intros u; [reflexivity|].
  cbn [fold_left first_match List.find].
  rewrite call_callback_step.
  destruct (imp m =? target).
  - apply call_callback_fold_null.
  - apply IH.
Qed.

Lemma first_match_record target ms :
  match first_match target ms with
  | Some m => apply_callback record_method [] m
  | None => []
  end
  = firstn 1 (List.filter (fun m => imp m =? target) ms).
Proof.
  induction ms as [|m ms IH]; [reflexivity|].
  cbn [first_match List.find List.filter].
  destruct (imp m =? target) eqn:Hm.
  - destruct m; reflexivity.
  - exact IH.
Qed.

Section Passes.

Variable vm_allocate : N -> bool.

(** Whatever the callback, a run of the parser is the run that records the
    emitted methods, followed by the callback applied to them in order. *)
Lemma plcrash_async_objc_parse_fold {Ctx : Type}
    (cb : plcrash_async_objc_found_method_cb Ctx) image cache ctx
    entered err cache' ms :
  plcrash_async_objc_parse vm_allocate record_method image cache []
  = (entered, Returned (err, cache', ms)) ->
  plcrash_async_objc_parse vm_allocate cb image cache ctx
  = (entered, Returned (err, cache', fold_left (apply_callback cb) ms ctx)).
Proof.
  intros Hrec.
  destruct (plcrash_async_objc_parse_rel vm_allocate record_method cb
              (fun seen x => x = fold_left (apply_callback cb) seen ctx))
    with (image := image) (cache := cache) (x := @nil found_method) (y := ctx)
    as [Hlog Hout].
  - intros isMeta cls sel a seen x ->. unfold record_method.
    rewrite fold_left_app. reflexivity.
  - reflexivity.
  - rewrite Hrec in Hlog, Hout. cbn [fst snd] in Hlog, Hout.
    destruct (plcrash_async_objc_parse vm_allocate cb image cache ctx)
      as [entered' [[[e c] x]| |]]; cbn in Hlog, Hout;
      [|contradiction|contradiction].
    destruct Hout as (<- & <- & ->). subst entered'. reflexivity.
Qed.

Abbreviation search_cb := pl_async_objc_find_method_search_callback.
Abbreviation call_cb := pl_async_objc_find_method_call_callback.

Lemma find_method_first_pass image cache ip entered err cache' ms :
  plcrash_async_objc_parse vm_allocate record_method image cache []
  = (entered, Returned (err, cache', ms)) ->
  let searched :=
    fold_left (apply_callback search_cb) ms {| searchIMP := ip; bestIMP := 0 |} in
  plcrash_async_objc_parse vm_allocate search_cb image cache
    {| searchIMP := ip; bestIMP := 0 |}
  = (entered, Returned (err, cache', searched))
  /\ bestIMP searched = best_match ip ms.
Proof.
  intros Hrec searched.
  split.
  - apply plcrash_async_objc_parse_fold, Hrec.
  - destruct (search_callback_fold ip ms {| searchIMP := ip; bestIMP := 0 |}
                eq_refl (N.le_0_l ip)) as [_ Hbest].
    fold searched in Hbest. cbn [bestIMP] in Hbest.
    rewrite N.max_0_l in Hbest. exact Hbest.
Qed.

(** C5: in the search pass, for the methods [ms] the parser emits, the
    resulting [bestIMP] is the greatest IMP among those not above the
    searched address (0 if there is none); it is itself not above that
    address and, when not 0, is the IMP of an emitted method; and when it
    is 0 after a successful parse, [plcrash_async_objc_find_method]
    returns [PLCRASH_ENOTFOUND] with the user's state untouched. *)
Theorem find_method_search_pass image cache ip entered err cache' ms :
  plcrash_async_objc_parse vm_allocate record_method image cache []
  = (entered, Returned (err, cache', ms)) ->
  let searched :=
    fold_left (apply_callback search_cb) ms {| searchIMP := ip; bestIMP := 0 |} in
  plcrash_async_objc_parse vm_allocate search_cb image cache
    {| searchIMP := ip; bestIMP := 0 |}
  = (entered, Returned (err, cache', searched))
  /\ bestIMP searched = best_match ip ms
  /\ bestIMP searched <= ip
  /\ (forall m, In m ms -> imp m <= ip -> imp m <= bestIMP searched)
  /\ (bestIMP searched <> 0 ->
      exists m, In m ms /\ imp m = bestIMP searched /\ imp m <= ip)
  /\ (err = PLCRASH_ESUCCESS -> bestIMP searched = 0 ->
      forall (U : Type) (callback : option (plcrash_async_objc_found_method_cb U))
             (ctx : U),
        plcrash_async_objc_find_method vm_allocate image cache ip callback ctx
        = Returned (PLCRASH_ENOTFOUND, cache', ctx)).
Proof.
  intros Hrec searched.
  destruct (find_method_first_pass image cache ip _ _ _ _ Hrec) as [Hrun Hbest].
  fold searched in Hrun, Hbest.
  split; [exact Hrun|]. split; [exact Hbest|]. rewrite Hbest.
  split; [apply best_match_le|].
  split; [intros m; apply best_match_upper|].
  split; [apply best_match_attained|].
  intros -> Hzero U callback ctx.
  unfold plcrash_async_objc_find_method. rewrite Hrun. cbn [snd].
  rewrite Hbest, Hzero. reflexivity.
Qed.

(** C10: in the call pass the user's callback runs at most once: the
    state behind the user's context is the callback applied to the first
    emitted method whose IMP is the target, the outer callback pointer is
    then [NULL], and later methods with that IMP change nothing; without
    such a method the state is untouched.  The invocations a recording
    user callback sees are the first match alone. *)
Theorem find_method_call_pass {U : Type} image cache target
    (outer : plcrash_async_objc_found_method_cb U) (uctx : U)
    entered err cache' ms :
  plcrash_async_objc_parse vm_allocate record_method image cache []
  = (entered, Returned (err, cache', ms)) ->
  let called :=
    fold_left (apply_callback call_cb) ms
      {| call_searchIMP := target; outerCallback := Some outer;
         outerCallbackCtx := uctx |} in
  plcrash_async_objc_parse vm_allocate call_cb image cache
    {| call_searchIMP := target; outerCallback := Some outer;
       outerCallbackCtx := uctx |}
  = (entered, Returned (err, cache', called))
  /\ match first_match target ms with
     | Some m =>
         outerCallbackCtx called = apply_callback outer uctx m
         /\ outerCallback called = None
     | None =>
         outerCallbackCtx called = uctx /\ outerCallback called = Some outer
     end
  /\ outerCallbackCtx
       (fold_left (apply_callback call_cb) ms
          {| call_searchIMP := target; outerCallback := Some record_method;
             outerCallbackCtx := [] |})
     = firstn 1 (List.filter (fun m => imp m =? target) ms)
  /\ (forall cache0 ip entered1 ms1,
        plcrash_async_objc_parse vm_allocate record_method image cache0 []
        = (entered1, Returned (PLCRASH_ESUCCESS, cache, ms1)) ->
        best_match ip ms1 = target -> target <> 0 ->
        plcrash_async_objc_find_method vm_allocate image cache0 ip
          (Some outer) uctx
        = Returned (err, cache', outerCallbackCtx called)).
Proof.
  intros Hrec called.
  pose proof (plcrash_async_objc_parse_fold call_cb image cache
                {| call_searchIMP := target; outerCallback := Some outer;
                   outerCallbackCtx := uctx |} _ _ _ _ Hrec) as Hrun.
  fold called in Hrun.
  split; [exact Hrun|]. split; [|split].
  - unfold called. rewrite call_callback_fold.
    destruct (first_match target ms); split; reflexivity.
  - rewrite call_callback_fold, <- first_match_record.
    destruct (first_match target ms); reflexivity.
  - intros cache0 ip entered1 ms1 Hrec1 Hbest Hnz.
    destruct (find_method_first_pass image cache0 ip _ _ _ _ Hrec1) as [Hrun1 Hb1].
    unfold plcrash_async_objc_find_method. rewrite Hrun1. cbn [snd].
    rewrite Hb1, Hbest.
    destruct (N.eqb_spec target 0) as [Hz|_]; [contradiction|].
    rewrite Hrun. reflexivity.
Qed.

End Passes.

(** ** [gotObjC2Info] along a capture *)

Lemma cache_store_gotObjC2Info c key value :
  gotObjC2Info (cache_store c key value) = gotObjC2Info c.
Proof. unfold cache_store. destruct (_ =? 0); reflexivity. Qed.

Lemma map_sections_gotObjC2Info image c :
  gotObjC2Info (snd (map_sections image c)) = gotObjC2Info c.
Proof.
  unfold map_sections. destruct (decide _); [reflexivity|].
  destruct (plcrash_async_macho_map_section image kDataSegmentName
              kObjCConstSectionName) as [[] m1]; try reflexivity.
  destruct (plcrash_async_macho_map_section image kDataSegmentName
              kClassListSectionName) as [[] m2]; try reflexivity.
  destruct (plcrash_async_macho_map_section image kDataSegmentName
              kObjCDataSectionName) as [[] m3]; reflexivity.
Qed.

Lemma objc2_class_methods_context {Ctx : Type}
    (cb : plcrash_async_objc_found_method_cb Ctx) image c p isMeta x e c' x' :
  objc2_class_methods cb image c p isMeta x = Returned (e, c', x') -> c' = c.
Proof.
  unfold objc2_class_methods.
  destruct p as [p|]; [|discriminate].
  destruct (plcrash_async_macho_string_init image _); try congruence.
  destruct (_ =? 0); [congruence|].
  destruct (negb _); [congruence|].
  destruct (negb _); [congruence|].
  destruct (objc2_method_loop _ _ _ _ _ _ _ _ _ _) as [[e1 x1]| |];
    congruence.
Qed.

Section Capture.

Variable vm_allocate : N -> bool.

Lemma cache_set_gotObjC2Info c key value :
  gotObjC2Info (cache_set vm_allocate c key value) = gotObjC2Info c.
Proof.
  unfold cache_set. destruct (classCacheKeys c).
  - apply cache_store_gotObjC2Info.
  - destruct (vm_allocate _); [|reflexivity].
    rewrite cache_store_gotObjC2Info. reflexivity.
Qed.

Lemma objc2_class_data_ro_gotObjC2Info image c dataPtr p c' :
  objc2_class_data_ro vm_allocate image c dataPtr = RoPointer p c' ->
  gotObjC2Info c' = gotObjC2Info c.
Proof.
  unfold objc2_class_data_ro.
  destruct (cache_lookup c dataPtr =? 0).
  - destruct (plcrash_async_read_addr image dataPtr _); try discriminate.
    destruct (N.land _ RW_REALIZED =? 0); [discriminate|].
    destruct (negb _).
    + destruct (plcrash_async_read_addr image _ _); try discriminate.
      intros [= _ <-]. apply cache_set_gotObjC2Info.
    + destruct (plcrash_async_mobject_remap_address _ _ _ _); [|discriminate].
      intros [= _ <-]. apply cache_set_gotObjC2Info.
  - destruct (plcrash_async_mobject_remap_address _ _ _ _).
    + intros [= _ <-]. reflexivity.
    + destruct (plcrash_async_read_addr image _ _); intros [= _ <-]; reflexivity.
Qed.

Section OneCallback.

Context {Ctx : Type}.
Variable cb : plcrash_async_objc_found_method_cb Ctx.

Lemma pl_async_objc_parse_objc2_class_gotObjC2Info image c class isMeta x e c' x' :
  pl_async_objc_parse_objc2_class vm_allocate cb image c class isMeta x
  = Returned (e, c', x') ->
  gotObjC2Info c' = gotObjC2Info c.
Proof.
  unfold pl_async_objc_parse_objc2_class.
  destruct (objc2_class_data_ro vm_allocate image c _) as [err|p c1] eqn:Hro.
  - intros [= _ <- _]. reflexivity.
  - intros Hm. apply objc2_class_methods_context in Hm. subst c'.
    eapply objc2_class_data_ro_gotObjC2Info, Hro.
Qed.

Lemma objc2_class_loop_gotObjC2Info image todo : forall i err c x e c' x',
  objc2_class_loop vm_allocate cb image todo i err c x = Returned (e, c', x') ->
  gotObjC2Info c' = gotObjC2Info c.
Proof.
  induction todo as [|todo IH]; intros i err c x e c' x'; cbn [objc2_class_loop].
  - intros [= _ <- _]. reflexivity.
  - destruct (negb _); [intros [= _ <- _]; reflexivity|].
    destruct (pl_async_objc_parse_objc2_class vm_allocate cb image c _ false x)
      as [[[e1 c1] x1]| |] eqn:H1; [|discriminate|discriminate].
    apply pl_async_objc_parse_objc2_class_gotObjC2Info in H1.
    destruct e1; try (intros [= _ <- _]; exact H1).
    destruct (negb _); [intros [= _ <- _]; exact H1|].
    destruct (pl_async_objc_parse_objc2_class vm_allocate cb image c1 _ true x1)
      as [[[e2 c2] x2]| |] eqn:H2; [|discriminate|discriminate].
    apply pl_async_objc_parse_objc2_class_gotObjC2Info in H2.
    destruct e2; try (intros [= _ <- _]; congruence).
    intros Hloop. apply IH in Hloop. congruence.
Qed.

Lemma pl_async_objc_parse_from_data_section_gotObjC2Info image c x e c' x' :
  pl_async_objc_parse_from_data_section vm_allocate cb image c x
  = Returned (e, c', x') ->
  gotObjC2Info c' = gotObjC2Info c.
Proof.
  unfold pl_async_objc_parse_from_data_section.
  pose proof (map_sections_gotObjC2Info image c) as Hmap.
  destruct (map_sections image c) as [e0 c0]. cbn [snd] in Hmap.
  destruct e0; try (intros [= _ <- _]; exact Hmap).
  destruct (negb _); [intros [= _ <- _]; exact Hmap|].
  intros Hloop. apply objc2_class_loop_gotObjC2Info in Hloop. congruence.
Qed.

(** One call: which parsers it enters, and what it leaves in the flag. *)
Lemma plcrash_async_objc_parse_call image c x :
  let run := plcrash_async_objc_parse vm_allocate cb image (Some c) x in
  fst run
  = (if gotObjC2Info c then [ObjC2]
     else ObjC1 :: match snd (module_info_walk image) with
                   | PLCRASH_ENOTFOUND => [ObjC2]
                   | _ => []
                   end)
  /\ forall e oc x', snd run = Returned (e, oc, x') ->
       exists c', oc = Some c'
         /\ gotObjC2Info c'
            = gotObjC2Info c || (entered_objc2 (fst run) && is_success e).
Proof.
  unfold plcrash_async_objc_parse.
  assert (Hds : forall entered y e oc x',
    match pl_async_objc_parse_from_data_section vm_allocate cb image c y with
    | Returned (PLCRASH_ESUCCESS, c0, ctx0) =>
        Returned (PLCRASH_ESUCCESS, Some (set_gotObjC2Info c0 true), ctx0)
    | Returned (err, c0, ctx0) => Returned (err, Some c0, ctx0)
    | NullDeref => NullDeref
    | OutOfBounds => OutOfBounds
    end = Returned (e, oc, x') ->
    exists c', oc = Some c'
      /\ gotObjC2Info c'
         = gotObjC2Info c || (entered_objc2 (entered ++ [ObjC2]) && is_success e)).
  { intros entered y e oc x'.
    assert (Hin : entered_objc2 (entered ++ [ObjC2]) = true).
    { unfold entered_objc2. rewrite existsb_app. cbn. apply orb_true_r. }
    rewrite Hin.
    destruct (pl_async_objc_parse_from_data_section vm_allocate cb image c y)
      as [[[e1 c1] x1]| |] eqn:Hrun; [|discriminate|discriminate].
    apply pl_async_objc_parse_from_data_section_gotObjC2Info in Hrun.
    destruct e1; intros [= <- <- _]; eexists; (split; [reflexivity|]);
      cbn; rewrite ?Hrun, ?orb_true_r, ?orb_false_r; reflexivity. }
  destruct (gotObjC2Info c) eqn:Hgot; cbn [negb].
  - cbn [fst snd app]. split; [reflexivity|].
    intros e oc x' Hret. destruct (Hds [] x e oc x' Hret) as (c' & -> & Hc').
    exists c'. split; [reflexivity|]. rewrite Hc'. reflexivity.
  - unfold pl_async_objc_parse_from_module_info.
    destruct (module_info_walk image) as [methods err1]. cbn [snd].
    destruct err1; cbn [fst snd app]; (split; [reflexivity|]);
      intros e oc x' Hret;
      solve [ injection Hret as <- <- _; exists c; split; [reflexivity|];
              rewrite Hgot; reflexivity
            | destruct (Hds [ObjC1] _ e oc x' Hret) as (c' & -> & Hc');
              exists c'; split; [reflexivity|]; rewrite Hc'; reflexivity ].
Qed.

End OneCallback.

Abbreviation run_request request c :=
  (plcrash_async_objc_parse vm_allocate (req_callback request)
     (req_image request) (Some c) (req_ctx request)).

Lemma parse_calls_unfold request rest c :
  parse_calls vm_allocate (request :: rest) c
  = {| call_image := req_image request; got_before := gotObjC2Info c;
       call_entered := fst (run_request request c);
       call_returned := forget_ctx (snd (run_request request c)) |}
    :: match snd (run_request request c) with
       | Returned (_, Some c', _) => parse_calls vm_allocate rest c'
       | _ => []
       end.
Proof.
  cbn [parse_calls]. destruct (run_request request c). reflexivity.
Qed.

Ltac abstract_run request c Hcall :=
  pose proof (plcrash_async_objc_parse_call (req_callback request)
                (req_image request) c (req_ctx request)) as Hcall;
  cbv zeta in Hcall;
  set (run := run_request request c) in *;
  clearbody run; destruct run as [entered returned]; cbn [fst snd] in *.

(** What holds of every call of a capture, by itself. *)
Lemma parse_calls_each requests : forall c call,
  In call (parse_calls vm_allocate requests c) ->
  call_entered call
  = (if got_before call then [ObjC2]
     else ObjC1 :: match snd (module_info_walk (call_image call)) with
                   | PLCRASH_ENOTFOUND => [ObjC2]
                   | _ => []
                   end)
  /\ forall e c', call_returned call = Returned (e, Some c') ->
       gotObjC2Info c' = got_before call || objc2_succeeded call.
Proof.
  induction requests as [|request rest IH]; intros c call Hin; [contradiction|].
  rewrite parse_calls_unfold in Hin.
  abstract_run request c Hcall. destruct Hcall as [Hent Hret].
  destruct Hin as [<-|Hin].
  - cbn [call_entered got_before call_image call_returned].
    split; [exact Hent|].
    intros e c' Hr.
    destruct returned as [[[e1 oc1] x1]| |]; [|discriminate|discriminate].
    injection Hr as -> ->.
    destruct (Hret _ _ _ eq_refl) as (c1 & [= <-] & Hflag).
    rewrite Hflag. unfold objc2_succeeded.
    cbn [call_returned call_entered forget_ctx].
    destruct e; cbn [is_success]; rewrite ?andb_true_r, ?andb_false_r; reflexivity.
  - destruct returned as [[[e [c1|]] x1]| |]; try contradiction.
    apply (IH c1 call Hin).
Qed.

(** From a cache with the flag set, every later call finds it set. *)
Lemma parse_calls_flag_stays requests : forall c call,
  gotObjC2Info c = true ->
  In call (parse_calls vm_allocate requests c) ->
  got_before call = true.
Proof.
  induction requests as [|request rest IH]; intros c call Hgot Hin; [contradiction|].
  rewrite parse_calls_unfold in Hin.
  abstract_run request c Hcall. destruct Hcall as [_ Hret].
  destruct Hin as [<-|Hin]; [exact Hgot|].
  destruct returned as [[[e [c1|]] x1]| |]; try contradiction.
  destruct (Hret _ _ _ eq_refl) as (c2 & [= <-] & Hflag).
  rewrite Hgot in Hflag. apply (IH c1 call Hflag Hin).
Qed.

Lemma parse_calls_later requests : forall c i j (calli callj : parse_call),
  (i < j)%nat ->
  parse_calls vm_allocate requests c !! i = Some calli ->
  parse_calls vm_allocate requests c !! j = Some callj ->
  (got_before calli = true \/ objc2_succeeded calli = true) ->
  got_before callj = true.
Proof.
  induction requests as [|request rest IH]; intros c i j calli callj Hij Hi Hj Hset;
    [discriminate|].
  rewrite parse_calls_unfold in Hi, Hj.
  abstract_run request c Hcall. destruct Hcall as [_ Hret].
  destruct j as [|j]; [lia|]. cbn [lookup list_lookup] in Hj.
  destruct i as [|i].
  - injection Hi as <-.
    unfold objc2_succeeded in Hset.
    cbn [got_before call_returned call_entered] in Hset.
    destruct returned as [[[e [c1|]] x1]| |]; try discriminate.
    destruct (Hret _ _ _ eq_refl) as (c2 & [= <-] & Hflag).
    apply list_elem_of_lookup_2, list_elem_of_In in Hj.
    apply (parse_calls_flag_stays rest c1 callj); [|exact Hj].
    rewrite Hflag. destruct Hset as [->|Hs]; [reflexivity|].
    cbn [forget_ctx] in Hs.
    destruct e; try discriminate. cbn [is_success].
    rewrite Hs. apply orb_true_r.
  - cbn [lookup list_lookup] in Hi.
    destruct returned as [[[e [c1|]] x1]| |]; try discriminate.
    apply (IH c1 i j calli callj); [lia|exact Hi|exact Hj|exact Hset].
Qed.


End Capture.

(** *** Concrete instances for the Objective-C parser *)

Lemma sample_run_ok :
  plcrash_async_objc_parse vm_grant record_method sample_image_ok
    (Some plcrash_async_objc_cache_init) []
  = ([ObjC1; ObjC2],
     Returned (PLCRASH_ESUCCESS, cache_after_sample_run,
               [method_A1; method_A2; method_B1])).
Proof. vm_compute. reflexivity. Defined.

(** The read of class A's [data_rw] fails: the loop over the two classes
    stops with that code and emits nothing, whereas going on with the next
    class would have emitted the method of class B. *)
Lemma objc2_failed_read_ends_parse :
  ~ failed_class_is_skipped vm_grant record_method sample_image_rw_unreadable
      1 0 (mapped_cache sample_image_rw_unreadable) [].
Proof.
  intros Hclaim.
  assert (Hloop := Hclaim PLCRASH_ENOTFOUND
                     (mapped_cache sample_image_rw_unreadable) []).
  assert (Hgoes :
    objc2_class_loop vm_grant record_method sample_image_rw_unreadable 2 0
      PLCRASH_ESUCCESS (mapped_cache sample_image_rw_unreadable) []
    = objc2_class_loop vm_grant record_method sample_image_rw_unreadable 1 (0 + 1)
        PLCRASH_ESUCCESS (mapped_cache sample_image_rw_unreadable) []).
  { apply Hloop; [vm_compute; reflexivity|discriminate]. }
  vm_compute in Hgoes. discriminate Hgoes.
Qed.

(** With class A unreadable the whole class list yields no method, though
    class B alone parses to its method. *)
Lemma objc2_failed_read_loses_later_classes :
  pl_async_objc_parse_from_data_section vm_grant record_method
    sample_image_rw_unreadable plcrash_async_objc_cache_init []
  = Returned (PLCRASH_ENOTFOUND, mapped_cache sample_image_rw_unreadable, [])
  /\ exists c',
       objc2_class_loop vm_grant record_method sample_image_rw_unreadable 1 1
         PLCRASH_ESUCCESS (mapped_cache sample_image_rw_unreadable) []
       = Returned (PLCRASH_ESUCCESS, c', [method_B1]).
Proof.
  split; [vm_compute; reflexivity|].
  eexists. vm_compute. reflexivity.
Qed.

(** Class B's heap class_ro cannot be copied: class B is skipped with
    success and nothing is emitted for it.  And in the image with class B
    first and every [isa] outside [__objc_data], class B is skipped and the
    parse of the two classes ends there with success: class A, which has two
    methods, is not visited. *)
Lemma objc2_class_failure_policy_witness :
  let image := sample_image_ro_unreadable in
  let c := mapped_cache image in
  let image2 := sample_image_isa_outside in
  let c2 := mapped_cache image2 in
  plcrash_async_mobject_remap_address (objcDataMobj c) 0x2100 0 (sizeof_class image)
  = true
  /\ pl_async_objc_parse_objc2_class vm_grant record_method image c
       (class_at image 0x2100) false []
     = Returned (PLCRASH_ESUCCESS, c, [])
  /\ plcrash_async_mobject_remap_address (objcDataMobj c2) 0x8000 0
       (sizeof_class image2) = false
  /\ objc2_class_loop vm_grant record_method image2 2 0 PLCRASH_ESUCCESS c2 []
     = Returned (PLCRASH_ESUCCESS, c2, []).
Proof.
  intros image c image2 c2.
  assert (Hremap :
    plcrash_async_mobject_remap_address (objcDataMobj c)
      (swap_pointer image
         (pointer_at image (task_address (classMobj c) + 1 * sizeof_class_pointer image)))
      0 (sizeof_class image) = true) by (vm_compute; reflexivity).
  split; [exact Hremap|].
  destruct (objc2_class_failure_policy vm_grant record_method image 0 1
              PLCRASH_ESUCCESS c []) as (_ & _ & _ & Hskip).
  split.
  { apply Hskip.
    - vm_compute. reflexivity.
    - vm_compute. reflexivity.
    - vm_compute. reflexivity.
    - vm_compute. discriminate. }
  split; [vm_compute; reflexivity|].
  destruct (objc2_class_failure_policy vm_grant record_method image2 1 0
              PLCRASH_ESUCCESS c2 []) as (_ & Hremapped & _).
  destruct Hremapped as (_ & Hisa & _); [vm_compute; reflexivity|].
  apply Hisa; vm_compute; reflexivity.
Defined.

(** The bucket of 0x5000 is held by 0x6000: class A resolves to its mapped
    class_ro, but nothing is recorded and a lookup still misses. *)
Lemma objc2_resolved_ro_not_cached :
  ~ resolved_data_ro_is_cached vm_grant sample_image_ok cache_bucket_taken 0x5000.
Proof.
  intros Hclaim.
  assert (Hhit := Hclaim eq_refl (MappedRO 0x3000) cache_bucket_taken).
  assert (Hcached : cache_lookup cache_bucket_taken 0x5000 = 0x3000).
  { apply Hhit. vm_compute. reflexivity. }
  vm_compute in Hcached. discriminate Hcached.
Qed.

Lemma objc2_class_data_ro_on_miss_witness :
  let image := sample_image_ok in
  let c := mapped_cache image in
  cache_lookup c 0x5100 = 0
  /\ plcrash_async_read_addr image 0x5100 (sizeof_class_data_rw image)
     = PLCRASH_ESUCCESS
  /\ objc2_class_data_ro vm_grant image c 0x5100
     = RoPointer (Some (CopiedRO (data_ro_at image 0x9000)))
         (cache_set vm_grant c 0x5100 0x9000).
Proof.
  intros image c.
  split; [reflexivity|]. split; [reflexivity|].
  destruct (objc2_class_data_ro_on_miss vm_grant image c (class_at image 0x2100))
    as (_ & Hcopied & _).
  - vm_compute. reflexivity.
  - vm_compute. reflexivity.
  - apply Hcopied; vm_compute; reflexivity.
Defined.

(** Bucket 0 holds (0x5000, 0x3000): a later [cache_set] of 0x5000 with
    another value is dropped, and the lookup answers the earlier value. *)
Lemma cache_set_same_key_keeps_old_value :
  ~ set_then_lookup_unless_other_key vm_grant cache_with_A 0x5000 0x4444.
Proof.
  intros Hclaim.
  assert (Hnew : cache_lookup (cache_set vm_grant cache_with_A 0x5000 0x4444) 0x5000
                 = 0x4444).
  { apply Hclaim.
    - vm_compute. repeat split; reflexivity.
    - left. discriminate.
    - intros [_ Hother]. apply Hother. vm_compute. reflexivity. }
  vm_compute in Hnew. discriminate Hnew.
Qed.

Lemma cache_set_first_writer_wins_witness :
  class_cache_wf plcrash_async_objc_cache_init
  /\ cache_lookup (cache_set vm_grant plcrash_async_objc_cache_init 0x5000 0x3000)
       0x5000
     = 0x3000.
Proof.
  assert (Hwf : class_cache_wf plcrash_async_objc_cache_init) by reflexivity.
  split; [exact Hwf|].
  destruct (cache_set_first_writer_wins vm_grant plcrash_async_objc_cache_init
              0x5000 0x3000 Hwf) as (Hfresh & _).
  apply Hfresh; [reflexivity|right; reflexivity].
Defined.

Lemma find_method_search_pass_witness :
  plcrash_async_objc_parse vm_grant record_method sample_image_ok
    (Some plcrash_async_objc_cache_init) []
  = ([ObjC1; ObjC2],
     Returned (PLCRASH_ESUCCESS, cache_after_sample_run,
               [method_A1; method_A2; method_B1]))
  /\ bestIMP
       (fold_left (apply_callback pl_async_objc_find_method_search_callback)
          [method_A1; method_A2; method_B1]
          {| searchIMP := 0x10050; bestIMP := 0 |})
     = 0x10040.
Proof.
  split; [exact sample_run_ok|].
  destruct (find_method_search_pass vm_grant sample_image_ok
              (Some plcrash_async_objc_cache_init) 0x10050 _ _ _ _ sample_run_ok)
    as (_ & Hbest & _).
  rewrite Hbest. reflexivity.
Defined.

Lemma find_method_call_pass_witness :
  plcrash_async_objc_parse vm_grant record_method sample_image_ok
    (Some plcrash_async_objc_cache_init) []
  = ([ObjC1; ObjC2],
     Returned (PLCRASH_ESUCCESS, cache_after_sample_run,
               [method_A1; method_A2; method_B1]))
  /\ outerCallbackCtx
       (fold_left (apply_callback pl_async_objc_find_method_call_callback)
          [method_A1; method_A2; method_B1]
          {| call_searchIMP := 0x10040; outerCallback := Some record_method;
             outerCallbackCtx := [] |})
     = [method_A2].
Proof.
  split; [exact sample_run_ok|].
  destruct (find_method_call_pass vm_grant sample_image_ok
              (Some plcrash_async_objc_cache_init) 0x10040 record_method []
              _ _ _ _ sample_run_ok)
    as (_ & _ & Honce & _).
  rewrite Honce. reflexivity.
Defined.

(** ** More on the class cache *)

Lemma cache_lookup_unallocated c key :
  class_cache_wf c -> classCacheKeys c = None -> cache_lookup c key = 0.
Proof.
  intros Hwf Hk.
  destruct (class_cache_wf_inv c Hwf) as [(_ & _ & Hs)|(? & ? & Hk' & _)];
    [|congruence].
  unfold cache_lookup. rewrite Hs. reflexivity.
Qed.

Lemma cache_lookup_allocated c key :
  class_cache_wf c -> classCacheKeys c <> None ->
  cache_lookup c key
  = if bucket_key c key =? key then bucket_value c key else 0.
Proof.
  intros Hwf Hk.
  destruct (class_cache_wf_inv c Hwf)
    as [(Hk' & _)|(keys & values & _ & _ & Hs & _)]; [contradiction|].
  unfold cache_lookup, cache_index, bucket_key, bucket_value.
  rewrite Hs. reflexivity.
Qed.

(** The buckets after the tail of [cache_set] has run. *)
Lemma cache_store_buckets c key value key' :
  class_cache_wf c -> classCacheKeys c <> None ->
  let taken :=
    (bucket_key c key =? 0) && (bucket_index key =? bucket_index key') in
  bucket_key (cache_store c key value) key'
  = (if taken then key else bucket_key c key')
  /\ bucket_value (cache_store c key value) key'
     = (if taken then value else bucket_value c key').
Proof.
  intros Hwf Hsome.
  destruct (class_cache_wf_inv c Hwf)
    as [(Hk & _)|(keys & values & Hk & Hv & Hs & Hlk & Hlv)]; [contradiction|].
  unfold cache_store, cache_index. rewrite Hs. fold (bucket_index key).
  fold (bucket_key c key).
  destruct (bucket_key c key =? 0); cbn [andb]; [|split; reflexivity].
  unfold bucket_key, bucket_value. cbn. rewrite Hk, Hv. cbn.
  pose proof (bucket_index_lt key) as Hlt.
  rewrite !list_lookup_total_insert.
  destruct (N.eqb_spec (bucket_index key) (bucket_index key')) as [Heq|Hne].
  - rewrite <- Heq. rewrite !decide_True by (split; [reflexivity|lia]).
    split; reflexivity.
  - rewrite !decide_False by (intros [H _]; apply Hne, N2Nat.inj, H).
    split; reflexivity.
Qed.

Lemma cache_store_allocated c key value :
  classCacheKeys c <> None -> classCacheKeys (cache_store c key value) <> None.
Proof.
  intros Hk. unfold cache_store. destruct (_ =? 0); [|exact Hk].
  cbn. destruct (classCacheKeys c); [discriminate|contradiction].
Qed.

(** What a lookup finds after the tail of [cache_set] has run. *)
Lemma cache_store_lookup_any c key value key' :
  class_cache_wf c -> classCacheKeys c <> None ->
  cache_lookup (cache_store c key value) key'
  = if (bucket_key c key =? 0) && (bucket_index key =? bucket_index key')
    then (if key =? key' then value else 0)
    else cache_lookup c key'.
Proof.
  intros Hwf Hsome.
  rewrite cache_lookup_allocated
    by (apply cache_store_wf || apply cache_store_allocated; assumption).
  destruct (cache_store_buckets c key value key' Hwf Hsome) as [Hbk Hbv].
  cbv zeta in Hbk, Hbv. rewrite Hbk, Hbv.
  destruct ((bucket_key c key =? 0) && (bucket_index key =? bucket_index key'));
    [reflexivity|].
  symmetry. apply cache_lookup_allocated; assumption.
Qed.

Lemma zeroed_cache_wf c :
  class_cache_wf
    (set_classCacheArrays (set_classCacheSize c 1024)
       (Some (replicate (N.to_nat 1024) 0)) (Some (replicate (N.to_nat 1024) 0))).
Proof.
  unfold class_cache_wf. cbn. rewrite !length_replicate.
  repeat split; reflexivity.
Qed.

Lemma zeroed_cache_empty c :
  cache_empty
    (set_classCacheArrays (set_classCacheSize c 1024)
       (Some (replicate (N.to_nat 1024) 0)) (Some (replicate (N.to_nat 1024) 0))).
Proof.
  intros key. rewrite cache_lookup_allocated by (apply zeroed_cache_wf || discriminate).
  unfold bucket_value. cbn.
  rewrite lookup_total_replicate_2 by apply (bucket_index_lt key).
  destruct (_ =? key); reflexivity.
Qed.

Section CacheRuns.

Variable vm_allocate : N -> bool.

(** After [cache_set] a lookup of any key finds what it found before, or
    nothing, or, for the key just set, the value just set. *)
Lemma cache_set_lookup_cases c key value key' :
  class_cache_wf c ->
  cache_lookup (cache_set vm_allocate c key value) key' = cache_lookup c key'
  \/ cache_lookup (cache_set vm_allocate c key value) key' = 0
  \/ (key' = key /\ cache_lookup (cache_set vm_allocate c key value) key' = value).
Proof.
  intros Hwf.
  assert (Hstore : forall c0, class_cache_wf c0 -> classCacheKeys c0 <> None ->
    cache_lookup (cache_store c0 key value) key' = cache_lookup c0 key'
    \/ cache_lookup (cache_store c0 key value) key' = 0
    \/ (key' = key /\ cache_lookup (cache_store c0 key value) key' = value)).
  { intros c0 Hwf0 Hk0. rewrite cache_store_lookup_any by assumption.
    destruct ((bucket_key c0 key =? 0) && (bucket_index key =? bucket_index key'));
      [|left; reflexivity].
    destruct (N.eqb_spec key key') as [->|_]; [right; right|right; left]; auto. }
  unfold cache_set. destruct (classCacheKeys c) as [keys|] eqn:Hk.
  - apply Hstore; [exact Hwf|congruence].
  - destruct (vm_allocate _).
    + destruct (Hstore _ (zeroed_cache_wf c) ltac:(discriminate))
        as [H|[H|H]]; [|right; left; exact H|right; right; exact H].
      right. left. rewrite H. apply zeroed_cache_empty.
    + right. left. apply cache_lookup_unallocated; [|exact Hk].
      destruct (class_cache_wf_inv c Hwf) as [(_ & Hv & _)|(? & ? & Hk' & _)];
        [|congruence].
      unfold class_cache_wf. cbn. rewrite Hk, Hv. reflexivity.
Qed.

Lemma cache_set_all_wf pairs : forall c,
  class_cache_wf c -> class_cache_wf (cache_set_all vm_allocate pairs c).
Proof.
  induction pairs as [|[k v] pairs IH]; intros c Hwf; [exact Hwf|].
  apply IH, cache_set_wf, Hwf.
Qed.

(** X7: the cache answers only what was put into it: from a cache in which no
    key is found, after any run of [cache_set] calls a lookup that returns a
    non-zero value returns the value of one of those calls for that very
    key. *)
Theorem cache_lookup_returns_stored_pair pairs c key :
  class_cache_wf c -> cache_empty c ->
  cache_lookup (cache_set_all vm_allocate pairs c) key <> 0 ->
  In (key, cache_lookup (cache_set_all vm_allocate pairs c) key) pairs.
Proof.
  intros Hwf Hempty.
  assert (Hgen : forall pairs seen c0,
    class_cache_wf c0 ->
    (forall k, cache_lookup c0 k <> 0 -> In (k, cache_lookup c0 k) seen) ->
    cache_lookup (cache_set_all vm_allocate pairs c0) key <> 0 ->
    In (key, cache_lookup (cache_set_all vm_allocate pairs c0) key) (seen ++ pairs)).
  { clear. induction pairs as [|[k v] pairs IH]; intros seen c0 Hwf0 Hinv Hnz.
    - rewrite app_nil_r. apply Hinv, Hnz.
    - cbn [cache_set_all fold_left fst snd] in *.
      change (fold_left _ pairs ?c1) with (cache_set_all vm_allocate pairs c1) in *.
      replace (seen ++ (k, v) :: pairs) with ((seen ++ [(k, v)]) ++ pairs)
        by (rewrite <- app_assoc; reflexivity).
      apply IH; [apply cache_set_wf, Hwf0| |exact Hnz].
      intros k' Hk'. apply in_or_app.
      destruct (cache_set_lookup_cases c0 k v k' Hwf0) as [H|[H|[-> H]]].
      + left. rewrite H in *. apply Hinv, Hk'.
      + contradiction.
      + right. rewrite H. left. reflexivity. }
  intros Hnz. apply (Hgen pairs [] c Hwf); [|exact Hnz].
  intros k Hk. contradiction Hk. apply Hempty.
Qed.

(** X8: no eviction: once a lookup of a non-zero key finds a non-zero value,
    every later run of [cache_set] calls, whatever its keys and values,
    leaves that lookup as it is. *)
Theorem cache_entry_never_evicted pairs : forall c key,
  class_cache_wf c -> key <> 0 -> cache_lookup c key <> 0 ->
  cache_lookup (cache_set_all vm_allocate pairs c) key = cache_lookup c key.
Proof.
  induction pairs as [|[k v] pairs IH]; intros c key Hwf Hkey Hfound;
    [reflexivity|].
  cbn [cache_set_all fold_left fst snd].
  change (fold_left _ pairs ?c1) with (cache_set_all vm_allocate pairs c1).
  assert (Hsome : classCacheKeys c <> None).
  { intros Hnone. apply Hfound, cache_lookup_unallocated; assumption. }
  assert (Hstep : cache_lookup (cache_set vm_allocate c k v) key = cache_lookup c key).
  { rewrite cache_set_allocated by exact Hsome.
    rewrite cache_store_lookup_any by assumption.
    destruct (N.eqb_spec (bucket_key c k) 0) as [Hfree|_]; [|reflexivity].
    destruct (N.eqb_spec (bucket_index k) (bucket_index key)) as [Hsame|_];
      [|reflexivity].
    exfalso. rewrite cache_lookup_allocated in Hfound by assumption.
    unfold bucket_key in Hfree, Hfound. rewrite Hsame in Hfree.
    rewrite Hfree in Hfound.
    destruct (N.eqb_spec 0 key) as [Hz|_]; [congruence|].
    apply Hfound. reflexivity. }
  rewrite IH; [exact Hstep|apply cache_set_wf, Hwf|exact Hkey|].
  rewrite Hstep. exact Hfound.
Qed.

End CacheRuns.

(** ** The class cache is only a hint *)

Lemma same_sections_refl c : same_sections c c.
Proof. unfold same_sections. repeat split; reflexivity. Qed.

Lemma same_sections_trans a b c :
  same_sections a b -> same_sections b c -> same_sections a c.
Proof.
  unfold same_sections.
  intros (H1 & H2 & H3 & H4 & H5 & H6 & H7) (K1 & K2 & K3 & K4 & K5 & K6 & K7).
  repeat split; congruence.
Qed.

Lemma same_sections_sym a b : same_sections a b -> same_sections b a.
Proof.
  unfold same_sections. intros (H1 & H2 & H3 & H4 & H5 & H6 & H7).
  repeat split; congruence.
Qed.

Lemma cache_store_sections c key value :
  same_sections c (cache_store c key value).
Proof.
  unfold cache_store. destruct (_ =? 0); [|apply same_sections_refl].
  unfold same_sections. repeat split; reflexivity.
Qed.

Lemma with_cache_returned {Ctx : Type} c
    (o : outcome (plcrash_error_t * Ctx)) e c' x :
  with_cache c o = Returned (e, c', x) -> o = Returned (e, x) /\ c' = c.
Proof.
  destruct o as [[e0 x0]| |]; cbn [with_cache]; [|discriminate|discriminate].
  intros [= -> -> ->]. split; reflexivity.
Qed.

Lemma objc2_method_loop_no_null {Ctx : Type}
    (cb : plcrash_async_objc_found_method_cb Ctx)
    image mobj isMeta cls entsize todo :
  forall cursor err x,
    objc2_method_loop cb image mobj isMeta cls entsize todo cursor err x
    <> NullDeref.
Proof.
  induction todo as [|todo IH]; intros cursor err x; cbn [objc2_method_loop].
  - discriminate.
  - destruct (negb _); [discriminate|].
    destruct (plcrash_async_macho_string_init image _);
      solve [ apply IH | discriminate ].
Qed.

Lemma objc2_methods_of_no_null {Ctx : Type}
    (cb : plcrash_async_objc_found_method_cb Ctx) image mobj ro isMeta x :
  objc2_methods_of cb image mobj ro isMeta x <> NullDeref.
Proof.
  unfold objc2_methods_of.
  destruct (plcrash_async_macho_string_init image _); try discriminate.
  destruct (_ =? 0); [discriminate|].
  destruct (negb _); [discriminate|].
  destruct (negb _); [discriminate|].
  apply objc2_method_loop_no_null.
Qed.

Lemma objc2_class_methods_of {Ctx : Type}
    (cb : plcrash_async_objc_found_method_cb Ctx) image c q isMeta x :
  objc2_class_methods cb image c (Some q) isMeta x
  = with_cache c
      (objc2_methods_of cb image (objcConstMobj c) (class_ro_deref image q)
         isMeta x).
Proof.
  unfold objc2_class_methods, objc2_methods_of.
  destruct (plcrash_async_macho_string_init image _); try reflexivity.
  destruct (_ =? 0); [reflexivity|].
  destruct (negb _); [reflexivity|].
  destruct (negb _); [reflexivity|].
  destruct (objc2_method_loop _ _ _ _ _ _ _ _ _ _) as [[e1 x1]| |];
    reflexivity.
Qed.

Lemma objc2_class_uncached_no_null {Ctx : Type}
    (cb : plcrash_async_objc_found_method_cb Ctx) image mobj class isMeta x :
  objc2_class_uncached cb image mobj class isMeta x <> NullDeref.
Proof.
  unfold objc2_class_uncached.
  destruct (resolve_uncached image mobj _); [discriminate|].
  apply objc2_methods_of_no_null.
Qed.

Lemma objc2_class_loop_uncached_no_null {Ctx : Type}
    (cb : plcrash_async_objc_found_method_cb Ctx)
    image classMobj objcDataMobj objcConstMobj todo :
  forall i err x,
    objc2_class_loop_uncached cb image classMobj objcDataMobj objcConstMobj
      todo i err x <> NullDeref.
Proof.
  induction todo as [|todo IH]; intros i err x;
    cbn [objc2_class_loop_uncached].
  - discriminate.
  - destruct (negb _); [discriminate|].
    match goal with
    | |- context [objc2_class_uncached cb image objcConstMobj ?cl false x] =>
        pose proof (objc2_class_uncached_no_null cb image objcConstMobj cl
                      false x) as H1;
        destruct (objc2_class_uncached cb image objcConstMobj cl false x)
          as [[e1 x1]| |]
    end; [|contradiction|discriminate].
    destruct e1; try discriminate.
    destruct (negb _); [discriminate|].
    match goal with
    | |- context [objc2_class_uncached cb image objcConstMobj ?cl true x1] =>
        pose proof (objc2_class_uncached_no_null cb image objcConstMobj cl
                      true x1) as H2;
        destruct (objc2_class_uncached cb image objcConstMobj cl true x1)
          as [[e2 x2]| |]
    end; [|contradiction|discriminate].
    destruct e2; solve [ apply IH | discriminate ].
Qed.

Lemma data_section_uncached_no_null {Ctx : Type}
    (cb : plcrash_async_objc_found_method_cb Ctx) image mapped x :
  data_section_uncached cb image mapped x <> NullDeref.
Proof.
  unfold data_section_uncached. destruct mapped as [[] sections];
    try discriminate.
  destruct (negb _); [discriminate|].
  apply objc2_class_loop_uncached_no_null.
Qed.

Section Hint.

Variable vm_allocate : N -> bool.

Lemma cache_set_sections c key value :
  same_sections c (cache_set vm_allocate c key value).
Proof.
  unfold cache_set. destruct (classCacheKeys c).
  - apply cache_store_sections.
  - destruct (vm_allocate _).
    + eapply same_sections_trans; [|apply cache_store_sections].
      unfold same_sections. repeat split; reflexivity.
    + unfold same_sections. repeat split; reflexivity.
Qed.

(** Setting a pair the miss path has just resolved keeps every cached pair
    one the miss path would produce again. *)
Lemma cache_set_entries_valid image c key value :
  class_cache_wf c -> entries_valid image c ->
  entry_ok image (objcConstMobj c) key value ->
  entries_valid image (cache_set vm_allocate c key value).
Proof.
  intros Hwf Hvalid Hnew key'.
  destruct (cache_set_sections c key value) as (_ & <- & _).
  destruct (cache_set_lookup_cases vm_allocate c key value key' Hwf)
    as [H|[H|[-> H]]]; rewrite H.
  - apply Hvalid.
  - left. reflexivity.
  - exact Hnew.
Qed.

(** With every cached pair valid, the resolution of a class's [data_rw] ends
    as the miss path alone would have it, hit or miss, and never in a [NULL]
    class_ro pointer. *)
Lemma objc2_class_data_ro_valid image c dataPtr :
  class_cache_wf c -> entries_valid image c ->
  match objc2_class_data_ro vm_allocate image c dataPtr with
  | RoCleanup err => resolve_uncached image (objcConstMobj c) dataPtr = inl err
  | RoPointer p c' =>
      exists q, p = Some q
        /\ resolve_uncached image (objcConstMobj c) dataPtr
           = inr (class_ro_deref image q)
        /\ class_cache_wf c' /\ entries_valid image c'
        /\ same_sections c c' /\ gotObjC2Info c' = gotObjC2Info c
  end.
Proof.
  intros Hwf Hvalid.
  destruct (N.eqb_spec (cache_lookup c dataPtr) 0) as [Hmiss|Hhit].
  - rewrite objc2_class_data_ro_miss by exact Hmiss.
    unfold resolve_uncached. cbv zeta.
    destruct (plcrash_async_read_addr image dataPtr (sizeof_class_data_rw image))
      eqn:Hread; try reflexivity.
    destruct (N.testbit (rw_flags (data_rw_at image dataPtr)) 31) eqn:H31;
      cbn [negb]; [|reflexivity].
    assert (Hstore : forall q,
      (if N.testbit (rw_flags (data_rw_at image dataPtr)) 27
       then plcrash_async_read_addr image
              (swap_pointer image (rw_data_ro (data_rw_at image dataPtr)))
              (sizeof_class_data_ro image) = PLCRASH_ESUCCESS
       else plcrash_async_mobject_remap_address (objcConstMobj c)
              (swap_pointer image (rw_data_ro (data_rw_at image dataPtr))) 0
              (sizeof_class_data_ro image) = true) ->
      class_ro_deref image q
      = data_ro_at image (swap_pointer image (rw_data_ro (data_rw_at image dataPtr))) ->
      exists q0, Some q = Some q0
        /\ @inr plcrash_error_t pl_objc2_class_data_ro
             (data_ro_at image
                (swap_pointer image (rw_data_ro (data_rw_at image dataPtr))))
           = inr (class_ro_deref image q0)
        /\ class_cache_wf
             (cache_set vm_allocate c dataPtr
                (swap_pointer image (rw_data_ro (data_rw_at image dataPtr))))
        /\ entries_valid image
             (cache_set vm_allocate c dataPtr
                (swap_pointer image (rw_data_ro (data_rw_at image dataPtr))))
        /\ same_sections c
             (cache_set vm_allocate c dataPtr
                (swap_pointer image (rw_data_ro (data_rw_at image dataPtr))))
        /\ gotObjC2Info
             (cache_set vm_allocate c dataPtr
                (swap_pointer image (rw_data_ro (data_rw_at image dataPtr))))
           = gotObjC2Info c).
    { intros q Hcond Hderef. exists q. split; [reflexivity|].
      split; [rewrite Hderef; reflexivity|].
      split; [apply cache_set_wf, Hwf|].
      split; [|split; [apply cache_set_sections|apply cache_set_gotObjC2Info]].
      apply cache_set_entries_valid; [exact Hwf|exact Hvalid|].
      right. repeat split; assumption. }
    destruct (N.testbit (rw_flags (data_rw_at image dataPtr)) 27) eqn:H27.
    + destruct (plcrash_async_read_addr image _ (sizeof_class_data_ro image))
        eqn:Hro; try reflexivity.
      apply Hstore; reflexivity.
    + destruct (plcrash_async_mobject_remap_address _ _ 0 _) eqn:Hro;
        [|reflexivity].
      apply Hstore; reflexivity.
  - unfold objc2_class_data_ro.
    destruct (N.eqb_spec (cache_lookup c dataPtr) 0) as [|_]; [contradiction|].
    destruct (Hvalid dataPtr) as [Hzero|(Hread & H31 & Haddr & Hcond)];
      [contradiction|].
    assert (Hres : resolve_uncached image (objcConstMobj c) dataPtr
                   = inr (data_ro_at image (cache_lookup c dataPtr))).
    { unfold resolve_uncached. rewrite Hread. cbv zeta. rewrite H31. cbn [negb].
      rewrite <- Haddr.
      destruct (N.testbit (rw_flags (data_rw_at image dataPtr)) 27);
        rewrite Hcond; reflexivity. }
    assert (Hrest : forall q,
      class_ro_deref image q = data_ro_at image (cache_lookup c dataPtr) ->
      exists q0, Some q = Some q0
        /\ resolve_uncached image (objcConstMobj c) dataPtr
           = inr (class_ro_deref image q0)
        /\ class_cache_wf c /\ entries_valid image c
        /\ same_sections c c /\ gotObjC2Info c = gotObjC2Info c).
    { intros q Hq. exists q. rewrite Hq.
      repeat split; try assumption; apply same_sections_refl. }
    destruct (plcrash_async_mobject_remap_address _ _ 0 _) eqn:Hremap.
    + apply Hrest. reflexivity.
    + destruct (N.testbit (rw_flags (data_rw_at image dataPtr)) 27);
        [|congruence].
      rewrite Hcond. apply Hrest. reflexivity.
Qed.

Section OneCallbackHint.

Context {Ctx : Type}.
Variable cb : plcrash_async_objc_found_method_cb Ctx.

(** One class, hit or miss, comes out as the cache-free reading of it. *)
Lemma pl_async_objc_parse_objc2_class_valid image c class isMeta x :
  class_cache_wf c -> entries_valid image c ->
  exists c',
    pl_async_objc_parse_objc2_class vm_allocate cb image c class isMeta x
    = with_cache c'
        (objc2_class_uncached cb image (objcConstMobj c) class isMeta x)
    /\ class_cache_wf c' /\ entries_valid image c'
    /\ same_sections c c' /\ gotObjC2Info c' = gotObjC2Info c.
Proof.
  intros Hwf Hvalid.
  unfold pl_async_objc_parse_objc2_class, objc2_class_uncached.
  pose proof (objc2_class_data_ro_valid image c
                (N.ldiff (swap_pointer image (class_data_rw class)) 3)
                Hwf Hvalid) as Hro.
  destruct (objc2_class_data_ro vm_allocate image c _) as [err|p c1].
  - rewrite Hro. exists c. repeat split; try assumption; apply same_sections_refl.
  - destruct Hro as (q & -> & Hres & Hwf1 & Hvalid1 & Hsame & Hgot).
    rewrite Hres, objc2_class_methods_of.
    destruct Hsame as (Hs1 & Hs2 & Hs).
    exists c1. rewrite <- Hs2.
    repeat split; try assumption; apply Hs.
Qed.

Lemma objc2_class_loop_valid image todo : forall i err c x,
  class_cache_wf c -> entries_valid image c ->
  exists c',
    objc2_class_loop vm_allocate cb image todo i err c x
    = with_cache c'
        (objc2_class_loop_uncached cb image (classMobj c) (objcDataMobj c)
           (objcConstMobj c) todo i err x)
    /\ class_cache_wf c' /\ entries_valid image c'
    /\ same_sections c c' /\ gotObjC2Info c' = gotObjC2Info c.
Proof.
  induction todo as [|todo IH]; intros i err c x Hwf Hvalid;
    cbn [objc2_class_loop objc2_class_loop_uncached].
  - exists c. repeat split; try assumption; apply same_sections_refl.
  - destruct (negb (plcrash_async_mobject_remap_address _ _ 0 _)).
    { exists c. repeat split; try assumption; apply same_sections_refl. }
    match goal with
    | |- context [pl_async_objc_parse_objc2_class vm_allocate cb image c ?cl false x] =>
        destruct (pl_async_objc_parse_objc2_class_valid image c cl false x Hwf Hvalid)
          as (c1 & -> & Hwf1 & Hvalid1 & Hsame1 & Hgot1);
        destruct (objc2_class_uncached cb image (objcConstMobj c) cl false x)
          as [[e1 x1]| |]
    end; cbn [with_cache];
      try (exists c1; repeat split; try assumption; apply Hsame1).
    destruct e1;
      try (exists c1; repeat split; try assumption; apply Hsame1).
    pose proof Hsame1 as (_ & Hconst & _ & Hclass & _ & Hdata & _).
    rewrite <- Hdata.
    destruct (negb (plcrash_async_mobject_remap_address _ _ 0 _)).
    { exists c1. repeat split; try assumption; apply Hsame1. }
    match goal with
    | |- context [pl_async_objc_parse_objc2_class vm_allocate cb image c1 ?cl true x1] =>
        destruct (pl_async_objc_parse_objc2_class_valid image c1 cl true x1 Hwf1 Hvalid1)
          as (c2 & -> & Hwf2 & Hvalid2 & Hsame2 & Hgot2);
        rewrite <- Hconst;
        destruct (objc2_class_uncached cb image (objcConstMobj c) cl true x1)
          as [[e2 x2]| |]
    end; cbn [with_cache];
      (assert (Hsame : same_sections c c2)
         by (eapply same_sections_trans; eassumption));
      try (exists c2; repeat split; try assumption; try apply Hsame; congruence).
    destruct e2;
      try (exists c2; repeat split; try assumption; try apply Hsame; congruence).
    destruct (IH (i + 1) PLCRASH_ESUCCESS c2 x2 Hwf2 Hvalid2)
      as (c3 & -> & Hwf3 & Hvalid3 & Hsame3 & Hgot3).
    pose proof Hsame as (_ & Hconst2 & _ & Hclass2 & _ & Hdata2 & _).
    rewrite <- Hconst2, <- Hclass2, <- Hdata2.
    exists c3. split; [reflexivity|].
    repeat split; try assumption; try congruence;
      apply (same_sections_trans _ _ _ Hsame Hsame3).
Qed.

End OneCallbackHint.

End Hint.

(** *** [map_sections] and the class list as a whole *)

Lemma map_sections_class_cache image c :
  classCacheSize (snd (map_sections image c)) = classCacheSize c
  /\ classCacheKeys (snd (map_sections image c)) = classCacheKeys c
  /\ classCacheValues (snd (map_sections image c)) = classCacheValues c.
Proof.
  unfold map_sections. destruct (decide _); [auto|].
  destruct (plcrash_async_macho_map_section image kDataSegmentName
              kObjCConstSectionName) as [[] m1]; auto.
  destruct (plcrash_async_macho_map_section image kDataSegmentName
              kClassListSectionName) as [[] m2]; auto.
  destruct (plcrash_async_macho_map_section image kDataSegmentName
              kObjCDataSectionName) as [[] m3]; auto.
Qed.

Lemma map_sections_lookup image c key :
  cache_lookup (snd (map_sections image c)) key = cache_lookup c key.
Proof.
  destruct (map_sections_class_cache image c) as (Hs & Hk & Hv).
  unfold cache_lookup, cache_index. rewrite Hs, Hk, Hv. reflexivity.
Qed.

Lemma map_sections_wf image c :
  class_cache_wf c -> class_cache_wf (snd (map_sections image c)).
Proof.
  destruct (map_sections_class_cache image c) as (Hs & Hk & Hv).
  unfold class_cache_wf. rewrite Hs, Hk, Hv. auto.
Qed.

Lemma map_sections_again image c :
  lastImage c = Some (macho_self image) ->
  map_sections image c = (PLCRASH_ESUCCESS, c).
Proof.
  intros H. unfold map_sections. rewrite decide_True by exact H. reflexivity.
Qed.

Lemma map_sections_success image c :
  fst (map_sections image c) = PLCRASH_ESUCCESS ->
  lastImage (snd (map_sections image c)) = Some (macho_self image).
Proof.
  unfold map_sections. destruct (decide _) as [Heq|_]; [intros _; exact Heq|].
  destruct (plcrash_async_macho_map_section image kDataSegmentName
              kObjCConstSectionName) as [[] m1]; try discriminate.
  destruct (plcrash_async_macho_map_section image kDataSegmentName
              kClassListSectionName) as [[] m2]; try discriminate.
  destruct (plcrash_async_macho_map_section image kDataSegmentName
              kObjCDataSectionName) as [[] m3]; try discriminate.
  reflexivity.
Qed.

Lemma cache_empty_entries_valid image c : cache_empty c -> entries_valid image c.
Proof. intros Hempty key. left. apply Hempty. Qed.

Lemma cache_empty_fits image c :
  class_cache_wf c -> cache_empty c -> cache_fits image c.
Proof.
  intros Hwf Hempty. split; [exact Hwf|].
  apply cache_empty_entries_valid. intros key.
  rewrite map_sections_lookup. apply Hempty.
Qed.

Section WholeList.

Variable vm_allocate : N -> bool.

(** A run over the class list from a cache that fits the image ends as the
    cache-free reading of the list ends; the cache it leaves fits the image
    again and records the image when the code is success. *)
Lemma pl_async_objc_parse_from_data_section_valid {Ctx : Type}
    (cb : plcrash_async_objc_found_method_cb Ctx) image c x :
  cache_fits image c ->
  exists c',
    pl_async_objc_parse_from_data_section vm_allocate cb image c x
    = with_cache c' (data_section_uncached cb image (map_sections image c) x)
    /\ class_cache_wf c' /\ entries_valid image c'
    /\ same_sections (snd (map_sections image c)) c'
    /\ gotObjC2Info c' = gotObjC2Info c.
Proof.
  intros [Hwf Hvalid].
  unfold pl_async_objc_parse_from_data_section, data_section_uncached.
  pose proof (map_sections_wf image c Hwf) as Hwfm.
  pose proof (map_sections_gotObjC2Info image c) as Hgotm.
  destruct (map_sections image c) as [e cm]. cbn [snd] in *.
  destruct e;
    try (exists cm; repeat split; try assumption; apply same_sections_refl).
  destruct (negb (plcrash_async_mobject_remap_address _ _ 0 _)).
  { exists cm. repeat split; try assumption; apply same_sections_refl. }
  destruct (objc2_class_loop_valid vm_allocate cb image
              (N.to_nat ((mobject_length (classMobj cm)
                          / sizeof_class_pointer image) mod 2 ^ 32))
              0 PLCRASH_ESUCCESS cm x Hwfm Hvalid)
    as (c' & -> & Hwf' & Hvalid' & Hsame & Hgot).
  exists c'. repeat split; try assumption; try apply Hsame. congruence.
Qed.

Lemma cache_fits_after image c c' :
  class_cache_wf c' -> entries_valid image c' ->
  same_sections (snd (map_sections image c)) c' ->
  fst (map_sections image c) = PLCRASH_ESUCCESS ->
  cache_fits image c' /\ map_sections image c' = (PLCRASH_ESUCCESS, c').
Proof.
  intros Hwf Hvalid Hsame Hok.
  assert (Hlast : lastImage c' = Some (macho_self image)).
  { destruct Hsame as (<- & _). apply map_sections_success, Hok. }
  pose proof (map_sections_again image c' Hlast) as Hagain.
  split; [|exact Hagain]. split; [exact Hwf|]. rewrite Hagain. exact Hvalid.
Qed.

End WholeList.

Lemma map_sections_same image c1 c2 :
  same_sections c1 c2 ->
  fst (map_sections image c1) = fst (map_sections image c2)
  /\ same_sections (snd (map_sections image c1)) (snd (map_sections image c2)).
Proof.
  intros Hsame. pose proof Hsame as (Hlast & Hconst & Hci & Hclass & Hli & Hdata & Hdi).
  unfold map_sections. rewrite <- Hlast.
  destruct (decide (lastImage c1 = Some (macho_self image)));
    [split; [reflexivity|exact Hsame]|].
  destruct (plcrash_async_macho_map_section image kDataSegmentName
              kObjCConstSectionName) as [[] m1];
    try (split; [reflexivity|unfold same_sections; cbn; repeat split; assumption]).
  destruct (plcrash_async_macho_map_section image kDataSegmentName
              kClassListSectionName) as [[] m2];
    try (split; [reflexivity|unfold same_sections; cbn; repeat split; assumption]).
  destruct (plcrash_async_macho_map_section image kDataSegmentName
              kObjCDataSectionName) as [[] m3];
    split; try reflexivity; unfold same_sections; cbn; repeat split; assumption.
Qed.

Lemma data_section_uncached_same {Ctx : Type}
    (cb : plcrash_async_objc_found_method_cb Ctx) image m1 m2 x :
  fst m1 = fst m2 -> same_sections (snd m1) (snd m2) ->
  data_section_uncached cb image m1 x = data_section_uncached cb image m2 x.
Proof.
  destruct m1 as [e1 s1], m2 as [e2 s2]. cbn [fst snd].
  intros -> (_ & Hconst & _ & Hclass & _ & Hdata & _).
  unfold data_section_uncached. rewrite Hconst, Hclass, Hdata. reflexivity.
Qed.

(** X10: the cache is only a hint.  From two caches that fit the image and
    agree on the mapped sections, under two allocators that may grant or
    refuse as they like, the two ObjC2 parses of the image end the same
    way: both return, with the same code and the same callback state, or
    both read a method structure outside [__objc_const]; neither
    dereferences a [NULL] class_ro pointer. *)
Theorem objc2_parse_needs_no_cache {Ctx : Type}
    (vm_allocate other_vm_allocate : N -> bool)
    (cb : plcrash_async_objc_found_method_cb Ctx) image c1 c2 x :
  cache_fits image c1 -> cache_fits image c2 -> same_sections c1 c2 ->
  same_result
    (pl_async_objc_parse_from_data_section vm_allocate cb image c1 x)
    (pl_async_objc_parse_from_data_section other_vm_allocate cb image c2 x).
Proof.
  intros Hfit1 Hfit2 Hsame.
  destruct (pl_async_objc_parse_from_data_section_valid vm_allocate
              cb image c1 x Hfit1) as (c1' & Hrun1 & _).
  destruct (pl_async_objc_parse_from_data_section_valid other_vm_allocate
              cb image c2 x Hfit2) as (c2' & Hrun2 & _).
  destruct (map_sections_same image c1 c2 Hsame) as [He Hs].
  rewrite <- (data_section_uncached_same cb image _ _ x He Hs) in Hrun2.
  rewrite Hrun1, Hrun2.
  pose proof (data_section_uncached_no_null cb image (map_sections image c1) x)
    as Hnull.
  destruct (data_section_uncached cb image (map_sections image c1) x)
    as [[e x']| |]; cbn [with_cache same_result];
    [split; reflexivity|contradiction|exact I].
Qed.

Section Again.

Variable vm_allocate : N -> bool.

Lemma set_gotObjC2Info_fits image c b :
  class_cache_wf c -> entries_valid image c ->
  lastImage c = Some (macho_self image) ->
  cache_fits image (set_gotObjC2Info c b).
Proof.
  intros Hwf Hvalid Hlast. split; [exact Hwf|].
  rewrite map_sections_again by exact Hlast. exact Hvalid.
Qed.

(** A run over the class list that ended in success, run again from any
    fitting cache with the sections the first run left, ends in success
    with the same callback state. *)
Lemma pl_async_objc_parse_from_data_section_again {Ctx : Type}
    (cb : plcrash_async_objc_found_method_cb Ctx) image c x c1 x1 c1' :
  cache_fits image c ->
  pl_async_objc_parse_from_data_section vm_allocate cb image c x
  = Returned (PLCRASH_ESUCCESS, c1, x1) ->
  class_cache_wf c1' -> entries_valid image c1' -> same_sections c1 c1' ->
  class_cache_wf c1 /\ entries_valid image c1
  /\ lastImage c1 = Some (macho_self image)
  /\ exists c2,
       pl_async_objc_parse_from_data_section vm_allocate cb image c1' x
       = Returned (PLCRASH_ESUCCESS, c2, x1)
       /\ class_cache_wf c2 /\ entries_valid image c2
       /\ lastImage c2 = Some (macho_self image).
Proof.
  intros Hfit Hrun Hwf1' Hvalid1' Hsame'.
  destruct (pl_async_objc_parse_from_data_section_valid vm_allocate
              cb image c x Hfit)
    as (c0 & Hrun' & Hwf1 & Hvalid1 & Hsame1 & _).
  rewrite Hrun in Hrun'. symmetry in Hrun'.
  apply with_cache_returned in Hrun'. destruct Hrun' as [Hu ->].
  assert (Hok : fst (map_sections image c) = PLCRASH_ESUCCESS).
  { revert Hu. unfold data_section_uncached.
    destruct (map_sections image c) as [[] cm]; cbn; congruence. }
  assert (Hlast1 : lastImage c0 = Some (macho_self image)).
  { destruct Hsame1 as (<- & _). apply map_sections_success, Hok. }
  split; [exact Hwf1|]. split; [exact Hvalid1|]. split; [exact Hlast1|].
  assert (Hlast1' : lastImage c1' = Some (macho_self image)).
  { destruct Hsame' as (<- & _). exact Hlast1. }
  pose proof (map_sections_again image c1' Hlast1') as Hagain.
  assert (Hfit1' : cache_fits image c1').
  { split; [exact Hwf1'|]. rewrite Hagain. exact Hvalid1'. }
  destruct (pl_async_objc_parse_from_data_section_valid vm_allocate
              cb image c1' x Hfit1')
    as (c2 & Hrun2 & Hwf2 & Hvalid2 & Hsame2 & _).
  exists c2.
  assert (Hsame_result :
    data_section_uncached cb image (map_sections image c1') x
    = data_section_uncached cb image (map_sections image c) x).
  { apply data_section_uncached_same; rewrite Hagain; cbn [fst snd].
    - symmetry. exact Hok.
    - apply same_sections_sym.
      eapply same_sections_trans; [exact Hsame1|exact Hsame']. }
  rewrite Hsame_result, Hu in Hrun2. cbn [with_cache] in Hrun2.
  split; [exact Hrun2|]. split; [exact Hwf2|]. split; [exact Hvalid2|].
  rewrite Hagain in Hsame2. cbn [snd] in Hsame2.
  destruct Hsame2 as (<- & _). exact Hlast1'.
Qed.

(** X11: parsing the class list again with the cache the first run left
    gives the same code and the same callback state: the pairs cached on the
    way reproduce what the miss path found. *)
Theorem objc2_parse_again_same {Ctx : Type}
    (cb : plcrash_async_objc_found_method_cb Ctx) image c x c1 x1 :
  cache_fits image c ->
  pl_async_objc_parse_from_data_section vm_allocate cb image c x
  = Returned (PLCRASH_ESUCCESS, c1, x1) ->
  cache_fits image c1
  /\ exists c2,
       pl_async_objc_parse_from_data_section vm_allocate cb image c1 x
       = Returned (PLCRASH_ESUCCESS, c2, x1).
Proof.
  intros Hfit Hrun.
  destruct (pl_async_objc_parse_from_data_section_valid vm_allocate
              cb image c x Hfit) as (c0 & Hrun' & Hwf0 & Hvalid0 & _).
  rewrite Hrun in Hrun'. symmetry in Hrun'.
  apply with_cache_returned in Hrun'. destruct Hrun' as [_ <-].
  destruct (pl_async_objc_parse_from_data_section_again cb image c x c1 x1 c1
              Hfit Hrun Hwf0 Hvalid0 (same_sections_refl c1))
    as (_ & _ & Hlast & c2 & Hrun2 & _).
  split.
  - split; [exact Hwf0|]. rewrite map_sections_again by exact Hlast. exact Hvalid0.
  - exists c2. exact Hrun2.
Qed.

(** A successful [plcrash_async_objc_parse] from a fitting cache, when the
    ObjC1 walk emits nothing on the calls that fall through to ObjC2, can be
    run again on the cache it left with the same result. *)
Lemma plcrash_async_objc_parse_again {Ctx : Type}
    (cb : plcrash_async_objc_found_method_cb Ctx) image c x entered oc1 x1 :
  cache_fits image c ->
  (gotObjC2Info c = false ->
   snd (module_info_walk image) = PLCRASH_ENOTFOUND ->
   fst (module_info_walk image) = []) ->
  plcrash_async_objc_parse vm_allocate cb image (Some c) x
  = (entered, Returned (PLCRASH_ESUCCESS, oc1, x1)) ->
  exists c1, oc1 = Some c1 /\ cache_fits image c1
    /\ (gotObjC2Info c1 = false ->
        snd (module_info_walk image) = PLCRASH_ENOTFOUND ->
        fst (module_info_walk image) = [])
    /\ forall (Ctx2 : Type) (cb2 : plcrash_async_objc_found_method_cb Ctx2) y
          entered1 oc y1,
          plcrash_async_objc_parse vm_allocate cb2 image (Some c) y
          = (entered1, Returned (PLCRASH_ESUCCESS, oc, y1)) ->
          exists entered2 c2,
            plcrash_async_objc_parse vm_allocate cb2 image (Some c1) y
            = (entered2, Returned (PLCRASH_ESUCCESS, Some c2, y1))
            /\ cache_fits image c2.
Proof.
  intros Hfit Hquiet.
  assert (Hobjc2 : forall {C : Type} (k : plcrash_async_objc_found_method_cb C)
                          z ent oc z1,
    (ent,
     match pl_async_objc_parse_from_data_section vm_allocate k image c z with
     | Returned (PLCRASH_ESUCCESS, c0, ctx0) =>
         Returned (PLCRASH_ESUCCESS, Some (set_gotObjC2Info c0 true), ctx0)
     | Returned (err, c0, ctx0) => Returned (err, Some c0, ctx0)
     | NullDeref => NullDeref
     | OutOfBounds => OutOfBounds
     end) = (entered, Returned (PLCRASH_ESUCCESS, oc, z1)) ->
    exists c0,
      pl_async_objc_parse_from_data_section vm_allocate k image c z
      = Returned (PLCRASH_ESUCCESS, c0, z1)
      /\ oc = Some (set_gotObjC2Info c0 true)).
  { intros C k z ent oc z1.
    destruct (pl_async_objc_parse_from_data_section vm_allocate k image c z)
      as [[[e0 c0] z0]| |]; [|discriminate|discriminate].
    destruct e0; intros [= _ <- <-]. exists c0. split; reflexivity. }
  assert (Hafter : forall {C : Type} (k : plcrash_async_objc_found_method_cb C)
                          z c0 z1,
    pl_async_objc_parse_from_data_section vm_allocate k image c z
    = Returned (PLCRASH_ESUCCESS, c0, z1) ->
    class_cache_wf c0 /\ entries_valid image c0
    /\ lastImage c0 = Some (macho_self image)
    /\ same_sections (snd (map_sections image c)) c0).
  { intros C k z c0 z1 Hds.
    destruct (pl_async_objc_parse_from_data_section_valid vm_allocate
                k image c z Hfit) as (c0a & Hr & Hwf0 & Hvalid0 & Hsame0 & _).
    rewrite Hds in Hr. symmetry in Hr.
    apply with_cache_returned in Hr. destruct Hr as [He <-].
    assert (Hok : fst (map_sections image c) = PLCRASH_ESUCCESS).
    { revert He. unfold data_section_uncached.
      destruct (map_sections image c) as [[] cm]; cbn; congruence. }
    repeat split; try assumption; try apply Hsame0.
    destruct Hsame0 as (<- & _). apply map_sections_success, Hok. }
  assert (Hsecond : forall c0 {C : Type} (k : plcrash_async_objc_found_method_cb C)
                           z z1 c0' (k0 : plcrash_async_objc_found_method_cb Ctx) x0 x01,
    pl_async_objc_parse_from_data_section vm_allocate k0 image c x0
    = Returned (PLCRASH_ESUCCESS, c0, x01) ->
    pl_async_objc_parse_from_data_section vm_allocate k image c z
    = Returned (PLCRASH_ESUCCESS, c0', z1) ->
    exists entered2 c2,
      plcrash_async_objc_parse vm_allocate k image
        (Some (set_gotObjC2Info c0 true)) z
      = (entered2, Returned (PLCRASH_ESUCCESS, Some c2, z1))
      /\ cache_fits image c2).
  { intros c0 C k z z1 c0' k0 x0 x01 Hrun0 Hrunk.
    destruct (Hafter _ k0 x0 c0 x01 Hrun0) as (Hwf0 & Hvalid0 & _ & Hsame0).
    destruct (Hafter _ k z c0' z1 Hrunk) as (_ & _ & _ & Hsamek).
    assert (Hsame : same_sections c0' (set_gotObjC2Info c0 true)).
    { apply same_sections_trans with (b := snd (map_sections image c)).
      - apply same_sections_sym, Hsamek.
      - exact Hsame0. }
    destruct (pl_async_objc_parse_from_data_section_again k image c z c0' z1
                (set_gotObjC2Info c0 true) Hfit Hrunk Hwf0 Hvalid0 Hsame)
      as (_ & _ & _ & c2 & Hrun2 & Hwf2 & Hvalid2 & Hlast2).
    exists [ObjC2], (set_gotObjC2Info c2 true).
    unfold plcrash_async_objc_parse. cbn [gotObjC2Info set_gotObjC2Info negb].
    rewrite Hrun2. split; [reflexivity|].
    apply set_gotObjC2Info_fits; assumption. }
  unfold plcrash_async_objc_parse at 1.
  destruct (gotObjC2Info c) eqn:Hgot; cbn [negb].
  - intros Hrun. destruct (Hobjc2 _ cb x _ _ _ Hrun) as (c0 & Hds & ->).
    destruct (Hafter _ cb x c0 x1 Hds) as (Hwf0 & Hvalid0 & Hlast0 & _).
    exists (set_gotObjC2Info c0 true).
    split; [reflexivity|]. split; [apply set_gotObjC2Info_fits; assumption|].
    split; [cbn; discriminate|].
    intros Ctx2 cb2 y entered1 oc y1 Hrun2.
    unfold plcrash_async_objc_parse in Hrun2. rewrite Hgot in Hrun2.
    cbn [negb] in Hrun2.
    assert (Hds2 : exists c0',
      pl_async_objc_parse_from_data_section vm_allocate cb2 image c y
      = Returned (PLCRASH_ESUCCESS, c0', y1)).
    { destruct (pl_async_objc_parse_from_data_section vm_allocate cb2 image c y)
        as [[[e0 c0'] z0]| |]; [|discriminate|discriminate].
      destruct e0; try discriminate Hrun2.
      injection Hrun2 as _ _ <-. exists c0'. reflexivity. }
    destruct Hds2 as (c0' & Hds2).
    apply (Hsecond c0 _ cb2 y y1 c0' cb x x1 Hds Hds2).
  - unfold pl_async_objc_parse_from_module_info.
    destruct (module_info_walk image) as [methods err1] eqn:Hwalk.
    cbn [fst snd] in Hquiet.
    destruct err1.
    + intros [= <- <- <-]. exists c. split; [reflexivity|].
      split; [exact Hfit|]. split; [intros _ [=]|].
      intros Ctx2 cb2 y entered1 oc y1 Hrun2.
      unfold plcrash_async_objc_parse in Hrun2 |- *. rewrite Hgot in *.
      cbn [negb] in *.
      unfold pl_async_objc_parse_from_module_info in *. rewrite Hwalk in *.
      injection Hrun2 as <- <- <-.
      exists [ObjC1], c. split; [reflexivity|exact Hfit].
    + discriminate.
    + rewrite (Hquiet eq_refl eq_refl). cbn [fold_left].
      intros Hrun. destruct (Hobjc2 _ cb x _ _ _ Hrun) as (c0 & Hds & ->).
      destruct (Hafter _ cb x c0 x1 Hds) as (Hwf0 & Hvalid0 & Hlast0 & _).
      exists (set_gotObjC2Info c0 true).
      split; [reflexivity|]. split; [apply set_gotObjC2Info_fits; assumption|].
      split; [cbn; discriminate|].
      intros Ctx2 cb2 y entered1 oc y1 Hrun2.
      unfold plcrash_async_objc_parse in Hrun2. rewrite Hgot in Hrun2.
      cbn [negb] in Hrun2.
      unfold pl_async_objc_parse_from_module_info in Hrun2.
      rewrite Hwalk, (Hquiet eq_refl eq_refl) in Hrun2. cbn [fold_left] in Hrun2.
      assert (Hds2 : exists c0',
        pl_async_objc_parse_from_data_section vm_allocate cb2 image c y
        = Returned (PLCRASH_ESUCCESS, c0', y1)).
      { destruct (pl_async_objc_parse_from_data_section vm_allocate cb2 image c y)
          as [[[e0 c0'] z0]| |]; [|discriminate|discriminate].
        destruct e0; try discriminate Hrun2.
        injection Hrun2 as _ _ <-. exists c0'. reflexivity. }
      destruct Hds2 as (c0' & Hds2).
      apply (Hsecond c0 _ cb2 y y1 c0' cb x x1 Hds Hds2).
    + discriminate.
    + discriminate.
    + discriminate.
Qed.

End Again.

(** ** [map_sections] and [plcrash_async_objc_find_method] end to end *)

(** X9: [map_sections] keeps the memory objects in step with [lastImage]. On
    success the image is recorded, its three sections are mapped, and a
    second call for the same image changes nothing; on failure no image is
    recorded, so nothing stale is left behind; the class cache and
    [gotObjC2Info] are never touched. *)
Theorem map_sections_keeps_lastImage_in_step image c :
  sections_mapped c ->
  let err := fst (map_sections image c) in
  let c' := snd (map_sections image c) in
  sections_mapped c'
  /\ (err = PLCRASH_ESUCCESS ->
      lastImage c' = Some (macho_self image)
      /\ objcConstMobjInitialized c' = true
      /\ classMobjInitialized c' = true
      /\ objcDataMobjInitialized c' = true
      /\ map_sections image c' = (PLCRASH_ESUCCESS, c'))
  /\ (err <> PLCRASH_ESUCCESS -> lastImage c' = None)
  /\ classCacheSize c' = classCacheSize c
  /\ classCacheKeys c' = classCacheKeys c
  /\ classCacheValues c' = classCacheValues c
  /\ gotObjC2Info c' = gotObjC2Info c.
Proof.
  intros Hinv err c'.
  assert (Hmain : sections_mapped c'
    /\ (err = PLCRASH_ESUCCESS ->
        lastImage c' = Some (macho_self image)
        /\ objcConstMobjInitialized c' = true
        /\ classMobjInitialized c' = true
        /\ objcDataMobjInitialized c' = true)
    /\ (err <> PLCRASH_ESUCCESS -> lastImage c' = None)).
  { subst err c'. unfold map_sections.
    destruct (decide (lastImage c = Some (macho_self image))) as [Heq|_].
    - cbn [fst snd]. split; [exact Hinv|]. split; [|congruence].
      intros _. split; [exact Heq|]. apply Hinv. congruence.
    - destruct (plcrash_async_macho_map_section image kDataSegmentName
                  kObjCConstSectionName) as [[] m1];
        try (cbn [fst snd]; split;
             [intros H; contradiction H; reflexivity
             |split; [discriminate|reflexivity]]).
      destruct (plcrash_async_macho_map_section image kDataSegmentName
                  kClassListSectionName) as [[] m2];
        try (cbn [fst snd]; split;
             [intros H; contradiction H; reflexivity
             |split; [discriminate|reflexivity]]).
      destruct (plcrash_async_macho_map_section image kDataSegmentName
                  kObjCDataSectionName) as [[] m3];
        try (cbn [fst snd]; split;
             [intros H; contradiction H; reflexivity
             |split; [discriminate|reflexivity]]).
      cbn [fst snd]. split; [intros _; cbn; auto|].
      split; [intros _; cbn; auto|intros H; contradiction H; reflexivity]. }
  destruct Hmain as (Hinv' & Hok & Hfail).
  destruct (map_sections_class_cache image c) as (Hs & Hk & Hv).
  split; [exact Hinv'|]. split; [|split; [exact Hfail|]].
  - intros He. destruct (Hok He) as (Hlast & H1 & H2 & H3).
    repeat split; try assumption. apply map_sections_again, Hlast.
  - repeat split; try assumption. apply map_sections_gotObjC2Info.
Qed.

Lemma first_match_found target ms m0 :
  In m0 ms -> imp m0 = target ->
  exists m, first_match target ms = Some m /\ In m ms /\ imp m = target.
Proof.
  intros Hin Himp. unfold first_match.
  destruct (List.find (fun m => imp m =? target) ms) as [m|] eqn:Hfind.
  - apply find_some in Hfind. destruct Hfind as [Hm Heq].
    apply N.eqb_eq in Heq. exists m. auto.
  - apply find_none with (x := m0) in Hfind; [|exact Hin].
    apply N.eqb_neq in Hfind. contradiction.
Qed.

Section FindMethod.

Variable vm_allocate : N -> bool.

Lemma plcrash_async_objc_parse_fault {Ctx : Type}
    (cb : plcrash_async_objc_found_method_cb Ctx) image cache x :
  match snd (plcrash_async_objc_parse vm_allocate record_method image cache [])
  with
  | Returned _ => True
  | NullDeref =>
      snd (plcrash_async_objc_parse vm_allocate cb image cache x) = NullDeref
  | OutOfBounds =>
      snd (plcrash_async_objc_parse vm_allocate cb image cache x) = OutOfBounds
  end.
Proof.
  destruct (plcrash_async_objc_parse_rel vm_allocate record_method cb
              (fun _ _ => True)) with (image := image) (cache := cache)
              (x := @nil found_method) (y := x) as [_ Hout]; [auto|exact I|].
  destruct (snd (plcrash_async_objc_parse vm_allocate record_method image
                   cache [])) as [r| |];
    [exact I| |];
    destruct (snd (plcrash_async_objc_parse vm_allocate cb image cache x))
      as [[[e c] y]| |]; cbn [outcome_rel] in Hout;
    solve [ contradiction | reflexivity ].
Qed.

(** X12: from a cache that fits the image, and with an ObjC1 walk that emits
    nothing on the calls that fall through to ObjC2, a
    [plcrash_async_objc_find_method] that returns success has run the
    user's callback exactly once, on an emitted method whose IMP is not 0,
    not above the searched address, and not below the IMP of any emitted
    method that is not above it; the cache it leaves fits the image again. *)
Theorem find_method_success_calls_back_once {U : Type} image c ip
    (outer : plcrash_async_objc_found_method_cb U) (u : U) oc' u' :
  cache_fits image c ->
  (gotObjC2Info c = false ->
   snd (module_info_walk image) = PLCRASH_ENOTFOUND ->
   fst (module_info_walk image) = []) ->
  plcrash_async_objc_find_method vm_allocate image (Some c) ip (Some outer) u
  = Returned (PLCRASH_ESUCCESS, oc', u') ->
  exists entered oc1 ms m c',
    plcrash_async_objc_parse vm_allocate record_method image (Some c) []
    = (entered, Returned (PLCRASH_ESUCCESS, oc1, ms))
    /\ In m ms
    /\ u' = apply_callback outer u m
    /\ imp m <> 0 /\ imp m <= ip
    /\ (forall m', In m' ms -> imp m' <= ip -> imp m' <= imp m)
    /\ oc' = Some c' /\ cache_fits image c'.
Proof.
  intros Hfit Hquiet Hfind.
  destruct (plcrash_async_objc_parse vm_allocate record_method image (Some c) [])
    as [entered [[[e oc1] ms]| |]] eqn:Hrec.
  - destruct (find_method_first_pass vm_allocate image (Some c) ip _ _ _ _ Hrec)
      as [Hrun Hbest].
    unfold plcrash_async_objc_find_method in Hfind.
    rewrite Hrun in Hfind. cbn [snd] in Hfind.
    destruct e; try discriminate Hfind.
    rewrite Hbest in Hfind.
    destruct (N.eqb_spec (best_match ip ms) 0) as [|Hnz]; [discriminate Hfind|].
    destruct (plcrash_async_objc_parse_again vm_allocate record_method image c []
                entered oc1 ms Hfit Hquiet Hrec) as (c1 & -> & _ & _ & Hnext).
    destruct (Hnext _ record_method [] _ _ _ Hrec) as (entered2 & c2 & Hrec2 & Hfit2).
    rewrite (plcrash_async_objc_parse_fold vm_allocate
               pl_async_objc_find_method_call_callback image (Some c1)
               _ _ _ _ _ Hrec2) in Hfind.
    cbn [snd] in Hfind. rewrite call_callback_fold in Hfind.
    destruct (best_match_attained ip ms Hnz) as (m0 & Hin0 & Himp0 & Hle0).
    destruct (first_match_found _ _ _ Hin0 Himp0) as (m & Hfm & Hin & Himp).
    rewrite Hfm in Hfind. cbn [outerCallbackCtx] in Hfind.
    injection Hfind as <- <-.
    exists entered, (Some c1), ms, m, c2.
    split; [reflexivity|]. split; [exact Hin|]. split; [reflexivity|].
    rewrite Himp. split; [exact Hnz|]. split; [apply best_match_le|].
    split; [intros m'; apply best_match_upper|]. split; [reflexivity|exact Hfit2].
  - exfalso.
    pose proof (plcrash_async_objc_parse_fault
                  pl_async_objc_find_method_search_callback image (Some c)
                  {| searchIMP := ip; bestIMP := 0 |}) as Hfault.
    rewrite Hrec in Hfault. cbn [snd] in Hfault.
    unfold plcrash_async_objc_find_method in Hfind.
    rewrite Hfault in Hfind. discriminate Hfind.
  - exfalso.
    pose proof (plcrash_async_objc_parse_fault
                  pl_async_objc_find_method_search_callback image (Some c)
                  {| searchIMP := ip; bestIMP := 0 |}) as Hfault.
    rewrite Hrec in Hfault. cbn [snd] in Hfault.
    unfold plcrash_async_objc_find_method in Hfind.
    rewrite Hfault in Hfind. discriminate Hfind.
Qed.

(** X13: when the first pass ends in a code other than success,
    [plcrash_async_objc_find_method] returns that code with the cache the
    pass left and the user's state untouched, whatever the callback; a
    [NULL] cache is the case of [PLCRASH_EACCESS]. *)
Theorem find_method_error_leaves_user_state {U : Type} image cache ip
    (callback : option (plcrash_async_objc_found_method_cb U)) (u : U)
    entered e oc ms :
  plcrash_async_objc_parse vm_allocate record_method image cache []
  = (entered, Returned (e, oc, ms)) ->
  e <> PLCRASH_ESUCCESS ->
  plcrash_async_objc_find_method vm_allocate image cache ip callback u
  = Returned (e, oc, u)
  /\ (cache = None -> e = PLCRASH_EACCESS /\ oc = None).
Proof.
  intros Hrec Hne.
  destruct (find_method_first_pass vm_allocate image cache ip _ _ _ _ Hrec)
    as [Hrun _].
  split.
  - unfold plcrash_async_objc_find_method. rewrite Hrun. cbn [snd].
    destruct e; [contradiction Hne|..]; reflexivity.
  - intros ->. cbn in Hrec. injection Hrec as _ <- <- _. split; reflexivity.
Qed.

End FindMethod.

(** *** Concrete instances for the further properties *)

Lemma set_reg_then_get_reg_witness :
  arm_state_wf sample_ts_none_valid
  /\ exists ts',
       plcrash_async_thread_state_set_reg regnum_decl sample_ts_none_valid
         (regnum_decl PLCRASH_ARM_R5) 0x100000007 = Some ts'
       /\ plcrash_async_thread_state_has_reg ts' (regnum_decl PLCRASH_ARM_R5) = true
       /\ plcrash_async_thread_state_get_reg regnum_decl ts'
            (regnum_decl PLCRASH_ARM_R5) = RegValue 7.
Proof.
  assert (Hwf : arm_state_wf sample_ts_none_valid) by reflexivity.
  split; [exact Hwf|].
  destruct (set_reg_then_get_reg regnum_decl ltac:(regnum_decl_hyps)
              sample_ts_none_valid PLCRASH_ARM_R5 0x100000007 Hwf)
    as (ts' & Hset & _ & Hhas & Hget & _).
  exists ts'. split; [exact Hset|]. split; [exact Hhas|exact Hget].
Defined.

Lemma set_reg_leaves_other_registers_witness :
  plcrash_async_thread_state_set_reg regnum_decl sample_ts_none_valid
    (regnum_decl PLCRASH_ARM_R5) 7
  = Some (sample_ts_after_set PLCRASH_ARM_R5 7)
  /\ plcrash_async_thread_state_get_reg regnum_decl
       (sample_ts_after_set PLCRASH_ARM_R5 7) (regnum_decl PLCRASH_ARM_SP)
     = RegValue 113
  /\ plcrash_async_thread_state_has_reg
       (sample_ts_after_set PLCRASH_ARM_R5 7) (regnum_decl PLCRASH_ARM_SP)
     = false.
Proof.
  assert (Hset :
    plcrash_async_thread_state_set_reg regnum_decl sample_ts_none_valid
      (regnum_decl PLCRASH_ARM_R5) 7
    = Some (sample_ts_after_set PLCRASH_ARM_R5 7)) by reflexivity.
  split; [exact Hset|].
  apply (set_reg_leaves_other_registers regnum_decl ltac:(regnum_decl_hyps)
           sample_ts_none_valid PLCRASH_ARM_R5 PLCRASH_ARM_SP 7 _ Hset).
  discriminate.
Defined.

Lemma set_reg_then_clear_volatile_regs_witness :
  plcrash_async_thread_state_set_reg regnum_decl sample_ts_none_valid
    (regnum_decl PLCRASH_ARM_R0) 7
  = Some (sample_ts_after_set PLCRASH_ARM_R0 7)
  /\ plcrash_async_thread_state_get_reg regnum_decl
       (plcrash_async_thread_state_clear_volatile_regs regnum_decl
          last_reg_decl (sample_ts_after_set PLCRASH_ARM_R0 7))
       (regnum_decl PLCRASH_ARM_R0) = RegValue 7
  /\ plcrash_async_thread_state_has_reg
       (plcrash_async_thread_state_clear_volatile_regs regnum_decl
          last_reg_decl (sample_ts_after_set PLCRASH_ARM_R0 7))
       (regnum_decl PLCRASH_ARM_R0) = false.
Proof.
  assert (Hset :
    plcrash_async_thread_state_set_reg regnum_decl sample_ts_none_valid
      (regnum_decl PLCRASH_ARM_R0) 7
    = Some (sample_ts_after_set PLCRASH_ARM_R0 7)) by reflexivity.
  split; [exact Hset|].
  destruct (set_reg_then_clear_volatile_regs regnum_decl last_reg_decl
              ltac:(regnum_decl_hyps) ltac:(regnum_decl_hyps)
              sample_ts_none_valid PLCRASH_ARM_R0 7 _ eq_refl Hset)
    as (Hget & Hhas & _).
  split; [exact Hget|]. rewrite Hhas. reflexivity.
Defined.

Lemma arm_dwarf_round_trip_from_dwarf_witness :
  exists n,
    plcrash_async_thread_state_map_dwarf_to_reg regnum_decl 13 = Some n
    /\ plcrash_async_thread_state_map_reg_to_dwarf regnum_decl n = Some 13.
Proof.
  apply (arm_dwarf_round_trip_from_dwarf regnum_decl ltac:(regnum_decl_hyps) 13).
  vm_compute. discriminate.
Defined.

Lemma get_reg_name_distinct_witness :
  plcrash_async_thread_state_get_reg_name regnum_decl (regnum_decl PLCRASH_ARM_LR)
  = Some "lr"%string.
Proof.
  apply (get_reg_name_distinct regnum_decl ltac:(regnum_decl_hyps)).
Defined.

Lemma cache_lookup_returns_stored_pair_witness :
  In (0x5000,
      cache_lookup
        (cache_set_all vm_grant [(0x5000, 0x3000); (0x6000, 0x7777)]
           plcrash_async_objc_cache_init) 0x5000)
     [(0x5000, 0x3000); (0x6000, 0x7777)].
Proof.
  apply (cache_lookup_returns_stored_pair vm_grant).
  - reflexivity.
  - intros key. reflexivity.
  - vm_compute. discriminate.
Defined.

Lemma cache_entry_never_evicted_witness :
  cache_lookup
    (cache_set_all vm_grant [(0x6000, 0x7777); (0x5000, 0x4444)] cache_with_A)
    0x5000
  = cache_lookup cache_with_A 0x5000.
Proof.
  apply (cache_entry_never_evicted vm_grant).
  - vm_compute. repeat split; reflexivity.
  - discriminate.
  - vm_compute. discriminate.
Defined.

Lemma sample_cache_init_fits image :
  cache_fits image plcrash_async_objc_cache_init.
Proof.
  apply cache_empty_fits; [reflexivity|]. intros key. reflexivity.
Defined.

Lemma map_sections_keeps_lastImage_in_step_witness :
  sections_mapped plcrash_async_objc_cache_init
  /\ lastImage (snd (map_sections sample_image_ok plcrash_async_objc_cache_init))
     = Some 0x100.
Proof.
  assert (Hinv : sections_mapped plcrash_async_objc_cache_init).
  { intros H. contradiction H. reflexivity. }
  split; [exact Hinv|].
  destruct (map_sections_keeps_lastImage_in_step sample_image_ok
              plcrash_async_objc_cache_init Hinv) as (_ & Hok & _).
  apply Hok. reflexivity.
Defined.

Lemma objc2_parse_needs_no_cache_witness :
  same_result
    (pl_async_objc_parse_from_data_section vm_grant record_method
       sample_image_ok plcrash_async_objc_cache_init [])
    (pl_async_objc_parse_from_data_section vm_refuse record_method
       sample_image_ok plcrash_async_objc_cache_init []).
Proof.
  apply objc2_parse_needs_no_cache.
  - apply sample_cache_init_fits.
  - apply sample_cache_init_fits.
  - apply same_sections_refl.
Defined.

Lemma objc2_parse_again_same_witness :
  pl_async_objc_parse_from_data_section vm_grant record_method sample_image_ok
    plcrash_async_objc_cache_init []
  = Returned (PLCRASH_ESUCCESS, cache_after_data_section,
              [method_A1; method_A2; method_B1])
  /\ exists c2,
       pl_async_objc_parse_from_data_section vm_grant record_method
         sample_image_ok cache_after_data_section []
       = Returned (PLCRASH_ESUCCESS, c2, [method_A1; method_A2; method_B1]).
Proof.
  assert (Hrun :
    pl_async_objc_parse_from_data_section vm_grant record_method sample_image_ok
      plcrash_async_objc_cache_init []
    = Returned (PLCRASH_ESUCCESS, cache_after_data_section,
                [method_A1; method_A2; method_B1]))
    by (vm_compute; reflexivity).
  split; [exact Hrun|].
  apply (objc2_parse_again_same vm_grant record_method sample_image_ok
           plcrash_async_objc_cache_init [] _ _
           (sample_cache_init_fits sample_image_ok) Hrun).
Defined.

Lemma find_method_success_calls_back_once_witness :
  plcrash_async_objc_find_method vm_grant sample_image_ok
    (Some plcrash_async_objc_cache_init) 0x10050 (Some record_method) []
  = Returned (PLCRASH_ESUCCESS, cache_after_find_method, [method_A2])
  /\ exists m, [method_A2] = apply_callback record_method [] m /\ imp m <= 0x10050.
Proof.
  assert (Hfind :
    plcrash_async_objc_find_method vm_grant sample_image_ok
      (Some plcrash_async_objc_cache_init) 0x10050 (Some record_method) []
    = Returned (PLCRASH_ESUCCESS, cache_after_find_method, [method_A2]))
    by (vm_compute; reflexivity).
  split; [exact Hfind|].
  destruct (find_method_success_calls_back_once vm_grant sample_image_ok
              plcrash_async_objc_cache_init 0x10050 record_method [] _ _
              (sample_cache_init_fits sample_image_ok)
              (fun _ _ => eq_refl) Hfind)
    as (_ & _ & _ & m & _ & _ & _ & Hu & _ & Hle & _).
  exists m. split; [exact Hu|exact Hle].
Defined.

Lemma find_method_error_leaves_user_state_witness :
  plcrash_async_objc_find_method vm_grant sample_image_rw_unreadable
    (Some plcrash_async_objc_cache_init) 0x10050 (Some record_method) []
  = Returned (PLCRASH_ENOTFOUND,
              Some (mapped_cache sample_image_rw_unreadable), []).
Proof.
  apply (find_method_error_leaves_user_state vm_grant sample_image_rw_unreadable
           (Some plcrash_async_objc_cache_init) 0x10050 (Some record_method) []
           [ObjC1; ObjC2] PLCRASH_ENOTFOUND
           (Some (mapped_cache sample_image_rw_unreadable)) []).
  - vm_compute. reflexivity.
  - discriminate.
Defined.

(** ** The ObjC1 walk, loop by loop *)

Section ObjC1Simulation.

Context {Ctx1 Ctx2 : Type}.
Variable cb1 : plcrash_async_objc_found_method_cb Ctx1.
Variable cb2 : plcrash_async_objc_found_method_cb Ctx2.
Variable R : Ctx1 -> Ctx2 -> Prop.

Lemma obj1_method_loop_rel image memory isMeta namePtr thisListPtr todo :
  (forall sel a x y,
     R x y -> R (cb1 isMeta namePtr sel a x) (cb2 isMeta namePtr sel a y)) ->
  forall i err x y,
    R x y ->
    fst (ModuleInfo.obj1_method_loop cb1 image memory isMeta namePtr
           thisListPtr todo i err x)
    = fst (ModuleInfo.obj1_method_loop cb2 image memory isMeta namePtr
             thisListPtr todo i err y)
    /\ R (snd (ModuleInfo.obj1_method_loop cb1 image memory isMeta namePtr
                 thisListPtr todo i err x))
         (snd (ModuleInfo.obj1_method_loop cb2 image memory isMeta namePtr
                 thisListPtr todo i err y)).
Proof.
  intros Hcb. induction todo as [|todo IH]; intros i err x y Hxy;
    cbn [ModuleInfo.obj1_method_loop].
  - auto.
  - destruct (plcrash_async_read_addr image _ _); cbn [fst snd]; auto.
    destruct (plcrash_async_macho_string_init image _); cbn [fst snd]; auto.
Qed.

Lemma obj1_method_list_rel image memory isMeta namePtr thisListPtr x y :
  (forall sel a x y,
     R x y -> R (cb1 isMeta namePtr sel a x) (cb2 isMeta namePtr sel a y)) ->
  R x y ->
  fst (ModuleInfo.obj1_method_list cb1 image memory isMeta namePtr
         thisListPtr x)
  = fst (ModuleInfo.obj1_method_list cb2 image memory isMeta namePtr
           thisListPtr y)
  /\ R (snd (ModuleInfo.obj1_method_list cb1 image memory isMeta namePtr
               thisListPtr x))
       (snd (ModuleInfo.obj1_method_list cb2 image memory isMeta namePtr
               thisListPtr y)).
Proof.
  intros Hcb Hxy. unfold ModuleInfo.obj1_method_list.
  destruct (plcrash_async_read_addr image _ _); cbn [fst snd]; auto.
  apply obj1_method_loop_rel; assumption.
Qed.

Lemma obj1_method_lists_rel image memory isMeta namePtr fuel :
  (forall sel a x y,
     R x y -> R (cb1 isMeta namePtr sel a x) (cb2 isMeta namePtr sel a y)) ->
  forall cursor x y,
    R x y ->
    walk_rel R
      (ModuleInfo.obj1_method_lists cb1 fuel image memory isMeta namePtr
         cursor x)
      (ModuleInfo.obj1_method_lists cb2 fuel image memory isMeta namePtr
         cursor y).
Proof.
  intros Hcb. induction fuel as [|fuel IH]; intros cursor x y Hxy;
    cbn [ModuleInfo.obj1_method_lists].
  - exact I.
  - destruct (plcrash_async_read_addr image _ _); cbn [walk_rel]; auto.
    destruct (_ || _); cbn [walk_rel]; auto.
    pose proof (obj1_method_list_rel image memory isMeta namePtr
                  (swap32 image (ModuleInfo.uint32_at memory cursor))
                  x y Hcb Hxy) as [He Hr].
    destruct (ModuleInfo.obj1_method_list cb1 _ _ _ _ _ x) as [e1 x1].
    destruct (ModuleInfo.obj1_method_list cb2 _ _ _ _ _ y) as [e2 x2].
    cbn [fst snd] in He, Hr. subst e2.
    destruct e1; cbn [walk_rel]; auto.
Qed.

Lemma pl_async_parse_obj1_class_rel fuel image memory class isMeta x y :
  (forall sel a x y,
     R x y ->
     R (cb1 isMeta (swap32 image (ModuleInfo.cls_name class)) sel a x)
       (cb2 isMeta (swap32 image (ModuleInfo.cls_name class)) sel a y)) ->
  R x y ->
  walk_rel R
    (ModuleInfo.pl_async_parse_obj1_class cb1 fuel image memory class isMeta x)
    (ModuleInfo.pl_async_parse_obj1_class cb2 fuel image memory class isMeta y).
Proof.
  intros Hcb Hxy. unfold ModuleInfo.pl_async_parse_obj1_class.
  destruct (plcrash_async_macho_string_init image _); cbn [walk_rel]; auto.
  destruct (_ =? 0).
  - apply obj1_method_lists_rel; assumption.
  - destruct (_ =? 0); cbn [walk_rel]; auto.
    pose proof (obj1_method_list_rel image memory isMeta
                  (swap32 image (ModuleInfo.cls_name class))
                  (swap32 image (ModuleInfo.cls_methods class))
                  x y Hcb Hxy) as [He Hr].
    destruct (ModuleInfo.obj1_method_list cb1 _ _ _ _ _ x) as [e1 x1].
    destruct (ModuleInfo.obj1_method_list cb2 _ _ _ _ _ y) as [e2 x2].
    cbn [fst snd] in He, Hr. auto.
Qed.

Hypothesis cb_related : forall isMeta cls sel a x y,
  R x y -> R (cb1 isMeta cls sel a x) (cb2 isMeta cls sel a y).

Lemma obj1_class_loop_rel fuel image memory symtabPtr todo :
  forall i err x y,
    R x y ->
    walk_rel R
      (ModuleInfo.obj1_class_loop cb1 fuel image memory symtabPtr todo i err x)
      (ModuleInfo.obj1_class_loop cb2 fuel image memory symtabPtr todo i err y).
Proof.
  induction todo as [|todo IH]; intros i err x y Hxy;
    cbn [ModuleInfo.obj1_class_loop].
  - cbn. auto.
  - destruct (plcrash_async_read_addr image _ _); cbn [walk_rel]; auto.
    destruct (plcrash_async_read_addr image _ _); cbn [walk_rel]; auto.
    match goal with
    | |- context [ModuleInfo.pl_async_parse_obj1_class cb1 fuel image memory
                    ?cls false x] =>
        pose proof (pl_async_parse_obj1_class_rel fuel image memory cls false
                      x y (cb_related false _) Hxy) as Hcls;
        destruct (ModuleInfo.pl_async_parse_obj1_class cb1 fuel image memory
                    cls false x) as [[e1 x1]|];
        destruct (ModuleInfo.pl_async_parse_obj1_class cb2 fuel image memory
                    cls false y) as [[e2 x2]|];
        cbn [walk_rel] in Hcls; try contradiction; [|exact I]
    end.
    destruct Hcls as [<- Hr1].
    destruct e1; cbn [walk_rel]; auto.
    destruct (plcrash_async_read_addr image _ _); cbn [walk_rel]; auto.
    match goal with
    | |- context [ModuleInfo.pl_async_parse_obj1_class cb1 fuel image memory
                    ?cls true x1] =>
        pose proof (pl_async_parse_obj1_class_rel fuel image memory cls true
                      x1 x2 (cb_related true _) Hr1) as Hmeta;
        destruct (ModuleInfo.pl_async_parse_obj1_class cb1 fuel image memory
                    cls true x1) as [[e3 x3]|];
        destruct (ModuleInfo.pl_async_parse_obj1_class cb2 fuel image memory
                    cls true x2) as [[e4 x4]|];
        cbn [walk_rel] in Hmeta; try contradiction; [|exact I]
    end.
    destruct Hmeta as [<- Hr3].
    destruct e3; cbn [walk_rel]; auto.
Qed.

Lemma obj1_module_loop_rel image memory moduleMobj fuel :
  forall moduleIndex err x y,
    R x y ->
    walk_rel R
      (ModuleInfo.obj1_module_loop cb1 fuel image memory moduleMobj
         moduleIndex err x)
      (ModuleInfo.obj1_module_loop cb2 fuel image memory moduleMobj
         moduleIndex err y).
Proof.
  induction fuel as [|fuel IH]; intros moduleIndex err x y Hxy;
    cbn [ModuleInfo.obj1_module_loop].
  - exact I.
  - destruct (moduleIndex <? _); [|cbn; auto].
    destruct (_ =? 0); [apply IH, Hxy|].
    destruct (plcrash_async_read_addr image _ _); cbn [walk_rel]; auto.
    match goal with
    | |- context [ModuleInfo.obj1_class_loop cb1 fuel image memory ?p ?n 0
                    PLCRASH_ESUCCESS x] =>
        pose proof (obj1_class_loop_rel fuel image memory p n 0
                      PLCRASH_ESUCCESS x y Hxy) as Hcls;
        destruct (ModuleInfo.obj1_class_loop cb1 fuel image memory p n 0
                    PLCRASH_ESUCCESS x) as [[e1 x1]|];
        destruct (ModuleInfo.obj1_class_loop cb2 fuel image memory p n 0
                    PLCRASH_ESUCCESS y) as [[e2 x2]|];
        cbn [walk_rel] in Hcls; try contradiction; [|exact I]
    end.
    destruct Hcls as [<- Hr1].
    destruct e1; cbn [walk_rel]; auto.
Qed.

Lemma pl_async_objc_parse_from_module_info_walk_rel fuel image memory x y :
  R x y ->
  walk_rel R
    (ModuleInfo.pl_async_objc_parse_from_module_info cb1 fuel image memory x)
    (ModuleInfo.pl_async_objc_parse_from_module_info cb2 fuel image memory y).
Proof.
  intros Hxy. unfold ModuleInfo.pl_async_objc_parse_from_module_info.
  destruct (plcrash_async_macho_map_section image _ _) as [[] moduleMobj];
    cbn [walk_rel]; auto.
  destruct (negb _); cbn [walk_rel]; auto.
  apply obj1_module_loop_rel, Hxy.
Qed.

End ObjC1Simulation.

Lemma pl_async_objc_parse_from_module_info_fold {Ctx : Type}
    (cb : plcrash_async_objc_found_method_cb Ctx) fuel image memory ctx err ms :
  ModuleInfo.pl_async_objc_parse_from_module_info record_method fuel image
    memory [] = Some (err, ms) ->
  ModuleInfo.pl_async_objc_parse_from_module_info cb fuel image memory ctx
  = Some (err, fold_left (apply_callback cb) ms ctx).
Proof.
  intros Hrec.
  pose proof (pl_async_objc_parse_from_module_info_walk_rel record_method cb
                (fun seen x => x = fold_left (apply_callback cb) seen ctx))
    as Hrel.
  specialize (Hrel ltac:(intros isMeta cls sel a seen x ->;
                         unfold record_method; rewrite fold_left_app;
                         reflexivity)
                   fuel image memory [] ctx eq_refl).
  rewrite Hrec in Hrel.
  destruct (ModuleInfo.pl_async_objc_parse_from_module_info cb fuel image
              memory ctx) as [[e x]|]; cbn [walk_rel] in Hrel;
    [|contradiction].
  destruct Hrel as [<- ->]. reflexivity.
Qed.

(** X14: the ObjC1 walk is blind to its callback: whatever the callback and
    its state, the walk returns the code and hands over, in order, the
    methods it hands to a callback that only records them.  So when the
    summary [module_info_walk] of an image is what the loop-by-loop walk
    records, the summarised parser the theorems on
    [plcrash_async_objc_parse] rest on returns what the walk returns. *)
Theorem module_info_walk_is_callback_fold {Ctx : Type}
    (cb : plcrash_async_objc_found_method_cb Ctx) fuel image memory ctx :
  ModuleInfo.pl_async_objc_parse_from_module_info record_method fuel image
    memory []
  = Some (snd (module_info_walk image), fst (module_info_walk image)) ->
  ModuleInfo.pl_async_objc_parse_from_module_info cb fuel image memory ctx
  = Some (snd (module_info_walk image),
          fold_left (apply_callback cb) (fst (module_info_walk image)) ctx)
  /\ ModuleInfo.pl_async_objc_parse_from_module_info cb fuel image memory ctx
     = Some (pl_async_objc_parse_from_module_info cb image ctx).
Proof.
  intros Hrec.
  pose proof (pl_async_objc_parse_from_module_info_fold cb fuel image memory
                ctx _ _ Hrec) as Hrun.
  split; [exact Hrun|]. rewrite Hrun.
  unfold pl_async_objc_parse_from_module_info.
  destruct (module_info_walk image) as [methods err]. reflexivity.
Qed.

(** X15: whatever [pl_async_parse_obj1_class] returns, success or error, it
    has only added to what was recorded before, and every method it added
    carries the [isMetaClass] flag of the call and the name pointer of the
    class. *)
Theorem obj1_class_methods_tagged fuel image memory class isMeta seen err seen' :
  ModuleInfo.pl_async_parse_obj1_class record_method fuel image memory class
    isMeta seen = Some (err, seen') ->
  exists new,
    seen' = seen ++ new
    /\ Forall
         (fun m =>
            isClassMethod m = isMeta
            /\ className m = swap32 image (ModuleInfo.cls_name class))
         new.
Proof.
  intros Hrun.
  pose proof (pl_async_parse_obj1_class_rel record_method
                (fun _ _ _ _ (u : unit) => u)
                (fun seen' _ =>
                   exists new,
                     seen' = seen ++ new
                     /\ Forall
                          (fun m =>
                             isClassMethod m = isMeta
                             /\ className m
                                = swap32 image (ModuleInfo.cls_name class))
                          new)
                fuel image memory class isMeta seen tt) as Hrel.
  assert (Hcb : forall sel a x (y : unit),
            (exists new,
               x = seen ++ new
               /\ Forall
                    (fun m =>
                       isClassMethod m = isMeta
                       /\ className m
                          = swap32 image (ModuleInfo.cls_name class))
                    new) ->
            exists new,
              record_method isMeta (swap32 image (ModuleInfo.cls_name class))
                sel a x = seen ++ new
              /\ Forall
                   (fun m =>
                      isClassMethod m = isMeta
                      /\ className m
                         = swap32 image (ModuleInfo.cls_name class))
                   new).
  { intros sel a x _ (new & -> & Hall). unfold record_method.
    eexists. rewrite <- app_assoc. split; [reflexivity|].
    apply Forall_app. split; [exact Hall|].
    constructor; [cbn; auto|constructor]. }
  assert (Hstart : exists new,
            seen = seen ++ new
            /\ Forall
                 (fun m =>
                    isClassMethod m = isMeta
                    /\ className m
                       = swap32 image (ModuleInfo.cls_name class))
                 new).
  { exists []. rewrite app_nil_r. split; [reflexivity|constructor]. }
  specialize (Hrel Hcb Hstart). rewrite Hrun in Hrel.
  destruct (ModuleInfo.pl_async_parse_obj1_class _ fuel image memory class
              isMeta tt) as [[e u]|]; cbn [walk_rel] in Hrel;
    [apply Hrel|contradiction].
Qed.

Lemma is_success_true err : is_success err = true -> err = PLCRASH_ESUCCESS.
Proof. destruct err; cbn; congruence. Qed.

Lemma obj1_method_loop_readable {Ctx : Type}
    (cb : plcrash_async_objc_found_method_cb Ctx)
    image memory isMeta namePtr thisListPtr todo :
  forall s ctx,
    forallb
      (fun i =>
         let methodPtr := obj1_method_address thisListPtr i in
         is_success
           (plcrash_async_read_addr image methodPtr ModuleInfo.sizeof_method1)
         && is_success
              (plcrash_async_macho_string_init image
                 (swap32 image
                    (ModuleInfo.method1_name
                       (ModuleInfo.method1_at memory methodPtr)))))
      (seq s todo) = true ->
    ModuleInfo.obj1_method_loop cb image memory isMeta namePtr thisListPtr
      todo (N.of_nat s) PLCRASH_ESUCCESS ctx
    = (PLCRASH_ESUCCESS,
       fold_left (apply_callback cb)
         (List.map (obj1_method_entry image memory isMeta namePtr thisListPtr)
            (seq s todo))
         ctx).
Proof.
  induction todo as [|todo IH]; intros s ctx Hread;
    cbn [ModuleInfo.obj1_method_loop seq List.map fold_left].
  - reflexivity.
  - cbn [seq forallb] in Hread.
    apply andb_prop in Hread. destruct Hread as [Hhere Hrest].
    apply andb_prop in Hhere. destruct Hhere as [Hmethod Hname].
    apply is_success_true in Hmethod, Hname.
    unfold obj1_method_address in Hmethod, Hname.
    rewrite Hmethod, Hname.
    replace (N.of_nat s + 1) with (N.of_nat (S s)) by lia.
    rewrite (IH (S s) _ Hrest). reflexivity.
Qed.

Lemma obj1_method_list_readable {Ctx : Type}
    (cb : plcrash_async_objc_found_method_cb Ctx)
    image memory isMeta namePtr thisListPtr ctx :
  obj1_list_readable image memory thisListPtr = true ->
  ModuleInfo.obj1_method_list cb image memory isMeta namePtr thisListPtr ctx
  = (PLCRASH_ESUCCESS,
     fold_left (apply_callback cb)
       (obj1_list_methods image memory isMeta namePtr thisListPtr) ctx).
Proof.
  unfold obj1_list_readable. intros Hread.
  apply andb_prop in Hread. destruct Hread as [Hlist Hmethods].
  apply is_success_true in Hlist.
  unfold ModuleInfo.obj1_method_list. rewrite Hlist.
  apply (obj1_method_loop_readable cb image memory isMeta namePtr thisListPtr
           _ 0%nat ctx Hmethods).
Qed.

(** X16: a class with [CLS_NO_METHOD_ARRAY] set has one inline method list:
    when the class name, the list and its methods can be read,
    [pl_async_parse_obj1_class] returns success after handing the callback
    exactly the [count] methods the list declares, in order, and nothing at
    all when the list pointer is 0; no turn of the unbounded loop is
    needed. *)
Theorem obj1_class_single_method_list {Ctx : Type}
    (cb : plcrash_async_objc_found_method_cb Ctx)
    fuel image memory class isMeta ctx :
  let namePtr := swap32 image (ModuleInfo.cls_name class) in
  let methodListPtr := swap32 image (ModuleInfo.cls_methods class) in
  plcrash_async_macho_string_init image namePtr = PLCRASH_ESUCCESS ->
  N.land (swap32 image (ModuleInfo.cls_info class))
    ModuleInfo.CLS_NO_METHOD_ARRAY <> 0 ->
  (methodListPtr <> 0 ->
   obj1_list_readable image memory methodListPtr = true) ->
  ModuleInfo.pl_async_parse_obj1_class cb fuel image memory class isMeta ctx
  = Some
      (PLCRASH_ESUCCESS,
       fold_left (apply_callback cb)
         (if methodListPtr =? 0 then []
          else obj1_list_methods image memory isMeta namePtr methodListPtr)
         ctx).
Proof.
  intros namePtr methodListPtr Hname Hflag Hread.
  unfold ModuleInfo.pl_async_parse_obj1_class.
  fold namePtr methodListPtr. rewrite Hname.
  apply N.eqb_neq in Hflag. rewrite Hflag.
  destruct (N.eqb_spec methodListPtr 0) as [_|Hptr]; [reflexivity|].
  rewrite (obj1_method_list_readable cb image memory isMeta namePtr
             methodListPtr ctx (Hread Hptr)).
  reflexivity.
Qed.

Lemma obj1_method_lists_terminated {Ctx : Type}
    (cb : plcrash_async_objc_found_method_cb Ctx)
    image memory isMeta namePtr k :
  forall fuel cursor ctx,
    obj1_array_terminated image memory cursor k = true ->
    (k < fuel)%nat ->
    ModuleInfo.obj1_method_lists cb fuel image memory isMeta namePtr cursor ctx
    = Some
        (PLCRASH_ESUCCESS,
         fold_left (apply_callback cb)
           (flat_map (obj1_list_methods image memory isMeta namePtr)
              (obj1_array_entries image memory cursor k))
           ctx).
Proof.
  induction k as [|k IH]; intros fuel cursor ctx Hterm Hfuel;
    (destruct fuel as [|fuel]; [lia|]);
    cbn [obj1_array_terminated] in Hterm;
    apply andb_prop in Hterm; destruct Hterm as [Hread Hterm];
    apply is_success_true in Hread;
    cbn [ModuleInfo.obj1_method_lists obj1_array_entries flat_map];
    rewrite Hread.
  - unfold obj1_end_of_lists in Hterm. rewrite Hterm. reflexivity.
  - apply andb_prop in Hterm. destruct Hterm as [Hterm Hrest].
    apply andb_prop in Hterm. destruct Hterm as [Hgo Hlist].
    apply negb_true_iff in Hgo. unfold obj1_end_of_lists in Hgo.
    rewrite Hgo.
    rewrite (obj1_method_list_readable cb image memory isMeta namePtr _ ctx
               Hlist).
    rewrite (IH fuel _ _ Hrest ltac:(lia)).
    rewrite fold_left_app. reflexivity.
Qed.

(** X17: a class with [CLS_NO_METHOD_ARRAY] clear has an array of list
    pointers, ended by 0 or by [END_OF_METHODS_LIST].  When the array can
    be read up to its end marker at entry [k] and the lists before it can
    be read, [pl_async_parse_obj1_class] returns success within [k + 1]
    turns of its loop, after handing the callback the methods of list 0,
    then of list 1, and so on, and nothing from beyond the end marker. *)
Theorem obj1_class_method_list_array {Ctx : Type}
    (cb : plcrash_async_objc_found_method_cb Ctx)
    fuel image memory class isMeta ctx k :
  let namePtr := swap32 image (ModuleInfo.cls_name class) in
  let methodListPtr := swap32 image (ModuleInfo.cls_methods class) in
  plcrash_async_macho_string_init image namePtr = PLCRASH_ESUCCESS ->
  N.land (swap32 image (ModuleInfo.cls_info class))
    ModuleInfo.CLS_NO_METHOD_ARRAY = 0 ->
  obj1_array_terminated image memory methodListPtr k = true ->
  (k < fuel)%nat ->
  ModuleInfo.pl_async_parse_obj1_class cb fuel image memory class isMeta ctx
  = Some
      (PLCRASH_ESUCCESS,
       fold_left (apply_callback cb)
         (flat_map (obj1_list_methods image memory isMeta namePtr)
            (obj1_array_entries image memory methodListPtr k))
         ctx).
Proof.
  intros namePtr methodListPtr Hname Hflag Hterm Hfuel.
  unfold ModuleInfo.pl_async_parse_obj1_class.
  fold namePtr methodListPtr. rewrite Hname, Hflag. cbn [N.eqb].
  apply obj1_method_lists_terminated; assumption.
Qed.

Lemma obj1_module_loop_no_symtab {Ctx : Type}
    (cb : plcrash_async_objc_found_method_cb Ctx) image memory moduleMobj :
  obj1_module_count moduleMobj < 2 ^ 32 ->
  (forall moduleIndex,
     moduleIndex < obj1_module_count moduleMobj ->
     obj1_module_symtab image memory moduleMobj moduleIndex = 0) ->
  forall fuel moduleIndex err ctx,
    moduleIndex <= obj1_module_count moduleMobj ->
    (N.to_nat (obj1_module_count moduleMobj - moduleIndex) < fuel)%nat ->
    ModuleInfo.obj1_module_loop cb fuel image memory moduleMobj moduleIndex
      err ctx
    = Some (err, ctx).
Proof.
  intros Hcount Hnone.
  induction fuel as [|fuel IH]; intros moduleIndex err ctx Hle Hfuel; [lia|].
  cbn [ModuleInfo.obj1_module_loop].
  fold (obj1_module_count moduleMobj).
  destruct (N.ltb_spec moduleIndex (obj1_module_count moduleMobj))
    as [Hlt|_]; [|reflexivity].
  fold (obj1_module_symtab image memory moduleMobj moduleIndex).
  rewrite (Hnone _ Hlt). cbn [N.eqb].
  rewrite N.mod_small by lia.
  apply IH; lia.
Qed.

(** X18: modules without a symtab are passed over.  When the
    [__module_info] section maps and none of its module structures has a
    symtab pointer, the walk reads nothing, never runs the callback, and
    returns success; but a section too short for one module structure is
    answered with [PLCRASH_ENOTFOUND], the code of an image without ObjC1
    data. *)
Theorem module_info_without_symtabs {Ctx : Type}
    (cb : plcrash_async_objc_found_method_cb Ctx)
    fuel image memory ctx moduleMobj :
  plcrash_async_macho_map_section image ModuleInfo.kObjCSegmentName
    ModuleInfo.kObjCModuleInfoSectionName = (PLCRASH_ESUCCESS, moduleMobj) ->
  obj1_module_count moduleMobj < 2 ^ 32 ->
  (forall moduleIndex,
     moduleIndex < obj1_module_count moduleMobj ->
     obj1_module_symtab image memory moduleMobj moduleIndex = 0) ->
  (N.to_nat (obj1_module_count moduleMobj) < fuel)%nat ->
  ModuleInfo.pl_async_objc_parse_from_module_info cb fuel image memory ctx
  = Some
      (if mobject_length moduleMobj <? ModuleInfo.sizeof_module
       then PLCRASH_ENOTFOUND else PLCRASH_ESUCCESS,
       ctx).
Proof.
  intros Hmap Hcount Hnone Hfuel.
  unfold ModuleInfo.pl_async_objc_parse_from_module_info. rewrite Hmap.
  unfold plcrash_async_mobject_remap_address.
  destruct (N.ltb_spec (mobject_length moduleMobj) ModuleInfo.sizeof_module)
    as [Hshort|Hlong].
  - replace (_ && _) with false; [reflexivity|].
    symmetry. apply andb_false_iff. right. apply N.leb_gt. lia.
  - replace (_ && _) with true.
    + cbn [negb].
      apply obj1_module_loop_no_symtab; try assumption; lia.
    + symmetry. apply andb_true_iff. split; apply N.leb_le; lia.
Qed.

Section ObjC1Ends.

Context {Ctx : Type}.
Variable cb : plcrash_async_objc_found_method_cb Ctx.
Variable image : plcrash_async_macho_t.
Variable memory : ModuleInfo.objc1_memory.

Hypothesis no_arrays : forall address,
  N.land (swap32 image (ModuleInfo.cls_info (ModuleInfo.class1_at memory address)))
    ModuleInfo.CLS_NO_METHOD_ARRAY <> 0.

Lemma pl_async_parse_obj1_class_ends fuel address isMeta ctx :
  exists r,
    ModuleInfo.pl_async_parse_obj1_class cb fuel image memory
      (ModuleInfo.class1_at memory address) isMeta ctx = Some r.
Proof.
  unfold ModuleInfo.pl_async_parse_obj1_class. cbv zeta.
  destruct (plcrash_async_macho_string_init image _); eauto.
  pose proof (no_arrays address) as Hflag.
  apply N.eqb_neq in Hflag. rewrite Hflag. clear Hflag.
  destruct (_ =? 0); eauto.
Qed.

Lemma obj1_class_loop_ends fuel symtabPtr todo :
  forall i err ctx,
    exists r,
      ModuleInfo.obj1_class_loop cb fuel image memory symtabPtr todo i err ctx
      = Some r.
Proof.
  induction todo as [|todo IH]; intros i err ctx;
    cbn [ModuleInfo.obj1_class_loop]; [eauto|].
  destruct (plcrash_async_read_addr image _ _); eauto.
  destruct (plcrash_async_read_addr image _ _); eauto.
  match goal with
  | |- context [ModuleInfo.pl_async_parse_obj1_class cb fuel image memory
                  (ModuleInfo.class1_at memory ?a) false ctx] =>
      destruct (pl_async_parse_obj1_class_ends fuel a false ctx)
        as [[e1 x1] ->]
  end.
  destruct e1; eauto.
  destruct (plcrash_async_read_addr image _ _); eauto.
  match goal with
  | |- context [ModuleInfo.pl_async_parse_obj1_class cb fuel image memory
                  (ModuleInfo.class1_at memory ?a) true x1] =>
      destruct (pl_async_parse_obj1_class_ends fuel a true x1)
        as [[e2 x2] ->]
  end.
  destruct e2; eauto.
Qed.

Lemma obj1_module_loop_ends moduleMobj :
  obj1_module_count moduleMobj < 2 ^ 32 ->
  forall fuel moduleIndex err ctx,
    moduleIndex <= obj1_module_count moduleMobj ->
    (N.to_nat (obj1_module_count moduleMobj - moduleIndex) < fuel)%nat ->
    exists r,
      ModuleInfo.obj1_module_loop cb fuel image memory moduleMobj moduleIndex
        err ctx = Some r.
Proof.
  intros Hcount.
  induction fuel as [|fuel IH]; intros moduleIndex err ctx Hle Hfuel; [lia|].
  cbn [ModuleInfo.obj1_module_loop].
  fold (obj1_module_count moduleMobj).
  destruct (N.ltb_spec moduleIndex (obj1_module_count moduleMobj))
    as [Hlt|_]; [|eauto].
  rewrite N.mod_small by lia.
  destruct (_ =? 0); [apply IH; lia|].
  destruct (plcrash_async_read_addr image _ _); eauto.
  match goal with
  | |- context [ModuleInfo.obj1_class_loop cb fuel image memory ?p ?n 0
                  PLCRASH_ESUCCESS ctx] =>
      destruct (obj1_class_loop_ends fuel p n 0 PLCRASH_ESUCCESS ctx)
        as [[e1 x1] ->]
  end.
  destruct e1; eauto.
  apply IH; lia.
Qed.


End ObjC1Ends.

(** ** When the ObjC2 class parse dereferences [NULL] *)

Lemma objc2_class_methods_returns {Ctx : Type}
    (cb : plcrash_async_objc_found_method_cb Ctx) image c p isMeta ctx :
  objc2_class_methods cb image c (Some p) isMeta ctx <> NullDeref.
Proof.
  rewrite objc2_class_methods_of.
  pose proof (objc2_methods_of_no_null cb image (objcConstMobj c)
                (class_ro_deref image p) isMeta ctx) as Hnull.
  destruct (objc2_methods_of cb image (objcConstMobj c)
              (class_ro_deref image p) isMeta ctx) as [[e x]| |];
    cbn [with_cache]; [discriminate|contradiction|discriminate].
Qed.

Section Fault.

Variable vm_allocate : N -> bool.

Lemma objc2_class_data_ro_null image c dataPtr :
  (exists c',
     objc2_class_data_ro vm_allocate image c dataPtr = RoPointer None c')
  <-> cache_lookup c dataPtr <> 0
      /\ plcrash_async_mobject_remap_address (objcConstMobj c)
           (cache_lookup c dataPtr) 0 (sizeof_class_data_ro image) = false
      /\ plcrash_async_read_addr image (cache_lookup c dataPtr)
           (sizeof_class_data_ro image) <> PLCRASH_ESUCCESS.
Proof.
  unfold objc2_class_data_ro.
  destruct (N.eqb_spec (cache_lookup c dataPtr) 0) as [Hmiss|Hhit].
  - split.
    + intros [c' Hnull]. exfalso.
      destruct (plcrash_async_read_addr image dataPtr _);
        try discriminate Hnull.
      destruct (_ =? 0); [discriminate Hnull|].
      destruct (negb _).
      * destruct (plcrash_async_read_addr image _ _); discriminate Hnull.
      * destruct (plcrash_async_mobject_remap_address _ _ _ _);
          discriminate Hnull.
    + intros (Hne & _). contradiction.
  - destruct (plcrash_async_mobject_remap_address (objcConstMobj c)
                (cache_lookup c dataPtr) 0 (sizeof_class_data_ro image)).
    + split; [intros [c' Hnull]; discriminate Hnull|].
      intros (_ & Hremap & _). discriminate Hremap.
    + destruct (plcrash_async_read_addr image (cache_lookup c dataPtr)
                  (sizeof_class_data_ro image)) eqn:Hread;
        (split;
         [intros [c' Hnull]; try discriminate Hnull;
          repeat split; try assumption; discriminate
         |intros (_ & _ & Hfail); try (contradiction Hfail; reflexivity);
          eexists; reflexivity]).
Qed.

(** X20: [pl_async_objc_parse_objc2_class] dereferences a [NULL] class_ro
    pointer in exactly one situation: the cache answers the class's masked
    [data_rw] address with a non-zero [data_ro] address that is neither
    inside the mapped [__objc_const] nor readable. *)
Theorem objc2_class_null_deref_iff {Ctx : Type}
    (cb : plcrash_async_objc_found_method_cb Ctx) image c class isMeta ctx :
  let dataPtr := N.ldiff (swap_pointer image (class_data_rw class)) 3 in
  let cached_data_ro_addr := cache_lookup c dataPtr in
  pl_async_objc_parse_objc2_class vm_allocate cb image c class isMeta ctx
  = NullDeref
  <-> cached_data_ro_addr <> 0
      /\ plcrash_async_mobject_remap_address (objcConstMobj c)
           cached_data_ro_addr 0 (sizeof_class_data_ro image) = false
      /\ plcrash_async_read_addr image cached_data_ro_addr
           (sizeof_class_data_ro image) <> PLCRASH_ESUCCESS.
Proof.
  intros dataPtr cached_data_ro_addr. subst cached_data_ro_addr.
  rewrite <- objc2_class_data_ro_null.
  unfold pl_async_objc_parse_objc2_class. fold dataPtr.
  destruct (objc2_class_data_ro vm_allocate image c dataPtr)
    as [err|[p|] c'].
  - split; [discriminate|]. intros [c'' Hnull]. discriminate Hnull.
  - split.
    + intros Hfault. exfalso.
      exact (objc2_class_methods_returns cb image c' p isMeta ctx Hfault).
    + intros [c'' Hnull]. discriminate Hnull.
  - split; [intros _; eexists; reflexivity|]. intros _. reflexivity.
Qed.

End Fault.

(** ** What the ObjC2 class parse hands to the callback *)

Lemma objc2_method_loop_tagged image mobj isMeta classNamePtr entsize todo :
  forall cursor err seen e seen',
    objc2_method_loop record_method image mobj isMeta classNamePtr entsize
      todo cursor err seen = Returned (e, seen') ->
    exists new,
      seen' = seen ++ new
      /\ Forall
           (fun m => isClassMethod m = isMeta /\ className m = classNamePtr)
           new.
Proof.
  induction todo as [|todo IH]; intros cursor err seen e seen';
    cbn [objc2_method_loop].
  - intros [= _ <-]. exists []. rewrite app_nil_r.
    split; [reflexivity|constructor].
  - destruct (negb _); [discriminate|].
    destruct (plcrash_async_macho_string_init image _);
      try (intros [= _ <-]; exists []; rewrite app_nil_r;
           split; [reflexivity|constructor]).
    intros Hloop. apply IH in Hloop. destruct Hloop as (new & -> & Hall).
    unfold record_method. rewrite <- app_assoc.
    eexists. split; [reflexivity|].
    constructor; [cbn; auto|exact Hall].
Qed.

Section Tagged.

Variable vm_allocate : N -> bool.

(** X21: whatever [pl_async_objc_parse_objc2_class] returns, success or
    error, it has only added to what was recorded before, and the methods
    it added all carry the [isMetaClass] flag of the call and one and the
    same class name pointer. *)
Theorem objc2_class_methods_tagged image c class isMeta seen err c' seen' :
  pl_async_objc_parse_objc2_class vm_allocate record_method image c class
    isMeta seen = Returned (err, c', seen') ->
  exists name new,
    seen' = seen ++ new
    /\ Forall (fun m => isClassMethod m = isMeta /\ className m = name) new.
Proof.
  assert (Hnone : forall s : list found_method,
            exists (name : N) new,
              s = s ++ new
              /\ Forall
                   (fun m => isClassMethod m = isMeta /\ className m = name)
                   new).
  { intros s. exists 0, []. rewrite app_nil_r.
    split; [reflexivity|constructor]. }
  unfold pl_async_objc_parse_objc2_class.
  destruct (objc2_class_data_ro vm_allocate image c _) as [e|[p|] c1].
  - intros Hrun. injection Hrun as _ _ <-. apply Hnone.
  - rewrite objc2_class_methods_of. intros Hrun.
    apply with_cache_returned in Hrun. destruct Hrun as [Hrun _].
    revert Hrun. unfold objc2_methods_of.
    destruct (plcrash_async_macho_string_init image _);
      try (intros [= _ <-]; apply Hnone).
    destruct (_ =? 0); [intros [= _ <-]; apply Hnone|].
    destruct (negb _); [intros [= _ <-]; apply Hnone|].
    destruct (negb _); [intros [= _ <-]; apply Hnone|].
    intros Hloop. eexists. eapply objc2_method_loop_tagged, Hloop.
  - discriminate.
Qed.

End Tagged.

(** ** When the method loop stays inside [__objc_const] *)

Section Bounds.

Context {Ctx : Type}.
Variable cb : plcrash_async_objc_found_method_cb Ctx.
Variable image : plcrash_async_macho_t.
Variable objcConstMobj : plcrash_async_mobject_t.

Hypothesis mobj_in_address_space :
  task_address objcConstMobj + mobject_length objcConstMobj <= 2 ^ 64.

Lemma sizeof_method_pos : 0 < sizeof_method image.
Proof. unfold sizeof_method. destruct (m64 image); lia. Qed.

Lemma objc2_method_loop_inside isMeta cls entsize todo :
  sizeof_method image <= entsize ->
  forall cursor err x,
    task_address objcConstMobj <= cursor ->
    cursor + entsize * N.of_nat todo
    <= task_address objcConstMobj + mobject_length objcConstMobj ->
    objc2_method_loop cb image objcConstMobj isMeta cls entsize todo cursor
      err x <> OutOfBounds.
Proof.
  intros Hent. pose proof sizeof_method_pos as Hpos.
  induction todo as [|todo IH]; intros cursor err x Hlow Hhigh;
    cbn [objc2_method_loop]; [discriminate|].
  assert (Hin : plcrash_async_mobject_remap_address objcConstMobj cursor 0
                  (sizeof_method image) = true).
  { unfold plcrash_async_mobject_remap_address.
    apply andb_true_iff. split; apply N.leb_le; nia. }
  rewrite Hin. cbn [negb].
  destruct (plcrash_async_macho_string_init image _); try discriminate.
  destruct todo as [|todo']; [cbn [objc2_method_loop]; discriminate|].
  assert (Hnext : vm_add cursor entsize = cursor + entsize).
  { unfold vm_add, pl_vm_address_bits. apply N.mod_small. nia. }
  rewrite Hnext. apply IH; nia.
Qed.

Hypothesis entsize_covers_method : forall address,
  sizeof_method image
  <= N.ldiff (swap32 image (header_entsize (list_header_at image address))) 3.

Lemma objc2_methods_of_inside ro isMeta x :
  objc2_methods_of cb image objcConstMobj ro isMeta x <> OutOfBounds.
Proof.
  unfold objc2_methods_of.
  destruct (plcrash_async_macho_string_init image _); try discriminate.
  destruct (_ =? 0); [discriminate|].
  destruct (negb _); [discriminate|].
  destruct (plcrash_async_mobject_remap_address objcConstMobj
              (vm_add _ sizeof_list_header) 0 _) eqn:Hwindow;
    cbn [negb]; [|discriminate].
  unfold plcrash_async_mobject_remap_address in Hwindow.
  apply andb_true_iff in Hwindow. destruct Hwindow as [Hlow Hhigh].
  apply N.leb_le in Hlow, Hhigh.
  apply objc2_method_loop_inside.
  - apply entsize_covers_method.
  - lia.
  - rewrite N2Nat.id. lia.
Qed.

Lemma objc2_class_uncached_inside class isMeta x :
  objc2_class_uncached cb image objcConstMobj class isMeta x <> OutOfBounds.
Proof.
  unfold objc2_class_uncached.
  destruct (resolve_uncached image objcConstMobj _); [discriminate|].
  apply objc2_methods_of_inside.
Qed.

Lemma objc2_class_loop_uncached_inside classMobj objcDataMobj todo :
  forall i err x,
    objc2_class_loop_uncached cb image classMobj objcDataMobj objcConstMobj
      todo i err x <> OutOfBounds.
Proof.
  induction todo as [|todo IH]; intros i err x;
    cbn [objc2_class_loop_uncached].
  - discriminate.
  - destruct (negb _); [discriminate|].
    match goal with
    | |- context [objc2_class_uncached cb image objcConstMobj ?cl false x] =>
        pose proof (objc2_class_uncached_inside cl false x) as H1;
        destruct (objc2_class_uncached cb image objcConstMobj cl false x)
          as [[e1 x1]| |]
    end; [|discriminate|contradiction].
    destruct e1; try discriminate.
    destruct (negb _); [discriminate|].
    match goal with
    | |- context [objc2_class_uncached cb image objcConstMobj ?cl true x1] =>
        pose proof (objc2_class_uncached_inside cl true x1) as H2;
        destruct (objc2_class_uncached cb image objcConstMobj cl true x1)
          as [[e2 x2]| |]
    end; [|discriminate|contradiction].
    destruct e2; solve [ apply IH | discriminate ].
Qed.

End Bounds.


(** *** Concrete instances for the ObjC1 walk and the method lists *)

Lemma module_info_walk_is_callback_fold_witness :
  ModuleInfo.pl_async_objc_parse_from_module_info
    pl_async_objc_find_method_search_callback 5 sample_objc1_image_ok
    (sample_objc1_memory true) {| searchIMP := 0x20050; bestIMP := 0 |}
  = Some (PLCRASH_ESUCCESS, {| searchIMP := 0x20050; bestIMP := 0x20040 |}).
Proof.
  pose proof (module_info_walk_is_callback_fold
                pl_async_objc_find_method_search_callback 5
                sample_objc1_image_ok (sample_objc1_memory true)
                {| searchIMP := 0x20050; bestIMP := 0 |}) as Hfold.
  destruct Hfold as [Hrun _].
  - vm_compute. reflexivity.
  - rewrite Hrun. vm_compute. reflexivity.
Defined.

Lemma obj1_class_methods_tagged_witness :
  exists new,
    [method_A1; method_M1; method_M2; method_M3] = [method_A1] ++ new
    /\ Forall
         (fun m =>
            isClassMethod m = false
            /\ className m
               = swap32 sample_objc1_image_ok
                   (ModuleInfo.cls_name (sample_objc1_class true)))
         new.
Proof.
  apply (obj1_class_methods_tagged 3 sample_objc1_image_ok
           (sample_objc1_memory true) (sample_objc1_class true) false
           [method_A1] PLCRASH_ESUCCESS).
  vm_compute. reflexivity.
Defined.

Lemma obj1_class_single_method_list_witness :
  ModuleInfo.pl_async_parse_obj1_class record_method 0 sample_objc1_image_ok
    (sample_objc1_memory false) (sample_objc1_class false) false []
  = Some (PLCRASH_ESUCCESS, [method_M1; method_M2]).
Proof.
  pose proof (obj1_class_single_method_list record_method 0
                sample_objc1_image_ok (sample_objc1_memory false)
                (sample_objc1_class false) false []) as Hrun.
  cbv zeta in Hrun. rewrite Hrun.
  - vm_compute. reflexivity.
  - reflexivity.
  - vm_compute. discriminate.
  - intros _. vm_compute. reflexivity.
Defined.

Lemma obj1_class_method_list_array_witness :
  ModuleInfo.pl_async_parse_obj1_class record_method 3 sample_objc1_image_ok
    (sample_objc1_memory true) (sample_objc1_class true) false []
  = Some (PLCRASH_ESUCCESS, [method_M1; method_M2; method_M3]).
Proof.
  pose proof (obj1_class_method_list_array record_method 3
                sample_objc1_image_ok (sample_objc1_memory true)
                (sample_objc1_class true) false [] 2) as Hrun.
  cbv zeta in Hrun. rewrite Hrun.
  - vm_compute. reflexivity.
  - reflexivity.
  - vm_compute. reflexivity.
  - vm_compute. reflexivity.
  - lia.
Defined.

Lemma module_info_without_symtabs_witness :
  ModuleInfo.pl_async_objc_parse_from_module_info record_method 2
    sample_objc1_image_one_module (sample_objc1_memory true) []
  = Some (PLCRASH_ESUCCESS, []).
Proof.
  apply (module_info_without_symtabs record_method 2
           sample_objc1_image_one_module (sample_objc1_memory true) []
           {| task_address := 0x7000; mobject_length := 16 |}).
  - reflexivity.
  - reflexivity.
  - intros moduleIndex Hlt.
    change (obj1_module_count _) with 1 in Hlt.
    assert (moduleIndex = 0) as -> by lia. reflexivity.
  - vm_compute. lia.
Defined.


Lemma objc2_class_methods_tagged_witness :
  exists name new,
    [method_B1; method_A1; method_A2] = [method_B1] ++ new
    /\ Forall (fun m => isClassMethod m = false /\ className m = name) new.
Proof.
  apply (objc2_class_methods_tagged vm_grant sample_image_ok
           (mapped_cache sample_image_ok) (class_at sample_image_ok 0x2000)
           false [method_B1] PLCRASH_ESUCCESS cache_after_class_A).
  vm_compute. reflexivity.
Defined.

